(** * Veyra editor integration: diagnostics bridge and tool discovery

    A shallow embedding of the diagnostic and tool-resolution code of
    [tools/vscode_extension/src/extension.ts] and
    [tools/vscode_extension/src/toolManager.ts].

    - [JsString]: the string primitives the code calls ([trim],
      [toLowerCase], [includes], [parseInt]);
    - [RegExp]: a backtracking matcher for the regular-expression
      fragment used by the four recognizers, with the [g] flag's
      [lastIndex] protocol of [exec];
    - [Parser]: [findTokenEnd] and [parseCompilerErrors];
    - [Discovery]: [isExecutableAvailable] and [findVeyraTool] of
      extension.ts;
    - [ToolManager]: [isExecutableAvailable] and [findTool] of
      toolManager.ts;
    - [Commands]: [findVeyraCompiler], [findVeyraLanguageServer],
      [startLanguageServer], [checkToolAvailability] and the handlers of
      the run, format, lint, build and new-project commands;
    - [ToolStatus]: [getAllToolsInfo], [checkToolsAvailability] and
      [buildTools] of toolManager.ts;
    - [StatusBar]: [initializeStatusBar] and [updateStatusBar];
    - [Scheduler]: the event handlers of [setupDiagnostics] and
      [validateDocument] over an explicit event-loop state.

    Strings are sequences of 8-bit code units (the Latin-1 range of
    JavaScript's UTF-16 strings); numbers that the code only uses as
    integers are in [Z]. *)

From Stdlib Require Import ZArith List String Ascii Bool Lia Sorted DecimalString.
From stdpp Require Import base option list strings gmap.
Import ListNotations.

Local Open Scope string_scope.
Local Open Scope list_scope.
Local Open Scope Z_scope.

(** ** Abnormal completion *)

(** A JavaScript call either returns or throws; loops are run with fuel,
    and running out of it is reported as [Unfinished] so that it is never
    mistaken for a result. *)
Inductive error : Type :=
| IllegalArgument   (* thrown by the editor API on an invalid position *)
| NotANumber        (* a NaN reaching an API that needs an integer *)
| CommandFailed     (* a child process that did not exit with status 0 *)
| NoSuchFile        (* a file-system call on a missing path *)
| MessageNotSet     (* the TypeError of a diagnostic made with an empty message *)
| Unfinished.       (* the loop did not finish within its fuel *)

Inductive outcome (A : Type) : Type :=
| Returns (a : A)
| Raises (e : error).
Arguments Returns {A} a.
Arguments Raises {A} e.

Definition bind {A B : Type} (m : outcome A) (k : A -> outcome B) : outcome B :=
  match m with
  | Returns a => k a
  | Raises e => Raises e
  end.

Notation "'let*' x ':=' m 'in' k" := (bind m (fun x => k))
  (at level 10, x name, m at level 100, k at level 200).

(** ** String primitives *)
Module JsString.

Definition code (c : ascii) : nat := nat_of_ascii c.

Definition between (lo hi : nat) (c : ascii) : bool :=
  (Nat.leb lo (code c) && Nat.leb (code c) hi)%bool.

(** [\d] *)
Definition isDigit (c : ascii) : bool := between 48 57 c.

(** [[a-zA-Z0-9_]] *)
Definition isWordChar (c : ascii) : bool :=
  (between 97 122 c || between 65 90 c || between 48 57 c || Nat.eqb (code c) 95)%bool.

(** [\s]: WhiteSpace and LineTerminator code units below 256, that is
    TAB, LF, VT, FF, CR, SPACE and NO-BREAK SPACE. *)
Definition isSpace (c : ascii) : bool :=
  (between 9 13 c || Nat.eqb (code c) 32 || Nat.eqb (code c) 160)%bool.

(** LineTerminator, excluded by [.] *)
Definition isLineTerminator (c : ascii) : bool :=
  (Nat.eqb (code c) 10 || Nat.eqb (code c) 13)%bool.

(** [[{}()\[\];,.]] *)
Definition isDelimiter (c : ascii) : bool :=
  existsb (Ascii.eqb c) (list_ascii_of_string "{}()[];,.").

(** [String.prototype.toLowerCase], one code unit: A-Z and the Latin-1
    capitals (all of 192..222 but the multiplication sign 215). *)
Definition lowerChar (c : ascii) : ascii :=
  if (between 65 90 c || (between 192 222 c && negb (Nat.eqb (code c) 215)))%bool
  then ascii_of_nat (code c + 32) else c.

(** Canonicalize of a case-insensitive match without the [u] flag: the
    upper-case form when it is a single code unit of the same range. *)
Definition canonicalize (c : ascii) : ascii :=
  if (between 97 122 c || (between 224 254 c && negb (Nat.eqb (code c) 247)))%bool
  then ascii_of_nat (code c - 32) else c.

Fixpoint map_string (f : ascii -> ascii) (s : string) : string :=
  match s with
  | EmptyString => EmptyString
  | String c s' => String (f c) (map_string f s')
  end.

Definition toLowerCase (s : string) : string := map_string lowerChar s.

Fixpoint trimStart (s : string) : string :=
  match s with
  | String c s' => if isSpace c then trimStart s' else s
  | EmptyString => EmptyString
  end.

Fixpoint rev_string (s acc : string) : string :=
  match s with
  | EmptyString => acc
  | String c s' => rev_string s' (String c acc)
  end.

Definition trimEnd (s : string) : string :=
  rev_string (trimStart (rev_string s EmptyString)) EmptyString.

Definition trim (s : string) : string := trimEnd (trimStart s).

Fixpoint startsWith (p s : string) : bool :=
  match p, s with
  | EmptyString, _ => true
  | String a p', String b s' => (Ascii.eqb a b && startsWith p' s')%bool
  | String _ _, EmptyString => false
  end.

(** [s.includes(p)] *)
Fixpoint includes (s p : string) : bool :=
  (startsWith p s ||
   match s with
   | EmptyString => false
   | String _ s' => includes s' p
   end)%bool.

Definition digitValue (c : ascii) : Z := Z.of_nat (code c - 48).

Fixpoint parseDigits (s : string) (acc : Z) : Z :=
  match s with
  | String c s' => if isDigit c then parseDigits s' (10 * acc + digitValue c) else acc
  | EmptyString => acc
  end.

(** [parseInt(s)] for an unsigned decimal text: the value of the leading
    run of digits, [None] (NaN) when there is none.  The callers pass
    captures of [\d+], which have no sign, blank or radix prefix, and
    use the number only under [Math.min] with a line count or a line
    length, so the rounding of very long digit runs to a double does not
    show. *)
Definition parseInt (s : string) : option Z :=
  match s with
  | String c _ => if isDigit c then Some (parseDigits s 0) else None
  | EmptyString => None
  end.

(** [s.slice(0, n)] *)
Fixpoint take (n : nat) (s : string) : string :=
  match n, s with
  | S n', String c s' => String c (take n' s')
  | _, _ => EmptyString
  end.

(** [s.slice(n)] *)
Fixpoint drop (n : nat) (s : string) : string :=
  match n, s with
  | S n', String _ s' => drop n' s'
  | _, _ => s
  end.

(** [s[i]], [None] for [undefined] *)
Definition charAt (s : string) (i : nat) : option ascii := String.get i s.

End JsString.

(** ** Regular expressions *)
Module RegExp.
Import JsString.

(** The character classes that occur in the recognizers. *)
Inductive charset : Type :=
| Space        (* \s *)
| Digit        (* \d *)
| Dot          (* .  *)
| NotQuote.    (* any character but the double quote *)

Definition doubleQuote : ascii := ascii_of_nat 34.

Definition inSet (cs : charset) (c : ascii) : bool :=
  match cs with
  | Space => isSpace c
  | Digit => isDigit c
  | Dot => negb (isLineTerminator c)
  | NotQuote => negb (Ascii.eqb c doubleQuote)
  end.

(** Pattern syntax.  Quantifiers are applied to character classes only,
    which is all the recognizers need. *)
Inductive node : Type :=
| Lit (s : string)                               (* a run of literal characters *)
| Cat (a b : node)                               (* ab *)
| Or (a b : node)                                (* a|b *)
| Repeat (least : nat) (greedy : bool) (cs : charset)
                                                 (* cs*  cs+  cs+? *)
| Capture (i : nat) (a : node)                   (* the i-th ( ) *)
| EndOfInput.                                    (* $ without the m flag *)

Definition captures : Type := list (nat * string).

Fixpoint capture (i : nat) (caps : captures) : option string :=
  match caps with
  | [] => None
  | (j, s) :: caps' => if Nat.eqb i j then Some s else capture i caps'
  end.

Definition sameChar (ignoreCase : bool) (a b : ascii) : bool :=
  if ignoreCase then Ascii.eqb (canonicalize a) (canonicalize b) else Ascii.eqb a b.

(** Match the literal [p] at the head of [s]; the rest of [s] on success. *)
Fixpoint literal (ignoreCase : bool) (p s : string) : option string :=
  match p, s with
  | EmptyString, _ => Some s
  | String a p', String b s' =>
      if sameChar ignoreCase a b then literal ignoreCase p' s' else None
  | String _ _, EmptyString => None
  end.

(** The suffixes of [s] left after consuming 0, 1, 2, ... characters of
    [cs], shortest consumption first. *)
Fixpoint spans (cs : charset) (s : string) : list string :=
  s :: match s with
       | String c s' => if inSet cs c then spans cs s' else []
       | EmptyString => []
       end.

(** Backtracking as a list of successes in the order in which the
    engine tries them: each alternative is the rest of the input and the
    captures so far.  Greedy repetition tries the longest run first, lazy
    repetition the shortest. *)
Fixpoint run (ignoreCase : bool) (r : node) (s : string) (caps : captures)
  : list (string * captures) :=
  match r with
  | Lit p =>
      match literal ignoreCase p s with
      | Some s' => [(s', caps)]
      | None => []
      end
  | Cat a b =>
      flat_map (fun '(s', caps') => run ignoreCase b s' caps') (run ignoreCase a s caps)
  | Or a b => run ignoreCase a s caps ++ run ignoreCase b s caps
  | Repeat least greedy cs =>
      let alts := skipn least (spans cs s) in
      map (fun s' => (s', caps)) (if greedy then rev alts else alts)
  | Capture i a =>
      map (fun '(s', caps') =>
             (s', (i, take (String.length s - String.length s') s) :: caps'))
          (run ignoreCase a s caps)
  | EndOfInput =>
      match s with
      | EmptyString => [(s, caps)]
      | String _ _ => []
      end
  end.

(** A regular-expression object with the [g] flag: [lastIndex] is the
    mutable field [exec] reads and writes. *)
Record t : Type := mk {
  syntax : node;
  ignoreCase : bool;
  lastIndex : nat
}.

Definition setLastIndex (n : nat) (re : t) : t :=
  {| syntax := syntax re; ignoreCase := ignoreCase re; lastIndex := n |}.

(** The array [exec] returns: [index], and the captured groups;
    [stop] is the index just after the match. *)
Record result : Type := mkResult {
  index : nat;
  stop : nat;
  groups : captures
}.

(** Try the pattern at [pos], then at [pos + 1], ... up to the end of the
    input; [s] is the input from [pos] on. *)
Fixpoint search (ignoreCase : bool) (r : node) (s : string) (pos : nat)
  : option result :=
  match run ignoreCase r s [] with
  | (s', caps) :: _ =>
      Some {| index := pos;
              stop := pos + (String.length s - String.length s');
              groups := caps |}
  | [] =>
      match s with
      | String _ s' => search ignoreCase r s' (S pos)
      | EmptyString => None
      end
  end.

(** [re.exec(input)]: search from [lastIndex]; on success [lastIndex]
    becomes the end of the match, on failure it is reset to 0. *)
Definition exec (re : t) (input : string) : option result * t :=
  if Nat.ltb (String.length input) (lastIndex re) then (None, setLastIndex 0 re)
  else
    match search (ignoreCase re) (syntax re) (drop (lastIndex re) input) (lastIndex re) with
    | Some m => (Some m, setLastIndex (stop m) re)
    | None => (None, setLastIndex 0 re)
    end.

(** *** Static properties of a pattern, used to reason about its matches *)

(** A lower bound on the number of characters a match consumes. *)
Fixpoint minLength (r : node) : nat :=
  match r with
  | Lit p => String.length p
  | Cat a b => minLength a + minLength b
  | Or a b => Nat.min (minLength a) (minLength b)
  | Repeat least _ _ => least
  | Capture _ a => minLength a
  | EndOfInput => 0
  end.

(** Group [i] is set by every match of the pattern. *)
Fixpoint binds (i : nat) (r : node) : bool :=
  match r with
  | Cat a b => binds i a || binds i b
  | Or a b => binds i a && binds i b
  | Capture j a => Nat.eqb i j || binds i a
  | _ => false
  end.

(** Wherever group [i] occurs in the pattern it is [(\d+)]. *)
Fixpoint numeric (i : nat) (r : node) : bool :=
  match r with
  | Cat a b | Or a b => numeric i a && numeric i b
  | Capture j a =>
      if Nat.eqb i j then
        match a with
        | Repeat (S _) _ Digit => true
        | _ => false
        end
      else numeric i a
  | _ => true
  end.

(** Every text captured for group [i] reads as a number. *)
Definition allNumeric (i : nat) (caps : captures) : Prop :=
  forall s, In (i, s) caps -> is_Some (parseInt s).

(** [m] is a match of [re] in [input]: the pattern, tried at [index m],
    has as its first success the one recorded in [m]. *)
Definition matchAt (re : t) (input : string) (m : result) : Prop :=
  (index m <= String.length input)%nat /\
  exists rest others,
    run (ignoreCase re) (syntax re) (drop (index m) input) [] = (rest, groups m) :: others /\
    stop m = (index m + (String.length (drop (index m) input) - String.length rest))%nat.

End RegExp.

(** ** The error-text parser *)
Module Parser.
Import JsString.

(** *** The editor's data types *)

Inductive DiagnosticSeverity : Type := Error | Warning.

Record Position : Type := mkPosition { line : Z; character : Z }.

Record Range : Type := mkRange { start : Position; end_ : Position }.

Record Diagnostic : Type := mkDiagnostic {
  range : Range;
  message : string;
  severity : DiagnosticSeverity;
  source : string
}.

(** A text document always has at least one line (an empty document is
    one empty line), hence [firstLine]. *)
Record TextDocument : Type := mkTextDocument {
  uri : string;
  languageId : string;
  firstLine : string;
  moreLines : list string
}.

Definition allLines (document : TextDocument) : list string :=
  firstLine document :: moreLines document.

Definition lineCount (document : TextDocument) : Z :=
  Z.of_nat (List.length (allLines document)).

(** [document.lineAt(n).text]; the editor throws on a line out of range. *)
Definition lineAt (document : TextDocument) (n : Z) : outcome string :=
  if (n <? 0) || (lineCount document <=? n) then Raises IllegalArgument
  else Returns (nth (Z.to_nat n) (allLines document) EmptyString).

Definition isBefore (a b : Position) : bool :=
  (line a <? line b) || ((line a =? line b) && (character a <? character b)).

(** [new vscode.Range(startLine, startCharacter, endLine, endCharacter)]:
    negative numbers are refused, and the two positions are swapped when
    the second is before the first. *)
Definition newRange (startLine startCharacter endLine endCharacter : Z) : outcome Range :=
  if (startLine <? 0) || (startCharacter <? 0) || (endLine <? 0) || (endCharacter <? 0)
  then Raises IllegalArgument
  else
    let a := mkPosition startLine startCharacter in
    let b := mkPosition endLine endCharacter in
    Returns (if isBefore b a then mkRange b a else mkRange a b).

Definition len (s : string) : Z := Z.of_nat (String.length s).

(** *** findTokenEnd *)

(** [line[i]] *)
Definition at_ (s : string) (i : Z) : option ascii :=
  if i <? 0 then None else charAt s (Z.to_nat i).

(** [/[cls]/.test(x)] for a one-character class: [x] is a single
    character, or [undefined], which [test] reads as the text
    "undefined". *)
Definition test (cls : ascii -> bool) (x : option ascii) : bool :=
  match x with
  | Some c => cls c
  | None => existsb cls (list_ascii_of_string "undefined")
  end.

(** [while (end < line.length && /cls/.test(line[end])) end++] *)
Fixpoint advance (fuel : nat) (cls : ascii -> bool) (line : string) (end0 : Z)
  : outcome Z :=
  if (end0 <? len line) && test cls (at_ line end0) then
    match fuel with
    | O => Raises Unfinished
    | S fuel' => advance fuel' cls line (end0 + 1)
    end
  else Returns end0.

Definition findTokenEnd (line : string) (start : Z) : outcome Z :=
  let fuel := Z.to_nat (len line - start) in
  (* Skip whitespace *)
  let* end1 := advance fuel isSpace line start in
  (* If we hit a delimiter, highlight just that character *)
  if (end1 <? len line) && test isDelimiter (at_ line end1) then Returns (end1 + 1)
  else
    (* Otherwise, find the end of the word/token *)
    let* end2 := advance fuel isWordChar line end1 in
    Returns (Z.max end2 (start + 1)).

(** *** The recognizers *)

Import RegExp.

Fixpoint seq (l : list node) : node :=
  match l with
  | [] => Lit EmptyString
  | [a] => a
  | a :: l' => Cat a (seq l')
  end.

Fixpoint alt (l : list node) : node :=
  match l with
  | [] => Lit EmptyString
  | [a] => a
  | a :: l' => Or a (alt l')
  end.

Definition plus (cs : charset) : node := Repeat 1 true cs.
Definition star (cs : charset) : node := Repeat 0 true cs.
Definition lazyPlus (cs : charset) : node := Repeat 1 false cs.
Definition newline : node := Lit (String (ascii_of_nat 10) EmptyString).
Definition quote : node := Lit (String doubleQuote EmptyString).

(** [(?:\n|$)] *)
Definition lineEnd : node := alt [newline; EndOfInput].

(** Pattern 1:
    [/(?:Lexer|Parser|Syntax|Parse)\s+error\s+at\s+line\s+(\d+),\s+column\s+(\d+):\s+(.+?)(?:\n|$)/gi] *)
Definition pattern1 : RegExp.t :=
  {| syntax := seq [alt [Lit "Lexer"; Lit "Parser"; Lit "Syntax"; Lit "Parse"];
                    plus Space; Lit "error"; plus Space; Lit "at"; plus Space;
                    Lit "line"; plus Space; Capture 1 (plus Digit); Lit ",";
                    plus Space; Lit "column"; plus Space; Capture 2 (plus Digit);
                    Lit ":"; plus Space; Capture 3 (lazyPlus Dot); lineEnd];
     ignoreCase := true; lastIndex := 0 |}.

(** Pattern 2, the struct format; the message is quoted:
    [/(?:ParseError|LexError)\s*{\s*line:\s*(\d+),\s*column:\s*(\d+),\s*message:\s*Q([^Q]+)Q/g]
    where Q stands for the double quote. *)
Definition pattern2 : RegExp.t :=
  {| syntax := seq [alt [Lit "ParseError"; Lit "LexError"];
                    star Space; Lit "{"; star Space; Lit "line:"; star Space;
                    Capture 1 (plus Digit); Lit ","; star Space; Lit "column:";
                    star Space; Capture 2 (plus Digit); Lit ","; star Space;
                    Lit "message:"; star Space; quote; Capture 3 (plus NotQuote);
                    quote];
     ignoreCase := false; lastIndex := 0 |}.

(** Pattern 3:
    [/Error\s+at\s+line\s+(\d+),\s+column\s+(\d+):\s+(.+?)(?:\n|$)/gi] *)
Definition pattern3 : RegExp.t :=
  {| syntax := seq [Lit "Error"; plus Space; Lit "at"; plus Space; Lit "line";
                    plus Space; Capture 1 (plus Digit); Lit ","; plus Space;
                    Lit "column"; plus Space; Capture 2 (plus Digit); Lit ":";
                    plus Space; Capture 3 (lazyPlus Dot); lineEnd];
     ignoreCase := true; lastIndex := 0 |}.

(** Pattern 4:
    [/error:\s*line\s+(\d+),\s+column\s+(\d+):\s*(.+?)(?:\n|$)/gi] *)
Definition pattern4 : RegExp.t :=
  {| syntax := seq [Lit "error:"; star Space; Lit "line"; plus Space;
                    Capture 1 (plus Digit); Lit ","; plus Space; Lit "column";
                    plus Space; Capture 2 (plus Digit); Lit ":"; star Space;
                    Capture 3 (lazyPlus Dot); lineEnd];
     ignoreCase := true; lastIndex := 0 |}.

Definition patterns : list RegExp.t := [pattern1; pattern2; pattern3; pattern4].

(** *** parseCompilerErrors *)

(** [parseInt(match[i])]; a NaN would reach [document.lineAt] and throw
    there, nothing observable happening in between. *)
Definition parseIntGroup (i : nat) (m : RegExp.result) : outcome Z :=
  match capture i (groups m) with
  | Some s =>
      match parseInt s with
      | Some n => Returns n
      | None => Raises NotANumber
      end
  | None => Raises NotANumber
  end.

(** [match[3].trim()]; a group that did not take part is [undefined], on
    which the method call throws. *)
Definition trimGroup (i : nat) (m : RegExp.result) : outcome string :=
  match capture i (groups m) with
  | Some s => Returns (trim s)
  | None => Raises IllegalArgument
  end.

(** Ensure line and column are within bounds. *)
Definition validLine (document : TextDocument) (line : Z) : Z :=
  Z.max 0 (Z.min line (lineCount document - 1)).

Definition validColumn (lineText : string) (column : Z) : Z :=
  Z.max 0 (Z.min column (len lineText)).

Definition severityOf (message : string) : DiagnosticSeverity :=
  if includes (toLowerCase message) "warning" then Warning else Error.

(** [new vscode.Diagnostic(range, message, severity)]: the constructor
    throws a TypeError when the message is empty ([if (!message)]); the
    source of a new diagnostic is not set. *)
Definition newDiagnostic (range : Range) (message : string) (severity : DiagnosticSeverity)
  : outcome Diagnostic :=
  match message with
  | EmptyString => Raises MessageNotSet
  | String _ _ =>
      Returns {| range := range; message := message; severity := severity;
                 source := EmptyString |}
  end.

(** [diagnostic.source = value] *)
Definition setSource (value : string) (diagnostic : Diagnostic) : Diagnostic :=
  {| range := range diagnostic; message := message diagnostic;
     severity := severity diagnostic; source := value |}.

(** The diagnostic built from an extracted (line, column, message), the
    line and column already 0-based. *)
Definition diagnosticAt (document : TextDocument) (line column : Z) (message : string)
  : outcome Diagnostic :=
  let vLine := validLine document line in
  let* lineText := lineAt document vLine in
  let vColumn := validColumn lineText column in
  (* Create range for the error *)
  let* range :=
    if vColumn <? len lineText then
      (* Try to highlight the problematic token *)
      let* endColumn := findTokenEnd lineText vColumn in
      newRange vLine vColumn vLine endColumn
    else
      (* If column is at end of line, highlight the whole line *)
      newRange vLine 0 vLine (len lineText) in
  (* Determine severity based on error type *)
  let severity := severityOf message in
  let* diagnostic := newDiagnostic range message severity in
  Returns (setSource "veyra" diagnostic).

(** The body of the [while] loop, for one match. *)
Definition diagnosticOfMatch (document : TextDocument) (m : RegExp.result)
  : outcome Diagnostic :=
  let* line1 := parseIntGroup 1 m in
  let line := line1 - 1 in      (* Convert to 0-based *)
  let* column1 := parseIntGroup 2 m in
  let column := column1 - 1 in  (* Convert to 0-based *)
  let* message := trimGroup 3 m in
  diagnosticAt document line column message.

(** [while ((match = pattern.exec(errorOutput)) !== null) { ... }]:
    the diagnostics pushed so far and the pattern object are threaded
    through the iterations. *)
Fixpoint whileExec (fuel : nat) (pattern : RegExp.t) (errorOutput : string)
    (document : TextDocument) (diagnostics : list Diagnostic)
  : outcome (list Diagnostic * RegExp.t) :=
  match RegExp.exec pattern errorOutput with
  | (None, pattern') => Returns (diagnostics, pattern')
  | (Some m, pattern') =>
      match fuel with
      | O => Raises Unfinished
      | S fuel' =>
          let* d := diagnosticOfMatch document m in
          whileExec fuel' pattern' errorOutput document (diagnostics ++ [d])
      end
  end.

(** [for (const pattern of patterns) { pattern.lastIndex = 0; while ... }] *)
Fixpoint forPatterns (ps : list RegExp.t) (errorOutput : string)
    (document : TextDocument) (diagnostics : list Diagnostic)
  : outcome (list Diagnostic) :=
  match ps with
  | [] => Returns diagnostics
  | pattern :: ps' =>
      let* r := whileExec (String.length errorOutput)
                          (setLastIndex 0 pattern) errorOutput document diagnostics in
      forPatterns ps' errorOutput document (fst r)
  end.

Definition parseCompilerErrors (errorOutput : string) (document : TextDocument)
  : outcome (list Diagnostic) :=
  forPatterns patterns errorOutput document [].

(** *** The matches of one pattern, declaratively *)

(** [successive ic r input from ms]: [ms] are the matches the loop sees
    for the pattern [r] (with ignore-case flag [ic]) when it starts with
    [lastIndex = from]: each is what [exec] returns from the end of the
    previous one, and after the last [exec] returns [null]. *)
Inductive successive (ic : bool) (r : node) (input : string)
  : nat -> list RegExp.result -> Prop :=
| successive_done from :
    fst (RegExp.exec (RegExp.mk r ic from) input) = None ->
    successive ic r input from []
| successive_next from m ms :
    fst (RegExp.exec (RegExp.mk r ic from) input) = Some m ->
    successive ic r input (stop m) ms ->
    successive ic r input from (m :: ms).

(** What the parser needs of a recognizer: a match is never empty, sets
    the three groups, and the first two are numbers. *)
Definition recognizer (p : RegExp.t) : bool :=
  Nat.ltb 0 (minLength (syntax p))
  && binds 1 (syntax p) && binds 2 (syntax p) && binds 3 (syntax p)
  && numeric 1 (syntax p) && numeric 2 (syntax p).

(** A diagnostic confined to one line of the document, with a range that
    is not empty unless nothing follows its start. *)
Definition confined (document : TextDocument) (d : Diagnostic) : Prop :=
  let r := range d in
  line (start r) = line (end_ r) /\
  0 <= line (start r) <= lineCount document - 1 /\
  exists lineText,
    lineAt document (line (start r)) = Returns lineText /\
    0 <= character (start r) <= character (end_ r) /\
    character (end_ r) <= len lineText /\
    (character (start r) < len lineText -> character (start r) + 1 <= character (end_ r)).

(** The loop body turns the match [m] into the diagnostic [d]. *)
Definition yields (document : TextDocument) (m : RegExp.result) (d : Diagnostic) : Prop :=
  diagnosticOfMatch document m = Returns d.

(** A match whose message is empty once trimmed. *)
Definition blankMessage (m : RegExp.result) : bool :=
  match trimGroup 3 m with
  | Returns EmptyString => true
  | _ => false
  end.

(** What the loop body does on a match of a recognizer: with a blank
    message it throws the error of the diagnostic's constructor,
    otherwise it yields a diagnostic. *)
Definition settles (document : TextDocument) (m : RegExp.result) : Prop :=
  (blankMessage m = true /\ diagnosticOfMatch document m = Raises MessageNotSet) \/
  (blankMessage m = false /\ exists d, diagnosticOfMatch document m = Returns d).

(** The loop body run on the matches [ms] one after the other, the
    diagnostics pushed after [diagnostics]; the first match on which it
    throws ends the whole. *)
Fixpoint eachMatch (document : TextDocument) (ms : list RegExp.result)
    (diagnostics : list Diagnostic) : outcome (list Diagnostic) :=
  match ms with
  | [] => Returns diagnostics
  | m :: ms' =>
      let* d := diagnosticOfMatch document m in
      eachMatch document ms' (diagnostics ++ [d])
  end.

(** The matches the loops of [parseCompilerErrors] see in [errorOutput],
    pattern by pattern. *)
Definition matchesOf (errorOutput : string) (mss : list (list RegExp.result)) : Prop :=
  Forall2 (fun p ms => successive (ignoreCase p) (syntax p) errorOutput 0 ms) patterns mss.

(** The same recognizer, whatever its [lastIndex]. *)
Definition samePattern (p q : RegExp.t) : Prop :=
  syntax p = syntax q /\ ignoreCase p = ignoreCase q.

End Parser.

(** ** Tool discovery *)
Module Discovery.
Import JsString.

(** How a child process ends. *)
Inductive ProcessExit : Type :=
| Exited (status : Z)   (* the process ran and exited with this status *)
| Killed                (* ended by a signal *)
| TimedOut              (* killed because the timeout expired *)
| SpawnFailed.          (* could not be started: ENOENT, EACCES, ... *)

(** What the code reads from its surroundings: Node's [path], [fs],
    [process] and [child_process] modules and the editor's workspace. *)
Record Environment : Type := mkEnvironment {
  join : list string -> string;             (* path.join(...) *)
  dirname : string -> string;               (* path.dirname *)
  isAbsolute : string -> bool;              (* path.isAbsolute *)
  sep : string;                             (* path.sep *)
  platform : string;                        (* process.platform *)
  existsSync : string -> bool;              (* fs.existsSync *)
  isFile : string -> option bool;           (* fs.statSync(p).isFile(), None: throws *)
  spawn : string -> Z -> ProcessExit;       (* a command line run under a timeout *)
  workspaceFolders : option (list string);  (* the folders' fsPath *)
  configuration : gmap string string        (* the settings under veyra.* *)
}.

Section WithEnvironment.
Variable env : Environment.

(** [execSync(command, { stdio: 'ignore', timeout })] returns when the
    command exits with status 0 and throws otherwise. *)
Definition execSync (command : string) (timeout : Z) : outcome unit :=
  match spawn env command timeout with
  | Exited 0 => Returns tt
  | _ => Raises CommandFailed
  end.

(** [try { body } catch (error) { handler }] *)
Definition tryCatch {A : Type} (body : outcome A) (handler : A) : A :=
  match body with
  | Returns a => a
  | Raises _ => handler
  end.

(** The command line [Q${executablePath}Q --help], Q the double quote. *)
Definition helpCommand (executablePath : string) : string :=
  String RegExp.doubleQuote executablePath +:+ String RegExp.doubleQuote " --help".

(** extension.ts, [isExecutableAvailable] *)
Definition isExecutableAvailable (executablePath : string) : bool :=
  tryCatch
    ((* Check if file exists first (for absolute paths) *)
     if isAbsolute env executablePath && negb (existsSync env executablePath)
     then Returns false
     else
       let* _ := execSync (helpCommand executablePath) 5000 in
       Returns true)
    false.

(** [config.get(key, '')] *)
Definition configGet (key : string) : string :=
  default EmptyString (configuration env !! key).

(** JavaScript truthiness of a string *)
Definition nonEmpty (s : string) : bool :=
  match s with
  | EmptyString => false
  | String _ _ => true
  end.

(** The ancestor loop of [findVeyraTool]:
    [for (let i = 0; i < n; i++) { push(release, debug); parentPath = dirname(parentPath) }] *)
Fixpoint parentCandidates (n : nat) (parentPath exe : string) : list string :=
  match n with
  | O => []
  | S n' =>
      (join env [parentPath; "tools"; "target"; "release"; exe]
       :: join env [parentPath; "tools"; "target"; "debug"; exe]
       :: parentCandidates n' (dirname env parentPath) exe)%list
  end.

(** What one workspace folder adds to [possiblePaths]. *)
Definition folderCandidates (exe workspacePath : string) : list string :=
  ([join env [workspacePath; "tools"; "target"; "release"; exe];
    join env [workspacePath; "tools"; "target"; "debug"; exe];
    join env [workspacePath; "target"; "release"; exe];
    join env [workspacePath; "target"; "debug"; exe]]
   ++ parentCandidates 3 (dirname env workspacePath) exe)%list.

(** [possiblePaths] of [findVeyraTool] when the test loop starts. *)
Definition possiblePaths (toolName : string) : list string :=
  let exe := toolName +:+ ".exe" in
  let paths :=
    ([toolName;  (* From PATH *)
      exe]       (* Windows from PATH *)
     ++ match workspaceFolders env with
        | Some folders => flat_map (folderCandidates exe) folders
        | None => []
        end)%list in
  (* Check configuration *)
  let configuredPath := configGet (toolName +:+ "Path") in
  if nonEmpty configuredPath then configuredPath :: paths (* unshift *) else paths.

(** extension.ts, [findVeyraTool]; [None] is [null]. *)
Definition findVeyraTool (toolName : string) : option string :=
  List.find isExecutableAvailable (possiblePaths toolName).

End WithEnvironment.
End Discovery.

(** ** toolManager.ts *)
Module ToolManager.
Import JsString Discovery.

Section WithEnvironment.
Variable env : Environment.

(** [fs.statSync(p).isFile()] *)
Definition statIsFile (p : string) : outcome bool :=
  match isFile env p with
  | Some b => Returns b
  | None => Raises NoSuchFile
  end.

(** [ToolManager.isExecutableAvailable] *)
Definition isExecutableAvailable (executablePath : string) : bool :=
  tryCatch
    ((* If it's just a name (no path), it might be in PATH *)
     if negb (isAbsolute env executablePath) && negb (includes executablePath (sep env))
     then Returns true (* Will be tested when actually run *)
     else
       if existsSync env executablePath then statIsFile executablePath
       else Returns false)
    false.

(** [searchPaths] of [ToolManager.findTool] when the search starts. *)
Definition searchPaths (toolName : string) : list string :=
  let execName := if String.eqb (platform env) "win32" then toolName +:+ ".exe" else toolName in
  (* 1. Check workspace tools/target/release *)
  (match workspaceFolders env with
  | Some (workspaceFolder :: _) =>
      [join env [workspaceFolder; "tools"; "target"; "release"; execName];
       join env [workspaceFolder; "tools"; "target"; "debug"; execName]]
  | _ => []
  end
  (* 2. Check configured path *)
  ++ match configuration env !! (toolName +:+ "Path") with
     | Some configuredPath => if nonEmpty configuredPath then [configuredPath] else []
     | None => []
     end
  (* 3. Check PATH environment *)
  ++ [toolName])%list.

(** [ToolManager.findTool] *)
Definition findTool (toolName : string) : option string :=
  List.find isExecutableAvailable (searchPaths toolName).

End WithEnvironment.
End ToolManager.

(** ** extension.ts: the compiler, the language server and the commands *)
Module Commands.
Import JsString Parser Discovery.

Section WithEnvironment.
Variable env : Environment.

(** The ancestor loop of [findVeyraCompiler]. *)
Fixpoint compilerParentCandidates (n : nat) (parentPath : string) : list string :=
  match n with
  | O => []
  | S n' =>
      join env [parentPath; "compiler"; "target"; "release"; "veyc.exe"]
      :: join env [parentPath; "compiler"; "target"; "debug"; "veyc.exe"]
      :: compilerParentCandidates n' (dirname env parentPath)
  end.

(** [possiblePaths] of [findVeyraCompiler] when the test loop starts. *)
Definition compilerPaths : list string :=
  ["veyc";      (* From PATH *)
   "veyc.exe"]  (* Windows from PATH *)
  ++ match workspaceFolders env with
     | Some folders =>
         flat_map (fun workspacePath =>
           [join env [workspacePath; "compiler"; "target"; "release"; "veyc.exe"];
            join env [workspacePath; "compiler"; "target"; "debug"; "veyc.exe"];
            join env [workspacePath; "target"; "release"; "veyc.exe"];
            join env [workspacePath; "target"; "debug"; "veyc.exe"]]
           ++ compilerParentCandidates 3 (dirname env workspacePath)) folders
     | None => []
     end.

Definition findVeyraCompiler : option string :=
  List.find (isExecutableAvailable env) compilerPaths.

(** The ancestor loop of [findVeyraLanguageServer]. *)
Fixpoint serverParentCandidates (n : nat) (parentPath : string) : list string :=
  match n with
  | O => []
  | S n' =>
      join env [parentPath; "tools"; "target"; "release"; "veyra-lsp.exe"]
      :: join env [parentPath; "tools"; "target"; "debug"; "veyra-lsp.exe"]
      :: join env [parentPath; "tools"; "lsp"; "target"; "release"; "veyra-lsp.exe"]
      :: join env [parentPath; "tools"; "lsp"; "target"; "debug"; "veyra-lsp.exe"]
      :: serverParentCandidates n' (dirname env parentPath)
  end.

(** [possiblePaths] of [findVeyraLanguageServer] when the test loop
    starts. *)
Definition serverPaths : list string :=
  ["veyra-lsp";      (* From PATH *)
   "veyra-lsp.exe"]  (* Windows from PATH *)
  ++ match workspaceFolders env with
     | Some folders =>
         flat_map (fun workspacePath =>
           [join env [workspacePath; "tools"; "target"; "release"; "veyra-lsp.exe"];
            join env [workspacePath; "tools"; "target"; "debug"; "veyra-lsp.exe"];
            join env [workspacePath; "tools"; "lsp"; "target"; "release"; "veyra-lsp.exe"];
            join env [workspacePath; "tools"; "lsp"; "target"; "debug"; "veyra-lsp.exe"];
            join env [workspacePath; "target"; "release"; "veyra-lsp.exe"];
            join env [workspacePath; "target"; "debug"; "veyra-lsp.exe"]]
           ++ serverParentCandidates 3 (dirname env workspacePath)) folders
     | None => []
     end.

Definition findVeyraLanguageServer : option string :=
  List.find (isExecutableAvailable env) serverPaths.

(** [configuredPath || find()]: the configured path when it is not
    empty, whatever [find] would give. *)
Definition orFind (configuredPath : string) (found : option string) : option string :=
  if nonEmpty configuredPath then Some configuredPath else found.

(** [if (!path || !isExecutableAvailable(path)) return;]: the path the
    code goes on with, [None] when it gives up. *)
Definition usable (candidate : option string) : option string :=
  match candidate with
  | Some p => if nonEmpty p && isExecutableAvailable env p then Some p else None
  | None => None
  end.

(** [startLanguageServer]: the command of the server the client is
    started with, [None] when the function returns without starting
    one. *)
Definition startLanguageServer : option string :=
  usable (orFind (configGet env "languageServerPath") findVeyraLanguageServer).

(** JavaScript truthiness of a [string | null]. *)
Definition truthy (o : option string) : bool :=
  match o with
  | Some p => nonEmpty p
  | None => false
  end.

(** What the user picks in the warning of [checkToolAvailability];
    [Dismissed] is [undefined]. *)
Inductive Selection : Type := BuildTools | ConfigurePath | ContinueAnyway | Dismissed.

(** The editor commands the extension executes. *)
Inductive EditorCommand : Type :=
| VeyraBuildTools                   (* 'veyra.buildTools' *)
| OpenSettings (setting : string).  (* 'workbench.action.openSettings' *)

(** [checkToolAvailability(toolName, friendlyName)], with the answer the
    user gives if the warning is shown: the value the promise resolves
    to and the commands executed on the way. *)
Definition checkToolAvailability (toolName : string) (selection : Selection)
  : option string * list EditorCommand :=
  let tool := findVeyraTool env toolName in
  if negb (truthy tool) then
    match selection with
    | BuildTools => (None, [VeyraBuildTools])
    | ConfigurePath => (None, [OpenSettings ("veyra." +:+ toolName +:+ "Path")])
    | _ => (tool, [])
    end
  else (tool, []).

(** [if (!tool) { return; } ... tool ...] *)
Definition withTool {A : Type} (tool : option string) (missing : A) (k : string -> A) : A :=
  match tool with
  | Some t => if nonEmpty t then k t else missing
  | None => missing
  end.

(** How a command handler ends: with an error message and nothing
    done, or with lines sent to a new terminal. *)
Inductive Outcome : Type :=
| NoEditor            (* no active editor *)
| NotVeyra            (* the active document is in another language *)
| NoWorkspace         (* no workspace folder open *)
| ToolMissing         (* the compiler or tool was not found *)
| Sent (lines : list string).

Definition quoted (s : string) : string :=
  String RegExp.doubleQuote s +:+ String RegExp.doubleQuote EmptyString.

(** The handler of 'veyra.run'; [activeEditor] is the document of
    [vscode.window.activeTextEditor], whose [fileName] is the [uri]
    here. *)
Definition runCommand (activeEditor : option TextDocument) : Outcome :=
  match activeEditor with
  | None => NoEditor
  | Some document =>
      if negb (String.eqb (languageId document) "veyra") then NotVeyra
      else
        let filePath := uri document in
        match usable (orFind (configGet env "compilerPath") findVeyraCompiler) with
        | None => ToolMissing
        | Some compiler => Sent [quoted compiler +:+ " " +:+ quoted filePath]
        end
  end.

(** The handler of 'veyra.format'. *)
Definition formatCommand (activeEditor : option TextDocument) (selection : Selection)
  : Outcome :=
  match activeEditor with
  | None => NoEditor
  | Some document =>
      if negb (String.eqb (languageId document) "veyra") then NotVeyra
      else
        let filePath := uri document in
        withTool (fst (checkToolAvailability "veyra-fmt" selection)) ToolMissing
          (fun fmtTool => Sent [quoted fmtTool +:+ " --write " +:+ quoted filePath])
  end.

(** The handler of 'veyra.lint'. *)
Definition lintCommand (activeEditor : option TextDocument) (selection : Selection)
  : Outcome :=
  match activeEditor with
  | None => NoEditor
  | Some document =>
      if negb (String.eqb (languageId document) "veyra") then NotVeyra
      else
        let filePath := uri document in
        withTool (fst (checkToolAvailability "veyra-lint" selection)) ToolMissing
          (fun lintTool => Sent [quoted lintTool +:+ " --warnings " +:+ quoted filePath])
  end.

(** The handler of 'veyra.build'. *)
Definition buildCommand (selection : Selection) : Outcome :=
  match workspaceFolders env with
  | Some (workspaceFolder :: _) =>
      withTool (fst (checkToolAvailability "veyra-pkg" selection)) ToolMissing
        (fun pkgTool => Sent ["cd " +:+ quoted workspaceFolder; quoted pkgTool +:+ " build"])
  | _ => NoWorkspace
  end.

End WithEnvironment.

(** [validateInput] of the project-name box of 'veyra.newProject':
    [None] when the name is accepted, otherwise which message is shown.
    The test [/^[a-zA-Z0-9_-]+$/] holds of a text that is not empty
    and has only such characters. *)
Inductive NameProblem : Type := NameEmpty | NameCharacters.

Definition isNameChar (c : ascii) : bool :=
  between 97 122 c || between 65 90 c || between 48 57 c
  || Nat.eqb (code c) 95 || Nat.eqb (code c) 45.

Fixpoint allNameChars (s : string) : bool :=
  match s with
  | EmptyString => true
  | String c s' => isNameChar c && allNameChars s'
  end.

Definition validateInput (value : string) : option NameProblem :=
  if negb (nonEmpty value) then Some NameEmpty
  else if negb (nonEmpty value && allNameChars value) then Some NameCharacters
  else None.

(** The environment with other settings. *)
Definition withConfiguration (configuration' : gmap string string) (env : Environment)
  : Environment :=
  {| join := join env; dirname := dirname env; isAbsolute := isAbsolute env;
     sep := sep env; platform := platform env; existsSync := existsSync env;
     isFile := isFile env; spawn := spawn env; workspaceFolders := workspaceFolders env;
     configuration := configuration' |}.

End Commands.

(** ** toolManager.ts: the report on the tools and their build *)
Module ToolStatus.
Import JsString Discovery.

Record ToolInfo : Type := mkToolInfo {
  name : string;
  executableName : string;
  description : string;
  found : bool;
  path : option string   (* [None] is [undefined] *)
}.

(** The three tools [getAllToolsInfo] asks about: name, executable
    name, description. *)
Definition tools : list (string * string * string) :=
  [("Formatter", "veyra-fmt", "Code formatter");
   ("Linter", "veyra-lint", "Static analyzer");
   ("Package Manager", "veyra-pkg", "Project manager")].

(** How a call of [ToolManager.buildTools] ends; it returns true in the
    last case only. *)
Inductive BuildReport : Type :=
| NoWorkspaceFolder                   (* 'No workspace folder open' *)
| NoToolsDirectory                    (* 'Tools directory not found. ...' *)
| NoCargo                             (* 'Cargo not found. ...' *)
| BuildFailed                         (* 'Failed to build Veyra tools. ...' *)
| StillMissing (missing : list ToolInfo)  (* 'Some tools were not built successfully. ...' *)
| Built (builtTools : list ToolInfo).     (* 'Veyra tools built successfully!' *)

Definition returned (r : BuildReport) : bool :=
  match r with
  | Built _ => true
  | _ => false
  end.

(** [await execAsync(command)] returns when the process exits with
    status 0 and throws otherwise. *)
Definition execAsync (exit : ProcessExit) : outcome unit :=
  match exit with
  | Exited 0 => Returns tt
  | _ => Raises CommandFailed
  end.

Section WithEnvironment.
Variable env : Environment.

(** [ToolManager.getAllToolsInfo] *)
Definition getAllToolsInfo : list ToolInfo :=
  map (fun tool =>
         let '(name, executableName, description) := tool in
         let toolPath := ToolManager.findTool env executableName in
         {| name := name; executableName := executableName; description := description;
            found := match toolPath with Some _ => true | None => false end;
            path := match toolPath with
                    | Some p => if nonEmpty p then Some p else None
                    | None => None
                    end |})
      tools.

(** [tools.filter(t => !t.found)] *)
Definition missingTools (infos : list ToolInfo) : list ToolInfo :=
  List.filter (fun t => negb (found t)) infos.

(** [ToolManager.checkToolsAvailability]: the value the promise resolves
    to and the lines appended to the output channel. *)
Definition checkToolsAvailability : bool * list string :=
  let missing := missingTools getAllToolsInfo in
  if (0 <? List.length missing)%nat then
    (false,
     ["[Warning] Some Veyra tools are not available:"]
     ++ map (fun tool => "  - " +:+ name tool +:+ " (" +:+ executableName tool +:+ ")") missing
     ++ [EmptyString;
         "To build the tools, run: cargo build --release in the tools directory"])
  else (true, []).

End WithEnvironment.

(** [ToolManager.buildTools].  [env] is what the function finds when it
    is called, [built] what it finds when it verifies the build;
    [cargoVersion] and [cargoBuild] are how the two processes it awaits
    end. *)
Definition buildTools (env : Environment) (cargoVersion cargoBuild : ProcessExit)
    (built : Environment) : BuildReport :=
  match workspaceFolders env with
  | Some (workspaceFolder :: _) =>
      let toolsPath := join env [workspaceFolder; "tools"] in
      if negb (existsSync env toolsPath) then NoToolsDirectory
      else
        tryCatch
          ((* Check if cargo is available *)
           match execAsync cargoVersion with
           | Raises _ => Returns NoCargo
           | Returns _ =>
               (* Build in release mode *)
               let* _ := execAsync cargoBuild in
               (* Verify the tools were built *)
               let builtTools := getAllToolsInfo built in
               let stillMissing := missingTools builtTools in
               if Nat.eqb (List.length stillMissing) 0 then Returns (Built builtTools)
               else Returns (StillMissing stillMissing)
           end)
          BuildFailed
  | _ => NoWorkspaceFolder
  end.

End ToolStatus.

(** ** extension.ts: the status bar *)
Module StatusBar.
Import JsString Parser.

(** [vscode.DiagnosticSeverity]; the diagnostics of a document come from
    every extension, with any severity. *)
Inductive Severity : Type := SeverityError | SeverityWarning | SeverityInformation | SeverityHint.

Definition isError (d : Severity) : bool :=
  match d with SeverityError => true | _ => false end.

Definition isWarning (d : Severity) : bool :=
  match d with SeverityWarning => true | _ => false end.

(** The two theme colours the code uses. *)
Inductive ThemeColor : Type :=
| ErrorBackground     (* 'statusBarItem.errorBackground' *)
| WarningBackground.  (* 'statusBarItem.warningBackground' *)

(** [statusBarItem] and [errorStatusBarItem]. *)
Record Items : Type := mkItems {
  mainText : string;
  mainShown : bool;
  errorText : string;
  errorBackground : ThemeColor;
  errorShown : bool
}.

(** A number in a template literal. *)
Definition decimal (n : nat) : string := NilEmpty.string_of_uint (Nat.to_uint n).

Section WithBasename.
Variable basename : string -> string.   (* path.basename *)

(** [updateStatusBar(document)]; [diagnostics] is what
    [vscode.languages.getDiagnostics(document.uri)] returns. *)
Definition updateStatusBar (document : option TextDocument) (diagnostics : list Severity)
    (bar : Items) : Items :=
  let hidden :=
    {| mainText := mainText bar; mainShown := false;
       errorText := errorText bar; errorBackground := errorBackground bar;
       errorShown := false |} in
  match document with
  | None => hidden
  | Some document =>
      if negb (String.eqb (languageId document) "veyra") then hidden
      else
        (* Update main status *)
        let fileName := basename (uri document) in
        let text := "$(file-code) Veyra: " +:+ fileName in
        (* Update error status *)
        if (0 <? List.length diagnostics)%nat then
          let errors := List.length (List.filter isError diagnostics) in
          let warnings := List.length (List.filter isWarning diagnostics) in
          if (0 <? errors)%nat then
            {| mainText := text; mainShown := true;
               errorText := "$(error) " +:+ decimal errors +:+ " $(warning) " +:+ decimal warnings;
               errorBackground := errorBackground bar;
               errorShown := true |}
          else if (0 <? warnings)%nat then
            {| mainText := text; mainShown := true;
               errorText := "$(warning) " +:+ decimal warnings;
               errorBackground := WarningBackground;
               errorShown := true |}
          else
            {| mainText := text; mainShown := true;
               errorText := errorText bar; errorBackground := errorBackground bar;
               errorShown := false |}
        else
          {| mainText := text; mainShown := true;
             errorText := errorText bar; errorBackground := errorBackground bar;
             errorShown := false |}
  end.

(** [initializeStatusBar]: the items as created, then the initial
    update when the active editor shows a Veyra document. *)
Definition created : Items :=
  {| mainText := EmptyString; mainShown := true;
     errorText := EmptyString; errorBackground := ErrorBackground; errorShown := false |}.

Definition initializeStatusBar (activeEditor : option TextDocument) (diagnostics : list Severity)
  : Items :=
  match activeEditor with
  | Some document =>
      if String.eqb (languageId document) "veyra"
      then updateStatusBar (Some document) diagnostics created
      else created
  | None => created
  end.

(** The updates of the status bar one after the other, each with the
    document it is called with and the diagnostics that document has. *)
Definition updates (calls : list (option TextDocument * list Severity)) (bar : Items) : Items :=
  fold_left (fun bar call => updateStatusBar (fst call) (snd call) bar) calls bar.

End WithBasename.

End StatusBar.

(** ** Validation scheduling *)
Module Scheduler.
Import JsString Parser.

(** What [execAsync] (the promisified [exec]) settles with.  The promise
    is fulfilled when the process exits with status 0 and rejected
    otherwise; the rejection carries the captured output and a message. *)
Record ExecResult : Type := mkExecResult {
  exit : Discovery.ProcessExit;
  stdout : string;
  stderr : string;
  errorMessage : string   (* error.message, as Node composes it *)
}.

Definition fulfilled (r : ExecResult) : bool :=
  match exit r with
  | Discovery.Exited 0 => true
  | _ => false
  end.

(** [a || b] on strings: the first operand unless it is empty *)
Definition orElse (a b : string) : string :=
  match a with
  | EmptyString => b
  | String _ _ => a
  end.

(** A timer armed by [setTimeout]: its callback is
    [() => validateDocument(event.document)]. *)
Record Timer : Type := mkTimer {
  timerId : nat;
  due : Z;
  target : TextDocument
}.

(** A child process started by [validateDocument] and not yet settled. *)
Record Run : Type := mkRun {
  runId : nat;
  document : TextDocument
}.

(** The state of the extension and of the event loop around it.
    [timeoutId] is the single variable declared in [setupDiagnostics];
    [spawned] counts the calls of [execAsync]. *)
Record State : Type := mkState {
  compilerPath : option string;
  diagnosticCollection : gmap string (list Diagnostic);
  timeoutId : option nat;
  timers : list Timer;
  nextTimer : nat;
  running : list Run;
  spawned : nat;
  clock : Z
}.

Definition setDiagnostics (f : gmap string (list Diagnostic) -> gmap string (list Diagnostic))
    (s : State) : State :=
  {| compilerPath := compilerPath s;
     diagnosticCollection := f (diagnosticCollection s);
     timeoutId := timeoutId s; timers := timers s; nextTimer := nextTimer s;
     running := running s; spawned := spawned s; clock := clock s |}.

(** [if (!compilerPath)]: [null] and the empty string are falsy. *)
Definition hasCompiler (s : State) : bool :=
  match compilerPath s with
  | Some p => Discovery.nonEmpty p
  | None => false
  end.

(** [validateDocument] up to its [await]: without a compiler the
    diagnostics are cleared, otherwise a process is started. *)
Definition validateDocument (doc : TextDocument) (s : State) : State :=
  if negb (hasCompiler s) then
    (* If no compiler found, clear diagnostics *)
    setDiagnostics (delete (uri doc)) s
  else
    {| compilerPath := compilerPath s;
       diagnosticCollection := diagnosticCollection s;
       timeoutId := timeoutId s; timers := timers s; nextTimer := nextTimer s;
       running := running s ++ [mkRun (spawned s) doc];
       spawned := S (spawned s); clock := clock s |}.

(** [validateDocument] after its [await], for the process of [doc]
    settling with [r]; [view] is the document as the editor holds it at
    that moment (the same object, possibly edited since). *)
Definition validateDocument_resume (doc view : TextDocument) (r : ExecResult) (s : State)
  : State :=
  if fulfilled r then
    (* If successful, clear diagnostics *)
    setDiagnostics (delete (uri doc)) s
  else
    (* Parse error output *)
    match parseCompilerErrors (orElse (stderr r) (orElse (stdout r) (errorMessage r))) view with
    | Returns diagnostics => setDiagnostics (insert (uri doc) diagnostics) s
    | Raises _ => s   (* the exception leaves the handler: nothing is published *)
    end.

Definition isVeyra (doc : TextDocument) : bool := String.eqb (languageId doc) "veyra".

Definition clearTimeout (id : nat) (s : State) : State :=
  {| compilerPath := compilerPath s;
     diagnosticCollection := diagnosticCollection s;
     timeoutId := timeoutId s;
     timers := filter (fun t => timerId t <> id) (timers s);
     nextTimer := nextTimer s;
     running := running s; spawned := spawned s; clock := clock s |}.

(** [timeoutId = setTimeout(() => validateDocument(doc), delay)] *)
Definition setTimeout (doc : TextDocument) (delay : Z) (s : State) : State :=
  {| compilerPath := compilerPath s;
     diagnosticCollection := diagnosticCollection s;
     timeoutId := Some (nextTimer s);
     timers := timers s ++ [mkTimer (nextTimer s) (clock s + delay) doc];
     nextTimer := S (nextTimer s);
     running := running s; spawned := spawned s; clock := clock s |}.

(** Validate on open *)
Definition onDidOpenTextDocument (doc : TextDocument) (s : State) : State :=
  if isVeyra doc then validateDocument doc s else s.

(** Validate on change (with debounce) *)
Definition onDidChangeTextDocument (doc : TextDocument) (s : State) : State :=
  if isVeyra doc then
    let s1 := match timeoutId s with
              | Some id => clearTimeout id s
              | None => s
              end in
    setTimeout doc 500 s1
  else s.

(** Validate on save *)
Definition onDidSaveTextDocument (doc : TextDocument) (s : State) : State :=
  if isVeyra doc then validateDocument doc s else s.

(** Clear diagnostics on close *)
Definition onDidCloseTextDocument (doc : TextDocument) (s : State) : State :=
  if isVeyra doc then setDiagnostics (delete (uri doc)) s else s.

(** The settling of the process [id]: its continuation runs and the
    process leaves the table; an id that is not running does nothing. *)
Definition onSettled (id : nat) (r : ExecResult) (view : TextDocument) (s : State) : State :=
  match List.find (fun p => Nat.eqb (runId p) id) (running s) with
  | Some p =>
      let s1 := validateDocument_resume (document p) view r s in
      {| compilerPath := compilerPath s1;
         diagnosticCollection := diagnosticCollection s1;
         timeoutId := timeoutId s1; timers := timers s1; nextTimer := nextTimer s1;
         running := filter (fun q => runId q <> id) (running s1);
         spawned := spawned s1; clock := clock s1 |}
  | None => s
  end.

(** What reaches the extension from outside. *)
Inductive Event : Type :=
| DidOpen (doc : TextDocument)
| DidChange (doc : TextDocument)
| DidSave (doc : TextDocument)
| DidClose (doc : TextDocument)
| Settled (id : nat) (r : ExecResult) (view : TextDocument).

Definition dispatch (e : Event) (s : State) : State :=
  match e with
  | DidOpen doc => onDidOpenTextDocument doc s
  | DidChange doc => onDidChangeTextDocument doc s
  | DidSave doc => onDidSaveTextDocument doc s
  | DidClose doc => onDidCloseTextDocument doc s
  | Settled id r view => onSettled id r view s
  end.

(** The callbacks of the timers in [ts], in the order they were armed. *)
Fixpoint fire (ts : list Timer) (s : State) : State :=
  match ts with
  | [] => s
  | t :: ts' => fire ts' (validateDocument (target t) s)
  end.

(** Time passes until [now]: the timers due by then run and leave the
    event loop, the clock moves on. *)
Definition elapse (now : Z) (s : State) : State :=
  let s1 := fire (filter (fun t => due t <= now) (timers s)) s in
  {| compilerPath := compilerPath s1;
     diagnosticCollection := diagnosticCollection s1;
     timeoutId := timeoutId s1;
     timers := filter (fun t => now < due t) (timers s);
     nextTimer := nextTimer s1;
     running := running s1; spawned := spawned s1;
     clock := Z.max (clock s) now |}.

(** An event with the time, in milliseconds, at which it is delivered. *)
Definition step (te : Z * Event) (s : State) : State :=
  dispatch (snd te) (elapse (fst te) s).

Definition run (trace : list (Z * Event)) (s : State) : State :=
  fold_left (fun s te => step te s) trace s.

(** The state in which [activate] calls [setupDiagnostics]: the compiler
    looked up, no diagnostics, no timer, no process. *)
Definition initial (compiler : option string) : State :=
  {| compilerPath := compiler; diagnosticCollection := ∅; timeoutId := None;
     timers := []; nextTimer := 0; running := []; spawned := 0; clock := 0 |}.

(** [setupDiagnostics], once the handlers above are registered:
    validate all open Veyra files. *)
Definition setupDiagnostics (textDocuments : list TextDocument) (s : State) : State :=
  fold_left (fun s doc => if isVeyra doc then validateDocument doc s else s) textDocuments s.

(** The state after [activate] with the documents open at that time. *)
Definition activated (compiler : option string) (textDocuments : list TextDocument) : State :=
  setupDiagnostics textDocuments (initial compiler).

(** At most one timer is armed, and it is the one [timeoutId] refers
    to: the debounce never has two timers pending. *)
Definition tracked (s : State) : Prop :=
  (List.length (timers s) <= 1)%nat /\
  forall t, t ∈ timers s -> timeoutId s = Some (timerId t).

(** The text that the [catch] block of [validateDocument] parses:
    [error.stderr || error.stdout || error.message]. *)
Definition errorText (r : ExecResult) : string :=
  orElse (stderr r) (orElse (stdout r) (errorMessage r)).

(** What a settled process leaves as the diagnostics of its document,
    which had [previous]: nothing after a clean exit; otherwise what the
    parser makes of the error output, and when the parser throws, what
    was there before, since the exception leaves the handler before
    [diagnosticCollection.set]. *)
Definition published (r : ExecResult) (view : TextDocument)
    (previous : option (list Diagnostic)) : option (list Diagnostic) :=
  if fulfilled r then None
  else
    match parseCompilerErrors (errorText r) view with
    | Returns diagnostics => Some diagnostics
    | Raises _ => previous
    end.

End Scheduler.

(** ** Notions used to state further properties of the parser *)
Module ParserNotions.
Import JsString Parser.

(** The first character of [s] is white space. *)
Definition startsBlank (s : string) : bool :=
  match s with
  | String c _ => isSpace c
  | EmptyString => false
  end.

(** The last character of [s] is white space. *)
Definition endsBlank (s : string) : bool := startsBlank (rev_string s EmptyString).

(** [s] contains a decimal digit. *)
Fixpoint hasDigit (s : string) : bool :=
  match s with
  | String c s' => isDigit c || hasDigit s'
  | EmptyString => false
  end.

(** The character of [line] at index [i] exists and satisfies [cls]. *)
Definition charIs (cls : ascii -> bool) (line : string) (i : Z) : Prop :=
  exists c, at_ line i = Some c /\ cls c = true.

End ParserNotions.

(** ** Notions used to state further properties of the scheduling *)
Module SchedulerNotions.
Import Parser Scheduler.

(** The times [prev], then [times], are in non-decreasing order. *)
Fixpoint inOrder (prev : Z) (times : list Z) : Prop :=
  match times with
  | [] => True
  | t :: ts => prev <= t /\ inOrder t ts
  end.

(** The number of groups into which the times [prev :: times] fall when
    a time 500 ms or more after the previous one starts a new group. *)
Fixpoint groupsFrom (prev : Z) (times : list Z) : nat :=
  match times with
  | [] => 1
  | t :: ts => (if prev + 500 <=? t then 1 else 0) + groupsFrom t ts
  end.

Definition bursts (times : list Z) : nat :=
  match times with
  | [] => 0
  | t :: ts => groupsFrom t ts
  end.

(** The change events of the documents [changes], each with its time. *)
Definition changeTrace (changes : list (Z * TextDocument)) : list (Z * Event) :=
  map (fun td => (fst td, DidChange (snd td))) changes.

(** An open or a save of a Veyra document: the events whose handlers
    call [validateDocument] directly. *)
Definition validatesAtOnce (e : Event) : bool :=
  match e with
  | DidOpen doc | DidSave doc => isVeyra doc
  | _ => false
  end.

End SchedulerNotions.

(** ** Notions used to state further properties of the commands *)
Module CommandNotions.
Import JsString Parser Discovery.

(** A name to be looked up on the PATH: not absolute, no separator. *)
Definition bareName (env : Environment) (name : string) : Prop :=
  isAbsolute env name = false /\ includes name (sep env) = false.

(** The characters of a text. *)
Fixpoint characters (s : string) : list ascii :=
  match s with
  | EmptyString => []
  | String c s' => c :: characters s'
  end.

(** A letter of the English alphabet or a decimal digit. *)
Definition alphanumeric (c : ascii) : Prop :=
  (97 <= code c <= 122)%nat \/ (65 <= code c <= 90)%nat \/ (48 <= code c <= 57)%nat.

(** A call of [updateStatusBar] for a Veyra document whose diagnostics
    hold a warning and no error. *)
Definition warningsOnly (call : option TextDocument * list StatusBar.Severity) : Prop :=
  (exists document, fst call = Some document /\ languageId document = "veyra") /\
  In StatusBar.SeverityWarning (snd call) /\ ~ In StatusBar.SeverityError (snd call).

End CommandNotions.

(** ** Sample inputs *)
Module Examples.
Import Parser.

(** The lexer's report of a stray ampersand. *)
Definition lexerMessage : string :=
  "Lexer error at line 5, column 3: Unexpected character '&'".

(** Ten lines of source text; the fifth holds the ampersand. *)
Definition tenLines : TextDocument :=
  {| uri := "/work/main.vey"; languageId := "veyra";
     firstLine := "fn main() {";
     moreLines := ["let a = 1;"; "let b = 2;"; "let c = 3;"; "a & b;";
                   "print(a);"; "print(b);"; "print(c);"; "return;"; "}"] |}.

(** Ten empty lines. *)
Definition tenBlankLines : TextDocument :=
  {| uri := "/work/blank.vey"; languageId := "veyra";
     firstLine := EmptyString;
     moreLines := repeat EmptyString 9 |}.

(** The diagnostic the report stands for in [tenLines]. *)
Definition ampersand : Diagnostic :=
  {| range := mkRange (mkPosition 4 2) (mkPosition 4 3);
     message := "Unexpected character '&'";
     severity := Error; source := "veyra" |}.

(** A report of a position past the end of a ten-line document. *)
Definition farMessage : string := "error: line 42, column 7: unexpected end".

(** A report whose message is a single blank, with the line feed that
    ends it. *)
Definition blankReport : string :=
  "error: line 1, column 1: " +:+ String (ascii_of_nat 10) EmptyString.

(** A POSIX machine: [path.join] puts "/" between the segments and
    normalizes the result, which for the segments used here (absolute
    folders and plain names, no "." or "..") means that a run of
    slashes becomes one; [path.dirname] is the text before the last
    "/". *)
Fixpoint collapseSlashes (s : string) : string :=
  match s with
  | String a s' =>
      match s' with
      | String b _ =>
          if Ascii.eqb a "/"%char && Ascii.eqb b "/"%char then collapseSlashes s'
          else String a (collapseSlashes s')
      | EmptyString => s
      end
  | EmptyString => EmptyString
  end.

Definition posixJoin (segments : list string) : string :=
  collapseSlashes (String.concat "/" segments).

Fixpoint beforeLastSlash (s : string) : option string :=
  match s with
  | EmptyString => None
  | String c s' =>
      match beforeLastSlash s' with
      | Some d => Some (String c d)
      | None => if Ascii.eqb c "/"%char then Some EmptyString else None
      end
  end.

Definition posixDirname (p : string) : string :=
  match beforeLastSlash p with
  | Some EmptyString => "/"
  | Some d => d
  | None => "."
  end.

Definition posixIsAbsolute (p : string) : bool := JsString.startsWith "/" p.

Definition workspaceFormatter : string := "/work/tools/target/release/veyra-fmt".
Definition configuredFormatter : string := "/opt/veyra/bin/veyra-fmt".

(** A workspace in /work with a built formatter, and a formatter
    installed elsewhere that the settings point to; both run. *)
Definition builtAndConfigured : Discovery.Environment :=
  {| Discovery.join := posixJoin;
     Discovery.dirname := posixDirname;
     Discovery.isAbsolute := posixIsAbsolute;
     Discovery.sep := "/";
     Discovery.platform := "linux";
     Discovery.existsSync := fun p =>
       String.eqb p workspaceFormatter || String.eqb p configuredFormatter;
     Discovery.isFile := fun p =>
       if String.eqb p workspaceFormatter || String.eqb p configuredFormatter
       then Some true else None;
     Discovery.spawn := fun command _ =>
       if String.eqb command (Discovery.helpCommand workspaceFormatter)
          || String.eqb command (Discovery.helpCommand configuredFormatter)
       then Discovery.Exited 0 else Discovery.Exited 127;
     Discovery.workspaceFolders := Some ["/work"];
     Discovery.configuration := {[ "veyra-fmtPath" := configuredFormatter ]} |}.

(** A machine whose linter is on the PATH and answers [--help] with
    exit status 1; no workspace, no settings. *)
Definition helpExitsOne : Discovery.Environment :=
  {| Discovery.join := posixJoin;
     Discovery.dirname := posixDirname;
     Discovery.isAbsolute := posixIsAbsolute;
     Discovery.sep := "/";
     Discovery.platform := "linux";
     Discovery.existsSync := fun _ => false;
     Discovery.isFile := fun _ => None;
     Discovery.spawn := fun command _ =>
       if String.eqb command (Discovery.helpCommand "veyra-lint")
       then Discovery.Exited 1 else Discovery.SpawnFailed;
     Discovery.workspaceFolders := None;
     Discovery.configuration := ∅ |}.

(** The compiler exits with status 0 although it printed the lexer
    report on stderr. *)
Definition cleanExitWithReport : Scheduler.ExecResult :=
  {| Scheduler.exit := Discovery.Exited 0;
     Scheduler.stdout := EmptyString;
     Scheduler.stderr := lexerMessage;
     Scheduler.errorMessage := EmptyString |}.

(** The compiler fails with the lexer report on stderr. *)
Definition failureWithReport : Scheduler.ExecResult :=
  {| Scheduler.exit := Discovery.Exited 1;
     Scheduler.stdout := EmptyString;
     Scheduler.stderr := lexerMessage;
     Scheduler.errorMessage := "Command failed" |}.

(** The compiler fails with the report of line 42 on stderr. *)
Definition failureFar : Scheduler.ExecResult :=
  {| Scheduler.exit := Discovery.Exited 1;
     Scheduler.stdout := EmptyString;
     Scheduler.stderr := farMessage;
     Scheduler.errorMessage := "Command failed" |}.

(** The compiler fails with the blank report on stderr. *)
Definition failureBlank : Scheduler.ExecResult :=
  {| Scheduler.exit := Discovery.Exited 1;
     Scheduler.stdout := EmptyString;
     Scheduler.stderr := blankReport;
     Scheduler.errorMessage := "Command failed" |}.

Definition farDiagnostic : Diagnostic :=
  {| range := mkRange (mkPosition 9 0) (mkPosition 9 1);
     message := "unexpected end"; severity := Error; source := "veyra" |}.

(** The extension activated with a compiler found on the PATH. *)
Definition ready : Scheduler.State := Scheduler.initial (Some "veyc").

End Examples.

(** ** Sample machines for the commands *)
Module CommandExamples.
Import Examples.

(** The settings name a compiler and a language server that are not
    there any more; both programs are on the PATH.  No workspace. *)
Definition staleSettings : Discovery.Environment :=
  {| Discovery.join := posixJoin;
     Discovery.dirname := posixDirname;
     Discovery.isAbsolute := posixIsAbsolute;
     Discovery.sep := "/";
     Discovery.platform := "linux";
     Discovery.existsSync := fun _ => false;
     Discovery.isFile := fun _ => None;
     Discovery.spawn := fun command _ =>
       if String.eqb command (Discovery.helpCommand "veyc")
          || String.eqb command (Discovery.helpCommand "veyra-lsp")
       then Discovery.Exited 0 else Discovery.SpawnFailed;
     Discovery.workspaceFolders := None;
     Discovery.configuration :=
       {[ "compilerPath" := "/old/veyc"; "languageServerPath" := "/old/veyra-lsp" ]} |}.

(** The formatter is on the PATH; the settings point to a formatter
    that is not there any more. *)
Definition staleFormatter : Discovery.Environment :=
  {| Discovery.join := posixJoin;
     Discovery.dirname := posixDirname;
     Discovery.isAbsolute := posixIsAbsolute;
     Discovery.sep := "/";
     Discovery.platform := "linux";
     Discovery.existsSync := fun _ => false;
     Discovery.isFile := fun _ => None;
     Discovery.spawn := fun command _ =>
       if String.eqb command (Discovery.helpCommand "veyra-fmt")
       then Discovery.Exited 0 else Discovery.SpawnFailed;
     Discovery.workspaceFolders := Some ["/work"];
     Discovery.configuration := {[ "veyra-fmtPath" := "/old/veyra-fmt" ]} |}.

(** A compiler is on the PATH and the settings name another one,
    installed in /opt; both run. *)
Definition twoCompilers : Discovery.Environment :=
  {| Discovery.join := posixJoin;
     Discovery.dirname := posixDirname;
     Discovery.isAbsolute := posixIsAbsolute;
     Discovery.sep := "/";
     Discovery.platform := "linux";
     Discovery.existsSync := fun p => String.eqb p "/opt/veyra/bin/veyc";
     Discovery.isFile := fun p =>
       if String.eqb p "/opt/veyra/bin/veyc" then Some true else None;
     Discovery.spawn := fun command _ =>
       if String.eqb command (Discovery.helpCommand "veyc")
          || String.eqb command (Discovery.helpCommand "/opt/veyra/bin/veyc")
       then Discovery.Exited 0 else Discovery.SpawnFailed;
     Discovery.workspaceFolders := None;
     Discovery.configuration := {[ "compilerPath" := "/opt/veyra/bin/veyc" ]} |}.

(** A workspace in /work with a tools directory and nothing built. *)
Definition nothingBuilt : Discovery.Environment :=
  {| Discovery.join := posixJoin;
     Discovery.dirname := posixDirname;
     Discovery.isAbsolute := posixIsAbsolute;
     Discovery.sep := "/";
     Discovery.platform := "linux";
     Discovery.existsSync := fun p => String.eqb p "/work/tools";
     Discovery.isFile := fun p => if String.eqb p "/work/tools" then Some false else None;
     Discovery.spawn := fun _ _ => Discovery.SpawnFailed;
     Discovery.workspaceFolders := Some ["/work"];
     Discovery.configuration := ∅ |}.

End CommandExamples.

(** * Properties *)

(** ** Regular expressions *)
Module RegExpFacts.
Import JsString RegExp.
Local Open Scope nat_scope.

Lemma literal_length ic p : forall s s',
  literal ic p s = Some s' -> String.length s = String.length p + String.length s'.
Proof.
  induction p as [|a p IH]; intros s s' H; simpl in *.
  - now inversion H.
  - destruct s as [|b s]; [discriminate|].
    destruct (sameChar ic a b); [|discriminate].
    simpl. now rewrite (IH _ _ H).
Qed.

Lemma spans_length cs : forall s k s',
  In s' (skipn k (spans cs s)) -> String.length s' + k <= String.length s.
Proof.
  induction s as [|c s IH]; intros k s' H.
  - destruct k as [|k]; simpl in H.
    + destruct H as [<-|[]]. simpl. lia.
    + destruct k; simpl in H; contradiction.
  - destruct k as [|k].
    + simpl in H. destruct H as [<-|H]; [lia|].
      destruct (inSet cs c); [|contradiction].
      specialize (IH 0 s' H). simpl. lia.
    + simpl in H. destruct (inSet cs c).
      * specialize (IH k s' H). simpl. lia.
      * destruct k; simpl in H; contradiction.
Qed.

(** After at least one repetition the input began with a character of
    the class. *)
Lemma spans_head cs s k s' :
  In s' (skipn (S k) (spans cs s)) ->
  exists c s0, s = String c s0 /\ inSet cs c = true /\ String.length s' <= String.length s0.
Proof.
  destruct s as [|c s]; simpl.
  - destruct k; simpl; contradiction.
  - destruct (inSet cs c) eqn:E.
    + intros H. exists c, s. repeat split; auto.
      pose proof (spans_length cs s k s' H). lia.
    + destruct k; simpl; contradiction.
Qed.

Lemma run_length ic r : forall s caps s' caps',
  In (s', caps') (run ic r s caps) -> String.length s' + minLength r <= String.length s.
Proof.
  induction r as [p|a IHa b IHb|a IHa b IHb|least greedy cs|i a IHa|];
    intros s caps s' caps' H; simpl in *.
  - destruct (literal ic p s) as [s1|] eqn:E; [|contradiction].
    destruct H as [H|[]]. inversion H; subst.
    rewrite (literal_length _ _ _ _ E). lia.
  - apply in_flat_map in H. destruct H as [[s1 caps1] [H1 H2]].
    specialize (IHa _ _ _ _ H1). specialize (IHb _ _ _ _ H2). lia.
  - apply in_app_iff in H. destruct H as [H|H].
    + specialize (IHa _ _ _ _ H). lia.
    + specialize (IHb _ _ _ _ H). lia.
  - apply in_map_iff in H. destruct H as [s1 [H1 H2]]. inversion H1; subst.
    apply (spans_length cs). destruct greedy; [now apply in_rev in H2|assumption].
  - apply in_map_iff in H. destruct H as [[s1 caps1] [H1 H2]]. inversion H1; subst.
    eapply IHa; eauto.
  - destruct s; [|contradiction]. destruct H as [H|[]]. inversion H; subst. simpl; lia.
Qed.

Lemma capture_In i caps s : capture i caps = Some s -> In (i, s) caps.
Proof.
  induction caps as [|[j t] caps IH]; simpl; [discriminate|].
  destruct (Nat.eqb i j) eqn:E.
  - intros H. inversion H; subst. apply Nat.eqb_eq in E. subst. now left.
  - intros H. right. auto.
Qed.

(** A group bound before the match stays bound, and a group the pattern
    binds is bound after it. *)
Lemma run_binds ic i r : forall s caps s' caps',
  In (s', caps') (run ic r s caps) ->
  binds i r = true \/ is_Some (capture i caps) -> is_Some (capture i caps').
Proof.
  induction r as [p|a IHa b IHb|a IHa b IHb|least greedy cs|j a IHa|];
    intros s caps s' caps' H Hb; simpl in *.
  - destruct (literal ic p s); [|contradiction]. destruct H as [H|[]].
    inversion H; subst. destruct Hb; [discriminate|assumption].
  - apply in_flat_map in H. destruct H as [[s1 caps1] [H1 H2]].
    apply (IHb _ _ _ _ H2).
    destruct Hb as [Hb|Hb].
    + apply orb_true_iff in Hb. destruct Hb as [Hb|Hb]; [|now left].
      right. apply (IHa _ _ _ _ H1). now left.
    + right. apply (IHa _ _ _ _ H1). now right.
  - apply in_app_iff in H. destruct Hb as [Hb|Hb].
    + apply andb_true_iff in Hb. destruct Hb as [Ha' Hb'].
      destruct H as [H|H]; [apply (IHa _ _ _ _ H)|apply (IHb _ _ _ _ H)]; now left.
    + destruct H as [H|H]; [apply (IHa _ _ _ _ H)|apply (IHb _ _ _ _ H)]; now right.
  - apply in_map_iff in H. destruct H as [s1 [H1 _]]. inversion H1; subst.
    destruct Hb; [discriminate|assumption].
  - apply in_map_iff in H. destruct H as [[s1 caps1] [H1 H2]]. inversion H1; subst.
    simpl. destruct (Nat.eqb i j) eqn:E; [eauto|].
    simpl in Hb. apply (IHa _ _ _ _ H2). assumption.
  - destruct s; [|contradiction]. destruct H as [H|[]]. inversion H; subst.
    destruct Hb; [discriminate|assumption].
Qed.

Lemma take_head n c s : 0 < n -> take n (String c s) = String c (take (n - 1) s).
Proof. destruct n; [lia|]. intros _. simpl. now rewrite Nat.sub_0_r. Qed.

Lemma run_numeric ic i r : forall s caps s' caps',
  numeric i r = true -> allNumeric i caps ->
  In (s', caps') (run ic r s caps) -> allNumeric i caps'.
Proof.
  induction r as [p|a IHa b IHb|a IHa b IHb|least greedy cs|j a IHa|];
    intros s caps s' caps' Hn Hc H; simpl in *.
  - destruct (literal ic p s); [|contradiction]. destruct H as [H|[]]. now inversion H; subst.
  - apply andb_true_iff in Hn. destruct Hn as [Hna Hnb].
    apply in_flat_map in H. destruct H as [[s1 caps1] [H1 H2]].
    apply (IHb _ _ _ _ Hnb (IHa _ _ _ _ Hna Hc H1) H2).
  - apply andb_true_iff in Hn. destruct Hn as [Hna Hnb].
    apply in_app_iff in H.
    destruct H as [H|H]; [apply (IHa _ _ _ _ Hna Hc H)|apply (IHb _ _ _ _ Hnb Hc H)].
  - apply in_map_iff in H. destruct H as [s1 [H1 _]]. now inversion H1; subst.
  - apply in_map_iff in H. destruct H as [[s1 caps1] [H1 H2]]. inversion H1; subst.
    destruct (Nat.eqb i j) eqn:E.
    + destruct a as [| | |[|least] greedy [] | |]; try discriminate.
      simpl in H2. apply in_map_iff in H2. destruct H2 as [s2 [H2 H3]].
      inversion H2; subst.
      assert (H4 : In s' (skipn (S least) (spans Digit s)))
        by (destruct greedy; [now apply in_rev in H3|assumption]).
      destruct (spans_head _ _ _ _ H4) as [c [s0 [-> [Hd Hl]]]].
      intros t [Ht|Ht]; [|now apply Hc].
      inversion Ht; subst. rewrite take_head by (simpl; lia).
      simpl. simpl in Hd. rewrite Hd. eauto.
    + intros t [Ht|Ht].
      * inversion Ht; subst. rewrite Nat.eqb_refl in E. discriminate.
      * apply (IHa _ _ _ _ Hn Hc H2). assumption.
  - destruct s; [|contradiction]. destruct H as [H|[]]. now inversion H; subst.
Qed.

Lemma drop_length : forall n s, String.length (drop n s) = String.length s - n.
Proof.
  induction n as [|n IH]; intros s; simpl.
  - destruct s; simpl; lia.
  - destruct s; simpl; auto.
Qed.

Lemma drop_succ : forall n s c s', drop n s = String c s' -> drop (S n) s = s'.
Proof.
  induction n as [|n IH]; intros s c s' H.
  - destruct s; simpl in *; [discriminate|]. now inversion H.
  - destruct s; simpl in *; [discriminate|]. eauto.
Qed.

Lemma search_unfold ic r s pos :
  search ic r s pos =
  match run ic r s [] with
  | (s', caps) :: _ =>
      Some {| index := pos; stop := pos + (String.length s - String.length s');
              groups := caps |}
  | [] =>
      match s with
      | String _ s' => search ic r s' (S pos)
      | EmptyString => None
      end
  end.
Proof. destruct s; reflexivity. Qed.

(** What [search] finds is a match, not before the position it started
    from. *)
Lemma search_sound ic r input : forall n pos m,
  n = String.length input - pos ->
  pos <= String.length input ->
  search ic r (drop pos input) pos = Some m ->
  pos <= index m /\ matchAt (mk r ic 0) input m.
Proof.
  induction n as [|n IH]; intros pos m Hn Hpos H; rewrite search_unfold in H;
    destruct (run ic r (drop pos input) []) as [|[s' caps] others] eqn:Er.
  - destruct (drop pos input) as [|c s1] eqn:Ed; [discriminate|].
    pose proof (drop_length pos input) as Hl. rewrite Ed in Hl. simpl in Hl. lia.
  - inversion H; subst; simpl. split; [lia|].
    split; [simpl; lia|]. exists s', others. simpl. auto.
  - destruct (drop pos input) as [|c s1] eqn:Ed; [discriminate|].
    pose proof (drop_length pos input) as Hl. rewrite Ed in Hl. simpl in Hl.
    rewrite <- (drop_succ _ _ _ _ Ed) in H.
    destruct (IH (S pos) m) as [H1 H2]; auto; try lia.
    split; [lia|assumption].
  - inversion H; subst; simpl. split; [lia|].
    split; [simpl; lia|]. exists s', others. simpl. auto.
Qed.

End RegExpFacts.

(** ** The parser *)
Module ParserFacts.
Import JsString RegExp Parser RegExpFacts.

Lemma len_nonneg s : 0 <= len s.
Proof. unfold len. lia. Qed.

Lemma lineCount_positive document : 1 <= lineCount document.
Proof. unfold lineCount, allLines. simpl. lia. Qed.

(** *** findTokenEnd *)

(** The scanning loop finishes within [len line - end0] iterations, at a
    position where its condition is false. *)
Lemma advance_returns cls line : forall fuel end0,
  0 <= end0 <= len line -> len line - end0 <= Z.of_nat fuel ->
  exists e, advance fuel cls line end0 = Returns e /\ end0 <= e <= len line /\
            ((e <? len line) && test cls (at_ line e) = false).
Proof.
  induction fuel as [|fuel IH]; intros end0 Hr Hf; simpl.
  - assert (end0 = len line) by lia. subst.
    rewrite Z.ltb_irrefl. simpl. exists (len line). rewrite Z.ltb_irrefl. auto with zarith.
  - destruct ((end0 <? len line) && test cls (at_ line end0)) eqn:E.
    + apply andb_true_iff in E. destruct E as [E _]. apply Z.ltb_lt in E.
      destruct (IH (end0 + 1)) as [e [H1 [H2 H3]]]; try lia.
      exists e. repeat split; auto; lia.
    + exists end0. repeat split; auto; lia.
Qed.

Lemma findTokenEnd_bounds line start :
  0 <= start < len line ->
  exists e, findTokenEnd line start = Returns e /\ start + 1 <= e <= len line.
Proof.
  intros Hs. unfold findTokenEnd.
  destruct (advance_returns isSpace line (Z.to_nat (len line - start)) start)
    as [e1 [H1 [H2 _]]]; try lia.
  rewrite H1. simpl.
  destruct ((e1 <? len line) && test isDelimiter (at_ line e1)) eqn:E.
  - apply andb_true_iff in E. destruct E as [E _]. apply Z.ltb_lt in E.
    exists (e1 + 1). split; [reflexivity|lia].
  - destruct (advance_returns isWordChar line (Z.to_nat (len line - start)) e1)
      as [e2 [H3 [H4 _]]]; try lia.
    rewrite H3. simpl. exists (Z.max e2 (start + 1)). split; [reflexivity|lia].
Qed.

(** *** One diagnostic *)

Lemma validLine_range document l :
  0 <= validLine document l <= lineCount document - 1.
Proof. pose proof (lineCount_positive document). unfold validLine. lia. Qed.

Lemma validColumn_range lineText c :
  0 <= validColumn lineText c <= len lineText.
Proof. pose proof (len_nonneg lineText). unfold validColumn. lia. Qed.

Lemma lineAt_valid document l :
  lineAt document (validLine document l) =
  Returns (nth (Z.to_nat (validLine document l)) (allLines document) EmptyString).
Proof.
  pose proof (validLine_range document l) as H. unfold lineAt.
  destruct (validLine document l <? 0) eqn:E1; [apply Z.ltb_lt in E1; lia|].
  destruct (lineCount document <=? validLine document l) eqn:E2;
    [apply Z.leb_le in E2; lia|].
  reflexivity.
Qed.

Lemma newRange_ordered l a b :
  0 <= l -> 0 <= a <= b ->
  newRange l a l b = Returns (mkRange (mkPosition l a) (mkPosition l b)).
Proof.
  intros Hl Hab. unfold newRange.
  destruct (l <? 0) eqn:E1; [apply Z.ltb_lt in E1; lia|].
  destruct (a <? 0) eqn:E2; [apply Z.ltb_lt in E2; lia|].
  destruct (b <? 0) eqn:E3; [apply Z.ltb_lt in E3; lia|].
  simpl. unfold isBefore. simpl.
  rewrite Z.ltb_irrefl, Z.eqb_refl. simpl.
  destruct (b <? a) eqn:E4; [apply Z.ltb_lt in E4|reflexivity].
  assert (a = b) by lia. now subst.
Qed.

(** The diagnostic of an extracted position: the range is always made,
    on the clamped line, and covers the token at the clamped column or,
    when that column is the end of the line, the whole line; the
    diagnostic is then made unless the message is empty. *)
Lemma diagnosticAt_spec document l c msg :
  let vl := validLine document l in
  let lineText := nth (Z.to_nat vl) (allLines document) EmptyString in
  let vc := validColumn lineText c in
  exists sc ec,
    diagnosticAt document l c msg =
      match msg with
      | EmptyString => Raises MessageNotSet
      | String _ _ =>
          Returns {| range := mkRange (mkPosition vl sc) (mkPosition vl ec);
                     message := msg; severity := severityOf msg; source := "veyra" |}
      end /\
    (vc < len lineText -> sc = vc /\ vc + 1 <= ec <= len lineText) /\
    (len lineText <= vc -> sc = 0 /\ ec = len lineText).
Proof.
  intros vl lineText vc. unfold diagnosticAt.
  rewrite lineAt_valid. cbn [bind]. fold vl. fold lineText. fold vc.
  pose proof (validLine_range document l) as Hl. fold vl in Hl.
  pose proof (validColumn_range lineText c) as Hc. fold vc in Hc.
  destruct (vc <? len lineText) eqn:E.
  - apply Z.ltb_lt in E.
    destruct (findTokenEnd_bounds lineText vc) as [e [He Hb]]; [lia|].
    rewrite He. cbn [bind]. rewrite newRange_ordered by lia. cbn [bind].
    exists vc, e. split; [destruct msg; reflexivity|]. split; [auto|lia].
  - apply Z.ltb_ge in E. rewrite newRange_ordered by lia. cbn [bind].
    exists 0, (len lineText). split; [destruct msg; reflexivity|]. split; [lia|auto].
Qed.

(** The loop body never throws on account of the position: with numbers
    in the first two groups and a text in the third it returns a
    diagnostic, unless the message is empty, and then the constructor of
    the diagnostic throws. *)
Lemma diagnosticAt_outcome document l c msg :
  (msg = EmptyString /\ diagnosticAt document l c msg = Raises MessageNotSet) \/
  (msg <> EmptyString /\ exists d, diagnosticAt document l c msg = Returns d).
Proof.
  destruct (diagnosticAt_spec document l c msg) as [sc [ec [H _]]].
  destruct msg; [left; auto|]. right. split; [discriminate|]. eauto.
Qed.

(** *** Matches of a recognizer *)

Lemma recognizer_patterns : Forall (fun p => recognizer p = true) patterns.
Proof. repeat constructor. Qed.

(** From [Hr : run ... = x :: others], the fact [Hin] that [x] is one of
    the successes. *)
Ltac first_success Hr Hin :=
  match type of Hr with
  | run ?ic ?r ?s ?caps = ?x :: _ =>
      assert (Hin : In x (run ic r s caps)) by (rewrite Hr; now left)
  end.

Lemma matchAt_stop re input m :
  matchAt re input m ->
  (index m + minLength (syntax re) <= stop m <= String.length input)%nat.
Proof.
  intros [Hi [rest [others [Hr Hs]]]].
  first_success Hr Hin.
  apply run_length in Hin. rewrite drop_length in *. lia.
Qed.

Lemma parseIntGroup_returns re input m i :
  binds i (syntax re) = true -> numeric i (syntax re) = true ->
  matchAt re input m -> exists n, parseIntGroup i m = Returns n.
Proof.
  intros Hb Hn [_ [rest [others [Hr _]]]].
  first_success Hr Hin.
  destruct (run_binds _ i _ _ _ _ _ Hin (or_introl Hb)) as [s Hs].
  assert (Hall : allNumeric i (groups m)).
  { eapply run_numeric; [exact Hn| |exact Hin]. intros ? []. }
  destruct (Hall s (capture_In _ _ _ Hs)) as [n Hp].
  exists n. unfold parseIntGroup. now rewrite Hs, Hp.
Qed.

Lemma trimGroup_returns re input m i :
  binds i (syntax re) = true ->
  matchAt re input m -> exists s, trimGroup i m = Returns s.
Proof.
  intros Hb [_ [rest [others [Hr _]]]].
  first_success Hr Hin.
  destruct (run_binds _ i _ _ _ _ _ Hin (or_introl Hb)) as [s Hs].
  exists (trim s). unfold trimGroup. now rewrite Hs.
Qed.

Lemma recognizer_inv p :
  recognizer p = true ->
  (0 < minLength (syntax p))%nat /\
  binds 1 (syntax p) = true /\ binds 2 (syntax p) = true /\ binds 3 (syntax p) = true /\
  numeric 1 (syntax p) = true /\ numeric 2 (syntax p) = true.
Proof.
  unfold recognizer. intros H.
  repeat (apply andb_true_iff in H; destruct H as [H ?]).
  apply Nat.ltb_lt in H. auto 10.
Qed.

(** What the loop body does on a match of a recognizer: it yields a
    diagnostic, unless the message of the match is blank, and then it
    throws the constructor's error. *)
Lemma diagnosticOfMatch_outcome p document input m :
  recognizer p = true -> matchAt p input m -> settles document m.
Proof.
  intros Hp Hm. destruct (recognizer_inv p Hp) as [_ [B1 [B2 [B3 [N1 N2]]]]].
  destruct (parseIntGroup_returns p input m 1 B1 N1 Hm) as [l Hl].
  destruct (parseIntGroup_returns p input m 2 B2 N2 Hm) as [c Hc].
  destruct (trimGroup_returns p input m 3 B3 Hm) as [msg Hmsg].
  unfold settles, blankMessage, diagnosticOfMatch. rewrite Hl, Hc, Hmsg. cbn [bind].
  destruct (diagnosticAt_outcome document (l - 1) (c - 1) msg) as [[-> H]|[Hne [d H]]].
  - left. auto.
  - right. split; [destruct msg; [now contradiction Hne|reflexivity]|eauto].
Qed.

(** *** The loop over the matches of one pattern *)

Lemma exec_some re input m re' :
  exec re input = (Some m, re') ->
  (lastIndex re <= index m)%nat /\ matchAt re input m /\ re' = setLastIndex (stop m) re.
Proof.
  unfold exec. destruct (Nat.ltb (String.length input) (lastIndex re)) eqn:E;
    [discriminate|].
  apply Nat.ltb_ge in E.
  destruct (search (ignoreCase re) (syntax re) (drop (lastIndex re) input) (lastIndex re))
    as [m'|] eqn:Es; [|discriminate].
  intros H. inversion H; subst.
  destruct (search_sound _ _ input _ _ _ eq_refl E Es) as [H1 H2].
  split; [assumption|]. split; [exact H2|reflexivity].
Qed.

Lemma exec_none re input re' :
  exec re input = (None, re') -> re' = setLastIndex 0 re.
Proof.
  unfold exec. destruct (Nat.ltb (String.length input) (lastIndex re));
    [now inversion 1|].
  destruct (search _ _ _ _); [discriminate|now inversion 1].
Qed.

Lemma successive_unique ic r input from ms :
  successive ic r input from ms ->
  forall ms', successive ic r input from ms' -> ms = ms'.
Proof.
  induction 1 as [from H|from m ms H Hs IH]; intros ms' H'; inversion H'; subst;
    try congruence.
  assert (m0 = m) by congruence. subst. f_equal. auto.
Qed.

(** The matches come in increasing position, none overlapping the
    previous one, and each is a match of the pattern. *)
Lemma successive_matches ic r input from ms :
  (0 < minLength r)%nat ->
  successive ic r input from ms ->
  Forall (fun m => (from <= index m)%nat /\ matchAt (mk r ic 0) input m) ms /\
  StronglySorted (fun a b => (index a < index b)%nat) ms.
Proof.
  intros Hmin. induction 1 as [from H|from m ms H Hs [IH1 IH2]].
  - split; constructor.
  - destruct (exec (mk r ic from) input) as [o re'] eqn:E. simpl in H. subst o.
    destruct (exec_some _ _ _ _ E) as [H1 [H2 _]]. simpl in H1.
    pose proof (matchAt_stop _ _ _ H2) as H3. simpl in H3.
    split.
    + constructor; [split; [assumption|exact H2]|].
      eapply List.Forall_impl; [|exact IH1]. simpl. intros a [Ha1 Ha2]. split; [lia|assumption].
    + constructor; [assumption|].
      eapply List.Forall_impl; [|exact IH1]. simpl. intros a [Ha1 _]. lia.
Qed.

(** A recognizer has a list of successive matches from any position:
    the loop over them ends. *)
Lemma successive_exists ic r input :
  (0 < minLength r)%nat ->
  forall n from, (String.length input - from <= n)%nat ->
  exists ms, successive ic r input from ms.
Proof.
  intros Hmin. induction n as [|n IH]; intros from Hn;
    destruct (exec (mk r ic from) input) as [[m|] re'] eqn:E.
  - destruct (exec_some _ _ _ _ E) as [H1 [H2 _]]. simpl in H1.
    pose proof (matchAt_stop _ _ _ H2) as H3. simpl in H3. lia.
  - exists []. constructor. now rewrite E.
  - destruct (exec_some _ _ _ _ E) as [H1 [H2 _]]. simpl in H1.
    pose proof (matchAt_stop _ _ _ H2) as H3. simpl in H3.
    destruct (IH (stop m)) as [ms Hms]; [lia|].
    exists (m :: ms). econstructor; [now rewrite E|assumption].
  - exists []. constructor. now rewrite E.
Qed.

(** The loop body over a list of matches. *)
Lemma eachMatch_app document ms1 : forall ms2 acc,
  eachMatch document (ms1 ++ ms2) acc =
  let* ds := eachMatch document ms1 acc in eachMatch document ms2 ds.
Proof.
  induction ms1 as [|m ms1 IH]; intros ms2 acc; [reflexivity|].
  simpl. destruct (diagnosticOfMatch document m) as [d|e]; cbn [bind]; [apply IH|reflexivity].
Qed.

Lemma eachMatch_yields document ms : forall ds acc,
  Forall2 (yields document) ms ds -> eachMatch document ms acc = Returns (acc ++ ds).
Proof.
  induction ms as [|m ms IH]; intros ds acc H; inversion H as [|? d ? ds' Hm Hrest]; subst.
  - simpl. now rewrite app_nil_r.
  - simpl. unfold yields in Hm. rewrite Hm. cbn [bind].
    rewrite (IH ds' (acc ++ [d]) Hrest). now rewrite <- app_assoc.
Qed.

Lemma eachMatch_returns document ms : forall acc r,
  eachMatch document ms acc = Returns r ->
  exists ds, r = acc ++ ds /\ Forall2 (yields document) ms ds.
Proof.
  induction ms as [|m ms IH]; intros acc r H; simpl in H.
  - inversion H; subst. exists []. split; [now rewrite app_nil_r|constructor].
  - destruct (diagnosticOfMatch document m) as [d|e] eqn:E; [|discriminate].
    cbn [bind] in H. destruct (IH _ _ H) as [ds [-> Hds]].
    exists (d :: ds). split; [now rewrite <- app_assoc|]. now constructor.
Qed.

(** The loop body over matches of recognizers: it throws exactly when
    one of them has a blank message, and returns one diagnostic per match
    otherwise. *)
Lemma eachMatch_outcome document ms :
  Forall (settles document) ms -> forall acc,
  if existsb blankMessage ms
  then eachMatch document ms acc = Raises MessageNotSet
  else exists ds, eachMatch document ms acc = Returns (acc ++ ds) /\
                  Forall2 (yields document) ms ds.
Proof.
  induction 1 as [|m ms Hm _ IH]; intros acc.
  - simpl. exists []. split; [now rewrite app_nil_r|constructor].
  - simpl. destruct Hm as [[Hb Hr]|[Hb [d Hd]]]; rewrite Hb; simpl.
    + now rewrite Hr.
    + rewrite Hd. cbn [bind]. specialize (IH (acc ++ [d])).
      destruct (existsb blankMessage ms); [exact IH|].
      destruct IH as [ds [H1 H2]]. exists (d :: ds).
      split; [now rewrite H1, <- app_assoc|now constructor].
Qed.

(** The [while] loop of one pattern runs the loop body on the successive
    matches of the pattern and leaves the pattern at [lastIndex = 0]. *)
Lemma whileExec_eachMatch document input p :
  (0 < minLength (syntax p))%nat ->
  forall from ms, successive (ignoreCase p) (syntax p) input from ms ->
  forall fuel acc,
    (String.length input - from <= fuel)%nat ->
    whileExec fuel (setLastIndex from p) input document acc
    = let* ds := eachMatch document ms acc in Returns (ds, setLastIndex 0 p).
Proof.
  intros Hmin from ms Hs.
  induction Hs as [from H|from m ms H Hs IH]; intros fuel acc Hf.
  - change (setLastIndex from p) with (mk (syntax p) (ignoreCase p) from).
    destruct (exec (mk (syntax p) (ignoreCase p) from) input) as [o re'] eqn:E.
    simpl in H. subst o. pose proof (exec_none _ _ _ E) as E'. subst re'.
    destruct fuel; simpl; rewrite E; reflexivity.
  - change (setLastIndex from p) with (mk (syntax p) (ignoreCase p) from).
    destruct (exec (mk (syntax p) (ignoreCase p) from) input) as [o re'] eqn:E.
    simpl in H. subst o.
    destruct (exec_some _ _ _ _ E) as [H1 [H2 H3]]. simpl in H1.
    pose proof (matchAt_stop _ _ _ H2) as H4. simpl in H4. subst re'.
    destruct fuel as [|fuel]; [lia|].
    simpl. rewrite E.
    destruct (diagnosticOfMatch document m) as [d|e]; cbn [bind]; [|reflexivity].
    change (setLastIndex (stop m) (mk (syntax p) (ignoreCase p) from))
      with (setLastIndex (stop m) p).
    apply IH. lia.
Qed.

(** The whole parse runs the loop body on the matches of the first
    pattern, then of the second, and so on. *)
Lemma forPatterns_eachMatch document input : forall ps mss acc,
  Forall (fun p => recognizer p = true) ps ->
  Forall2 (fun p ms => successive (ignoreCase p) (syntax p) input 0 ms) ps mss ->
  forPatterns ps input document acc = eachMatch document (concat mss) acc.
Proof.
  induction ps as [|p ps IH]; intros mss acc Hr Hs.
  - inversion Hs; subst. reflexivity.
  - inversion Hs as [|p' ms ps' mss' Hms Hrest]; subst.
    inversion Hr as [|p' ps' Hp Hps]; subst.
    destruct (recognizer_inv p Hp) as [Hmin _].
    simpl. rewrite (whileExec_eachMatch document input p Hmin 0 ms Hms); [|lia].
    rewrite eachMatch_app.
    destruct (eachMatch document ms acc) as [ds|e]; cbn [bind fst]; [|reflexivity].
    now apply IH.
Qed.

(** The whole parse, given the matches of each pattern and the
    diagnostic of each match. *)
Lemma forPatterns_eq document input : forall ps mss ds acc,
  Forall (fun p => recognizer p = true) ps ->
  Forall2 (fun p ms => successive (ignoreCase p) (syntax p) input 0 ms) ps mss ->
  Forall2 (yields document) (concat mss) ds ->
  forPatterns ps input document acc = Returns (acc ++ ds).
Proof.
  intros ps mss ds acc Hr Hs Hd.
  rewrite (forPatterns_eachMatch document input ps mss acc Hr Hs).
  now apply eachMatch_yields.
Qed.

(** The matches of every pattern exist, and the loop body settles on
    each of them. *)
Lemma matches_exist document input : forall ps,
  Forall (fun p => recognizer p = true) ps ->
  exists mss,
    Forall2 (fun p ms => successive (ignoreCase p) (syntax p) input 0 ms) ps mss /\
    Forall (settles document) (concat mss) /\
    Forall (StronglySorted (fun a b => (index a < index b)%nat)) mss /\
    Forall2 (fun p ms => Forall (matchAt p input) ms) ps mss.
Proof.
  induction 1 as [|p ps Hp Hps [mss [H1 [H2 [H3 H4]]]]].
  - exists []. repeat split; constructor.
  - destruct (recognizer_inv p Hp) as [Hmin _].
    destruct (successive_exists (ignoreCase p) (syntax p) input Hmin _ 0 (Nat.le_refl _))
      as [ms Hms].
    destruct (successive_matches _ _ _ _ _ Hmin Hms) as [Hm Hsorted].
    assert (Hma : Forall (matchAt p input) ms).
    { eapply List.Forall_impl; [|exact Hm]. simpl. intros a [_ Ha]. exact Ha. }
    assert (Hse : Forall (settles document) ms).
    { eapply List.Forall_impl; [|exact Hma]. intros m Hmm.
      exact (diagnosticOfMatch_outcome p document input m Hp Hmm). }
    exists (ms :: mss). repeat split.
    + now constructor.
    + simpl. apply Forall_app. now split.
    + now constructor.
    + now constructor.
Qed.

End ParserFacts.

(** ** Claims about the parser *)
Module ParserClaims.
Import JsString RegExp Parser RegExpFacts ParserFacts Examples.

(** What [diagnosticOfMatch] computed when it returned. *)
Lemma yields_inv document m d :
  yields document m d ->
  exists l c msg,
    parseIntGroup 1 m = Returns l /\ parseIntGroup 2 m = Returns c /\
    trimGroup 3 m = Returns msg /\
    diagnosticAt document (l - 1) (c - 1) msg = Returns d.
Proof.
  unfold yields, diagnosticOfMatch.
  destruct (parseIntGroup 1 m) as [l|]; [|discriminate].
  destruct (parseIntGroup 2 m) as [c|]; [|discriminate].
  destruct (trimGroup 3 m) as [msg|]; [|discriminate].
  cbn [bind]. intros H. exists l, c, msg. auto.
Qed.

Lemma diagnosticAt_inv document l c msg d :
  diagnosticAt document l c msg = Returns d ->
  let vl := validLine document l in
  let lineText := nth (Z.to_nat vl) (allLines document) EmptyString in
  let vc := validColumn lineText c in
  exists sc ec,
    d = {| range := mkRange (mkPosition vl sc) (mkPosition vl ec);
           message := msg; severity := severityOf msg; source := "veyra" |} /\
    (vc < len lineText -> sc = vc /\ vc + 1 <= ec <= len lineText) /\
    (len lineText <= vc -> sc = 0 /\ ec = len lineText).
Proof.
  intros H vl lineText vc.
  destruct (diagnosticAt_spec document l c msg) as [sc [ec [H1 H2]]].
  rewrite H in H1. destruct msg as [|a msg]; [discriminate|].
  inversion H1; subst. exists sc, ec. split; [reflexivity|exact H2].
Qed.

(** A diagnostic that was made has a message that is not empty. *)
Lemma diagnosticAt_message document l c msg d :
  diagnosticAt document l c msg = Returns d -> msg <> EmptyString /\ message d = msg.
Proof.
  intros H. destruct (diagnosticAt_outcome document l c msg) as [[_ E]|[Hne _]];
    [congruence|].
  split; [exact Hne|].
  destruct (diagnosticAt_inv _ _ _ _ _ H) as [sc [ec [-> _]]]. reflexivity.
Qed.

Lemma diagnosticAt_confined document l c msg d :
  diagnosticAt document l c msg = Returns d -> confined document d.
Proof.
  intros H. destruct (diagnosticAt_inv _ _ _ _ _ H) as [sc [ec [-> [H1 H2]]]].
  pose proof (validLine_range document l) as Hl.
  set (lineText := nth (Z.to_nat (validLine document l)) (allLines document) EmptyString) in *.
  pose proof (validColumn_range lineText c) as Hc.
  pose proof (len_nonneg lineText) as Hn.
  unfold confined. simpl. split; [reflexivity|]. split; [exact Hl|].
  exists lineText. split; [apply lineAt_valid|].
  destruct (Z_lt_le_dec (validColumn lineText c) (len lineText)) as [E|E].
  - destruct (H1 E) as [-> Hec]. lia.
  - destruct (H2 E) as [-> ->]. lia.
Qed.

Lemma successive_all_unique input : forall ps mss mss',
  Forall2 (fun p ms => successive (ignoreCase p) (syntax p) input 0 ms) ps mss ->
  Forall2 (fun p ms => successive (ignoreCase p) (syntax p) input 0 ms) ps mss' ->
  mss' = mss.
Proof.
  intros ps mss mss' H. revert mss'.
  induction H as [|p ms ps mss Hp _ IH]; intros mss' H'; inversion H'; subst;
    [reflexivity|].
  f_equal; [|auto]. eapply successive_unique; eauto.
Qed.

(** The parse in one equation: the loop body run on the matches of the
    first pattern, then of the second, and so on, up to the first match on
    which it throws. *)
Lemma parse_structure errorOutput document :
  exists mss,
    matchesOf errorOutput mss /\
    Forall (settles document) (concat mss) /\
    Forall (StronglySorted (fun a b => (index a < index b)%nat)) mss /\
    Forall2 (fun p ms => Forall (matchAt p errorOutput) ms) patterns mss /\
    parseCompilerErrors errorOutput document = eachMatch document (concat mss) [].
Proof.
  destruct (matches_exist document errorOutput patterns recognizer_patterns)
    as [mss [H1 [H2 [H3 H4]]]].
  exists mss. repeat split; auto.
  unfold parseCompilerErrors.
  exact (forPatterns_eachMatch document errorOutput patterns mss [] recognizer_patterns H1).
Qed.

(** The parser ends for every text and document: it throws when a match
    has a blank message, and returns one diagnostic for each match
    otherwise. *)
Lemma parse_outcome errorOutput document mss :
  matchesOf errorOutput mss ->
  if existsb blankMessage (concat mss)
  then parseCompilerErrors errorOutput document = Raises MessageNotSet
  else exists ds, parseCompilerErrors errorOutput document = Returns ds /\
                  Forall2 (yields document) (concat mss) ds.
Proof.
  intros Hm. destruct (parse_structure errorOutput document) as [mss' [H1 [H2 [_ [_ H5]]]]].
  rewrite (successive_all_unique _ _ _ _ Hm H1) in *. rewrite H5.
  exact (eachMatch_outcome document (concat mss) H2 []).
Qed.

(** What the parser returned, when it returned. *)
Lemma parse_yields errorOutput document ds :
  parseCompilerErrors errorOutput document = Returns ds ->
  exists mss, matchesOf errorOutput mss /\
              Forall2 (yields document) (concat mss) ds /\
              existsb blankMessage (concat mss) = false.
Proof.
  intros H. destruct (parse_structure errorOutput document) as [mss [H1 _]].
  exists mss. split; [exact H1|].
  pose proof (parse_outcome errorOutput document mss H1) as Ho.
  destruct (existsb blankMessage (concat mss)); [congruence|].
  destruct Ho as [ds' [E Hy]]. split; [|reflexivity]. congruence.
Qed.

Lemma Forall2_yields_Forall document (P : Diagnostic -> Prop) ms ds :
  Forall2 (yields document) ms ds ->
  (forall m d, yields document m d -> P d) -> Forall P ds.
Proof. induction 1; intros HP; constructor; eauto. Qed.

Lemma Forall2_same_length {A B : Type} (R : A -> B -> Prop) (l : list A) (l' : list B) :
  Forall2 R l l' -> List.length l' = List.length l.
Proof. induction 1; simpl; congruence. Qed.

(** The blank report is recognized, by pattern 4, with a message of one
    blank. *)
Lemma blankReport_matches :
  exists m,
    matchesOf blankReport [[]; []; []; [m]] /\
    groups m = [(3, " "); (2, "1"); (1, "1")]%nat.
Proof.
  eexists. split.
  - constructor.
    { apply successive_done. vm_compute. reflexivity. }
    constructor.
    { apply successive_done. vm_compute. reflexivity. }
    constructor.
    { apply successive_done. vm_compute. reflexivity. }
    constructor.
    { eapply successive_next; [vm_compute; reflexivity|].
      apply successive_done. vm_compute. reflexivity. }
    constructor.
  - reflexivity.
Qed.

(** On the blank report the parser throws: the message trims to the
    empty text, with which no diagnostic can be made. *)
Example blank_report_throws document :
  parseCompilerErrors blankReport document = Raises MessageNotSet.
Proof.
  destruct blankReport_matches as [m [Hm Hg]].
  pose proof (parse_outcome blankReport document _ Hm) as H.
  assert (Hb : existsb blankMessage (concat [[]; []; []; [m]]) = true).
  { simpl. unfold blankMessage, trimGroup. rewrite Hg. reflexivity. }
  now rewrite Hb in H.
Qed.

(** [C10] Every diagnostic the parser emits lies on a single line of the
    document, with 0 <= line <= lineCount - 1 and
    0 <= startColumn <= endColumn <= length of that line, and its range
    is not empty when its start is strictly inside the line; this rests on
    [findTokenEnd], which for a start inside the line returns at least
    start + 1 and at most the length of the line.  The parser ends for
    every input: it throws when a match has a message that is blank, and
    otherwise returns one such diagnostic for every match. *)
Theorem diagnostics_confined :
  (forall lineText start_,
     0 <= start_ < len lineText ->
     exists e, findTokenEnd lineText start_ = Returns e /\ start_ + 1 <= e <= len lineText) /\
  (forall errorOutput document ds,
     parseCompilerErrors errorOutput document = Returns ds ->
     Forall (confined document) ds) /\
  (forall errorOutput document,
     exists mss,
       matchesOf errorOutput mss /\
       if existsb blankMessage (concat mss)
       then parseCompilerErrors errorOutput document = Raises MessageNotSet
       else exists ds,
              parseCompilerErrors errorOutput document = Returns ds /\
              List.length ds = List.length (concat mss) /\
              Forall (confined document) ds).
Proof.
  assert (Hconf : forall document ms ds,
             Forall2 (yields document) ms ds -> Forall (confined document) ds).
  { intros document ms ds H. apply (Forall2_yields_Forall document _ _ _ H).
    intros m d Hy. destruct (yields_inv _ _ _ Hy) as [l [c [msg [_ [_ [_ Hd]]]]]].
    eapply diagnosticAt_confined; eauto. }
  split; [exact findTokenEnd_bounds|]. split.
  - intros errorOutput document ds H.
    destruct (parse_yields _ _ _ H) as [mss [_ [Hy _]]]. eapply Hconf; eauto.
  - intros errorOutput document.
    destruct (parse_structure errorOutput document) as [mss [H1 _]].
    exists mss. split; [exact H1|].
    pose proof (parse_outcome errorOutput document mss H1) as Ho.
    destruct (existsb blankMessage (concat mss)); [exact Ho|].
    destruct Ho as [ds [E Hy]]. exists ds. split; [exact E|].
    split; [eapply Forall2_same_length; eauto|eapply Hconf; eauto].
Qed.

Lemma diagnostics_confined_witness :
  (exists e, findTokenEnd "a & b;" 2 = Returns e /\ 2 + 1 <= e <= len "a & b;") /\
  Forall (confined tenLines) [ampersand; ampersand].
Proof.
  split.
  - apply (proj1 diagnostics_confined). vm_compute. split; [discriminate|reflexivity].
  - apply (proj1 (proj2 diagnostics_confined) lexerMessage tenLines).
    vm_compute. reflexivity.
Defined.

Lemma samePattern_recognizer ps qs :
  Forall2 samePattern ps qs ->
  Forall (fun p => recognizer p = true) ps -> Forall (fun q => recognizer q = true) qs.
Proof.
  induction 1 as [|p q ps qs [Hs Hi] _ IH]; intros Hr; [constructor|].
  inversion Hr; subst. constructor; [|auto].
  unfold recognizer in *. now rewrite <- Hs.
Qed.

Lemma samePattern_successive input ps qs mss :
  Forall2 samePattern ps qs ->
  Forall2 (fun p ms => successive (ignoreCase p) (syntax p) input 0 ms) ps mss ->
  Forall2 (fun q ms => successive (ignoreCase q) (syntax q) input 0 ms) qs mss.
Proof.
  intros H. revert mss. induction H as [|p q ps qs [Hs Hi] _ IH]; intros mss Hm;
    inversion Hm; subst; constructor; auto.
  now rewrite <- Hs, <- Hi.
Qed.

(** [C9] Parsing is deterministic and ordered.  For every raw text the
    lists of matches of the patterns are unique, and within one pattern
    the matches are taken in strictly increasing position in the text.
    The outcome of the parser is the same whatever state ([lastIndex]) the
    pattern objects were left in, so that parsing the same text against
    the same document again gives the identical outcome.  When the parser
    returns, it returns the diagnostics of the matches of the first
    pattern of the list, then those of the second, and so on, one for each
    match; it returns unless a match has a blank message, and then it
    throws. *)
Theorem parse_deterministic_ordered errorOutput document :
  exists mss,
    matchesOf errorOutput mss /\
    (forall mss', matchesOf errorOutput mss' -> mss' = mss) /\
    Forall (StronglySorted (fun a b => (index a < index b)%nat)) mss /\
    (forall ps, Forall2 samePattern patterns ps ->
                forPatterns ps errorOutput document []
                = parseCompilerErrors errorOutput document) /\
    (forall ds, parseCompilerErrors errorOutput document = Returns ds <->
                Forall2 (yields document) (concat mss) ds) /\
    (if existsb blankMessage (concat mss)
     then parseCompilerErrors errorOutput document = Raises MessageNotSet
     else exists ds, parseCompilerErrors errorOutput document = Returns ds).
Proof.
  destruct (parse_structure errorOutput document) as [mss [H1 [H2 [H3 [_ H5]]]]].
  exists mss. split; [exact H1|]. split.
  { intros mss' H'. eapply successive_all_unique; eauto. }
  split; [exact H3|]. split.
  { intros ps Hps. rewrite H5.
    apply forPatterns_eachMatch.
    - eapply samePattern_recognizer; [exact Hps|exact recognizer_patterns].
    - eapply samePattern_successive; eauto. }
  split.
  { intros ds. rewrite H5. split.
    - intros H. destruct (eachMatch_returns _ _ _ _ H) as [ds' [-> Hy]]. exact Hy.
    - intros Hy. exact (eachMatch_yields document _ ds [] Hy). }
  pose proof (parse_outcome errorOutput document mss H1) as Ho.
  destruct (existsb blankMessage (concat mss)); [exact Ho|].
  destruct Ho as [ds [E _]]. eauto.
Qed.

Lemma parse_deterministic_ordered_witness :
  forPatterns (map (setLastIndex 7) patterns) lexerMessage tenLines []
  = parseCompilerErrors lexerMessage tenLines.
Proof.
  destruct (parse_deterministic_ordered lexerMessage tenLines)
    as [mss [_ [_ [_ [H _]]]]].
  apply H. repeat constructor.
Defined.

(** [C8] Every (line, column) pair extracted by a recognizer is turned
    0-based by subtracting 1 from each; the line is then clamped to
    [0, lineCount - 1] and the column to [0, length of the clamped line].
    The diagnostic made for the pair lies on the clamped line; it starts
    at the clamped column when that column is inside the line, and covers
    the whole line, from column 0, when the column was clamped to the
    length of the line, so that its start column is never past the end of
    the line.  In particular a reported line >= lineCount gives a
    diagnostic on line lineCount - 1.  The parser makes such a
    diagnostic for every match, unless a match has a blank message, on
    which it throws. *)
Theorem positions_clamped errorOutput document :
  exists mss,
    matchesOf errorOutput mss /\
    if existsb blankMessage (concat mss)
    then parseCompilerErrors errorOutput document = Raises MessageNotSet
    else
      exists ds,
        parseCompilerErrors errorOutput document = Returns ds /\
        Forall2 (fun m d =>
          exists l c lineText,
            parseIntGroup 1 m = Returns l /\ parseIntGroup 2 m = Returns c /\
            validLine document (l - 1) = Z.max 0 (Z.min (l - 1) (lineCount document - 1)) /\
            0 <= validLine document (l - 1) <= lineCount document - 1 /\
            lineAt document (validLine document (l - 1)) = Returns lineText /\
            validColumn lineText (c - 1) = Z.max 0 (Z.min (c - 1) (len lineText)) /\
            0 <= validColumn lineText (c - 1) <= len lineText /\
            line (start (range d)) = validLine document (l - 1) /\
            line (end_ (range d)) = validLine document (l - 1) /\
            (validColumn lineText (c - 1) < len lineText ->
               character (start (range d)) = validColumn lineText (c - 1) /\
               validColumn lineText (c - 1) + 1 <= character (end_ (range d)) <= len lineText) /\
            (len lineText <= c - 1 ->
               validColumn lineText (c - 1) = len lineText /\
               character (start (range d)) = 0 /\
               character (end_ (range d)) = len lineText) /\
            0 <= character (start (range d)) <= len lineText /\
            (lineCount document <= l -> line (start (range d)) = lineCount document - 1))
          (concat mss) ds.
Proof.
  destruct (parse_structure errorOutput document) as [mss [H1 _]].
  exists mss. split; [exact H1|].
  pose proof (parse_outcome errorOutput document mss H1) as Ho.
  destruct (existsb blankMessage (concat mss)); [exact Ho|].
  destruct Ho as [ds [E H3]]. exists ds. split; [exact E|].
  eapply Forall2_impl; [exact H3|]. intros m d Hy.
  destruct (yields_inv _ _ _ Hy) as [l [c [msg [Hl [Hc [_ Hd]]]]]].
  destruct (diagnosticAt_inv _ _ _ _ _ Hd) as [sc [ec [-> [Hin Hout]]]].
  exists l, c, (nth (Z.to_nat (validLine document (l - 1))) (allLines document) EmptyString).
  split; [exact Hl|]. split; [exact Hc|].
  pose proof (validLine_range document (l - 1)) as Hr.
  pose proof (lineCount_positive document) as Hp.
  split; [reflexivity|]. split; [exact Hr|]. split; [apply lineAt_valid|].
  match goal with |- context [len ?t] => set (lineText := t) in * end.
  pose proof (validColumn_range lineText (c - 1)) as Hvc.
  pose proof (len_nonneg lineText) as Hn.
  split; [reflexivity|]. split; [exact Hvc|]. simpl.
  split; [reflexivity|]. split; [reflexivity|].
  split; [exact Hin|]. split.
  { intros Hge. assert (Hv : validColumn lineText (c - 1) = len lineText)
      by (unfold validColumn; lia).
    split; [exact Hv|]. apply Hout. lia. }
  split.
  { destruct (Z_lt_le_dec (validColumn lineText (c - 1)) (len lineText)) as [E'|E'].
    - destruct (Hin E') as [-> _]. lia.
    - destruct (Hout E') as [-> _]. lia. }
  intros Hge. unfold validLine. lia.
Qed.

(** The report of line 42 is recognized by pattern 4 only. *)
Lemma farMessage_matches :
  exists m,
    Forall2 (fun p ms => successive (ignoreCase p) (syntax p) farMessage 0 ms)
            patterns [[]; []; []; [m]] /\
    groups m = [(3, "unexpected end"); (2, "7"); (1, "42")]%nat.
Proof.
  eexists. split.
  - constructor.
    { apply successive_done. vm_compute. reflexivity. }
    constructor.
    { apply successive_done. vm_compute. reflexivity. }
    constructor.
    { apply successive_done. vm_compute. reflexivity. }
    constructor.
    { eapply successive_next; [vm_compute; reflexivity|].
      apply successive_done. vm_compute. reflexivity. }
    constructor.
  - reflexivity.
Qed.

Lemma positions_clamped_witness :
  exists d,
    parseCompilerErrors farMessage tenLines = Returns [d] /\
    line (start (range d)) = lineCount tenLines - 1.
Proof.
  destruct (positions_clamped farMessage tenLines) as [mss [H2 H3]].
  destruct farMessage_matches as [m [Hm Hg]].
  rewrite (successive_all_unique _ _ _ _ Hm H2) in H3.
  assert (Hb : existsb blankMessage (concat [[]; []; []; [m]]) = false).
  { simpl. unfold blankMessage, trimGroup. rewrite Hg. reflexivity. }
  rewrite Hb in H3. destruct H3 as [ds [H1 H3]]. simpl in H3.
  inversion H3 as [|m' d ms' ds' Hd Hrest]; subst. inversion Hrest; subst.
  exists d. split; [exact H1|].
  destruct Hd as [l [c [lineText [Hl [_ H]]]]].
  destruct H as [_ [_ [_ [_ [_ [_ [_ [_ [_ [_ Hfar]]]]]]]]]].
  apply Hfar.
  unfold parseIntGroup in Hl. rewrite Hg in Hl. simpl in Hl.
  injection Hl as <-. vm_compute. discriminate.
Defined.

(** The report of line 42 lands on the last line of a ten-line document,
    whose single character it covers. *)
Example far_report_clamped :
  parseCompilerErrors farMessage tenLines =
  Returns [{| range := mkRange (mkPosition 9 0) (mkPosition 9 1);
              message := "unexpected end"; severity := Error; source := "veyra" |}].
Proof. vm_compute. reflexivity. Qed.

(** *** The lexer report *)

(** The report is recognized by pattern 1 at its start and again by
    pattern 3, which ignores case and so finds "error at line ..." inside
    it; patterns 2 and 4 find nothing. *)
Lemma lexerMessage_matches :
  exists m1 m3,
    Forall2 (fun p ms => successive (ignoreCase p) (syntax p) lexerMessage 0 ms)
            patterns [[m1]; []; [m3]; []] /\
    index m1 = 0%nat /\ index m3 = 6%nat /\
    groups m1 = [(3, "Unexpected character '&'"); (2, "3"); (1, "5")]%nat /\
    groups m3 = [(3, "Unexpected character '&'"); (2, "3"); (1, "5")]%nat.
Proof.
  eexists. eexists. split.
  - constructor.
    { eapply successive_next; [vm_compute; reflexivity|].
      apply successive_done. vm_compute. reflexivity. }
    constructor.
    { apply successive_done. vm_compute. reflexivity. }
    constructor.
    { eapply successive_next; [vm_compute; reflexivity|].
      apply successive_done. vm_compute. reflexivity. }
    constructor.
    { apply successive_done. vm_compute. reflexivity. }
    constructor.
  - repeat split.
Qed.

Lemma lexer_report_body document m :
  groups m = [(3, "Unexpected character '&'"); (2, "3"); (1, "5")]%nat ->
  diagnosticOfMatch document m = diagnosticAt document 4 2 "Unexpected character '&'".
Proof.
  intros H. unfold diagnosticOfMatch, parseIntGroup, trimGroup. rewrite H. reflexivity.
Qed.

(** The parse of the report against any document: the same diagnostic
    twice. *)
Lemma lexer_report_parse document d :
  diagnosticAt document 4 2 "Unexpected character '&'" = Returns d ->
  parseCompilerErrors lexerMessage document = Returns [d; d].
Proof.
  intros Hd. destruct lexerMessage_matches as [m1 [m3 [Hs [_ [_ [G1 G3]]]]]].
  unfold parseCompilerErrors.
  rewrite (forPatterns_eq document lexerMessage patterns _ [d; d] [] recognizer_patterns Hs);
    [reflexivity|].
  simpl. repeat constructor; unfold yields; rewrite lexer_report_body; assumption.
Qed.

(** [C1, as amended] For the lexer report against a 10-line document
    whose fifth line has more than two characters, the parser yields at
    least one diagnostic, and every diagnostic it yields has its 0-based
    range start at line 4, column 2, severity Error and the message
    of the report. *)
Theorem lexer_report_diagnostics document lineText :
  lineCount document = 10 ->
  lineAt document 4 = Returns lineText ->
  2 < len lineText ->
  exists d ds,
    parseCompilerErrors lexerMessage document = Returns (d :: ds) /\
    Forall (fun d => start (range d) = mkPosition 4 2 /\ severity d = Error /\
                     message d = "Unexpected character '&'") (d :: ds).
Proof.
  intros Hcount Hline Hlen.
  destruct (diagnosticAt_spec document 4 2 "Unexpected character '&'")
    as [sc [ec [Hd [Hin _]]]].
  assert (Hvl : validLine document 4 = 4) by (unfold validLine; lia).
  rewrite Hvl in *.
  pose proof (lineAt_valid document 4) as Hv. rewrite Hvl, Hline in Hv.
  assert (Ht : nth (Z.to_nat 4) (allLines document) EmptyString = lineText) by congruence.
  rewrite Ht in Hin.
  assert (Hvc : validColumn lineText 2 = 2) by (unfold validColumn; lia).
  rewrite Hvc in Hin. destruct (Hin Hlen) as [-> _].
  rewrite (lexer_report_parse document _ Hd).
  eexists. eexists. split; [reflexivity|].
  repeat constructor.
Qed.

Lemma lexer_report_diagnostics_witness :
  exists d ds,
    parseCompilerErrors lexerMessage tenLines = Returns (d :: ds) /\
    Forall (fun d => start (range d) = mkPosition 4 2 /\ severity d = Error /\
                     message d = "Unexpected character '&'") (d :: ds).
Proof.
  apply (lexer_report_diagnostics tenLines "a & b;").
  - reflexivity.
  - reflexivity.
  - vm_compute. reflexivity.
Defined.

(** [C1, as stated, fails] Against the ten lines of [tenLines] the
    report gives two diagnostics, not one; against ten blank lines it
    gives two diagnostics that start at column 0.  So it is not true that
    every 10-line document gets exactly one diagnostic starting at
    line 4, column 2. *)
Lemma lexer_report_not_single :
  lineCount tenLines = 10 /\
  parseCompilerErrors lexerMessage tenLines = Returns [ampersand; ampersand] /\
  lineCount tenBlankLines = 10 /\
  parseCompilerErrors lexerMessage tenBlankLines =
    Returns (repeat {| range := mkRange (mkPosition 4 0) (mkPosition 4 0);
                       message := "Unexpected character '&'";
                       severity := Error; source := "veyra" |} 2) /\
  ~ (forall document, lineCount document = 10 ->
       exists d, parseCompilerErrors lexerMessage document = Returns [d] /\
                 start (range d) = mkPosition 4 2 /\ severity d = Error /\
                 message d = "Unexpected character '&'").
Proof.
  split; [reflexivity|]. split; [vm_compute; reflexivity|].
  split; [reflexivity|]. split; [vm_compute; reflexivity|].
  intros H. destruct (H tenLines eq_refl) as [d [Hd _]].
  vm_compute in Hd. discriminate.
Qed.

End ParserClaims.

(** ** Claims about tool discovery *)
Module DiscoveryClaims.
Import JsString Discovery Examples.

(** [for (const p of paths) if (test(p)) return p; return null]: the
    result is the first path the test accepts. *)
Lemma find_first {A : Type} (f : A -> bool) (l : list A) (x : A) :
  List.find f l = Some x <->
  exists before after,
    l = before ++ x :: after /\ f x = true /\ Forall (fun y => f y = false) before.
Proof.
  induction l as [|a l IH]; simpl.
  - split; [discriminate|]. intros [[|b before] [after [H _]]]; discriminate.
  - destruct (f a) eqn:E.
    + split.
      * intros H. inversion H; subst. exists [], l. repeat split; auto.
      * intros [[|b before] [after [H [Hx Hb]]]].
        -- simpl in H. now inversion H.
        -- simpl in H. inversion H; subst. inversion Hb; subst. congruence.
    + rewrite IH. split.
      * intros [before [after [-> [Hx Hb]]]]. exists (a :: before), after.
        repeat split; auto.
      * intros [[|b before] [after [H [Hx Hb]]]].
        -- simpl in H. inversion H; subst. congruence.
        -- simpl in H. inversion H; subst. inversion Hb; subst.
           exists before, after. auto.
Qed.

Lemma find_none {A : Type} (f : A -> bool) (l : list A) :
  List.find f l = None <-> Forall (fun y => f y = false) l.
Proof.
  induction l as [|a l IH]; simpl.
  - split; auto.
  - destruct (f a) eqn:E.
    + split; [discriminate|]. intros H. inversion H; subst. congruence.
    + rewrite IH. split; [now constructor|]. intros H. now inversion H.
Qed.

Section Probes.
Variable env : Environment.

(** The probe of extension.ts accepts a path exactly when the help
    command exits with status 0 and, for an absolute path, the file
    exists. *)
Lemma isExecutableAvailable_true executablePath :
  isExecutableAvailable env executablePath = true <->
  (isAbsolute env executablePath = true -> existsSync env executablePath = true) /\
  spawn env (helpCommand executablePath) 5000 = Exited 0.
Proof.
  unfold isExecutableAvailable, tryCatch, execSync.
  destruct (isAbsolute env executablePath); destruct (existsSync env executablePath);
    simpl.
  2: { split; [discriminate|]. intros [H _]. specialize (H eq_refl). discriminate. }
  all: destruct (spawn env (helpCommand executablePath) 5000) as [[| |]| | |]; simpl;
    split; intros H; try discriminate; try (destruct H; discriminate); auto.
Qed.

(** The probe of toolManager.ts starts no process: a bare name is
    accepted as it is, any other path when it exists and is a file. *)
Lemma toolManager_probe_true executablePath :
  ToolManager.isExecutableAvailable env executablePath = true <->
  (isAbsolute env executablePath = false /\ includes executablePath (sep env) = false) \/
  (existsSync env executablePath = true /\ isFile env executablePath = Some true).
Proof.
  unfold ToolManager.isExecutableAvailable, tryCatch, ToolManager.statIsFile.
  destruct (isAbsolute env executablePath); destruct (includes executablePath (sep env));
    destruct (existsSync env executablePath);
    destruct (isFile env executablePath) as [[|]|]; simpl;
    split; intros H; try discriminate; auto;
    destruct H as [[H1 H2]|[H1 H2]]; congruence.
Qed.

End Probes.

(** [C4, as stated, fails] A linter found on the PATH whose [--help]
    exits with status 1 is reported unavailable by the probe of
    extension.ts: [execSync] throws on a non-zero status and the [catch]
    answers false. *)
Lemma help_exit_status_one_rejected :
  spawn helpExitsOne (helpCommand "veyra-lint") 5000 = Exited 1 /\
  isExecutableAvailable helpExitsOne "veyra-lint" = false /\
  ~ (forall env executablePath status,
       spawn env (helpCommand executablePath) 5000 = Exited status ->
       isExecutableAvailable env executablePath = true).
Proof.
  split; [reflexivity|]. split; [reflexivity|].
  intros H. specialize (H helpExitsOne "veyra-lint" 1 eq_refl). discriminate.
Qed.

(** [C4, as amended] For every candidate path both probes return a
    boolean and never throw.  The probe of extension.ts runs the
    candidate with [--help] under a 5 s timeout and answers true exactly
    when that command exits with status 0 (and, for an absolute path, the
    file exists); a non-zero exit status, a signal, a timeout and a spawn
    failure all give false.  The probe of toolManager.ts starts no
    process: it answers true for a bare name, and for any other path
    exactly when the path exists and is a regular file. *)
Theorem probes_total env executablePath :
  (isExecutableAvailable env executablePath = true <->
     (isAbsolute env executablePath = true -> existsSync env executablePath = true) /\
     spawn env (helpCommand executablePath) 5000 = Exited 0) /\
  (forall status, status <> 0 ->
     spawn env (helpCommand executablePath) 5000 = Exited status ->
     isExecutableAvailable env executablePath = false) /\
  (In (spawn env (helpCommand executablePath) 5000) [SpawnFailed; TimedOut; Killed] ->
     isExecutableAvailable env executablePath = false) /\
  (ToolManager.isExecutableAvailable env executablePath = true <->
     (isAbsolute env executablePath = false /\ includes executablePath (sep env) = false) \/
     (existsSync env executablePath = true /\ isFile env executablePath = Some true)).
Proof.
  split; [apply isExecutableAvailable_true|].
  split; [|split; [|apply toolManager_probe_true]].
  - intros status Hs He.
    destruct (isExecutableAvailable env executablePath) eqn:E; [|reflexivity].
    apply isExecutableAvailable_true in E. destruct E as [_ E]. congruence.
  - intros Hin.
    destruct (isExecutableAvailable env executablePath) eqn:E; [|reflexivity].
    apply isExecutableAvailable_true in E. destruct E as [_ E]. rewrite E in Hin.
    simpl in Hin. intuition discriminate.
Qed.

Lemma probes_total_witness :
  isExecutableAvailable helpExitsOne "veyra-lint" = false /\
  isExecutableAvailable helpExitsOne "veyra-fmt" = false /\
  isExecutableAvailable builtAndConfigured configuredFormatter = true /\
  ToolManager.isExecutableAvailable builtAndConfigured configuredFormatter = true.
Proof.
  split; [|split; [|split]].
  - apply (proj1 (proj2 (probes_total helpExitsOne "veyra-lint")) 1); [discriminate|reflexivity].
  - apply (proj1 (proj2 (proj2 (probes_total helpExitsOne "veyra-fmt")))).
    left. reflexivity.
  - apply (proj1 (probes_total builtAndConfigured configuredFormatter)).
    split; reflexivity.
  - apply (proj2 (proj2 (proj2 (probes_total builtAndConfigured configuredFormatter)))).
    right. split; reflexivity.
Defined.

(** *** Resolution order *)

Section Resolution.
Variable env : Environment.
Variable toolName : string.

Let exe : string := toolName +:+ ".exe".
Let configured : string := configGet env (toolName +:+ "Path").

Lemma possiblePaths_order :
  possiblePaths env toolName =
  (if nonEmpty configured then [configured] else [])
  ++ [toolName; exe]
  ++ flat_map (folderCandidates env exe) (default [] (workspaceFolders env)).
Proof.
  unfold possiblePaths. fold exe. fold configured.
  destruct (nonEmpty configured); destruct (workspaceFolders env); reflexivity.
Qed.

Lemma override_first :
  nonEmpty configured = true ->
  isExecutableAvailable env configured = true ->
  findVeyraTool env toolName = Some configured.
Proof.
  intros Hn Ha. unfold findVeyraTool. rewrite possiblePaths_order, Hn.
  simpl. now rewrite Ha.
Qed.

End Resolution.

(** [C2, as stated, fails] With a formatter built in the workspace and
    another one configured in the settings, both valid for both probes,
    [ToolManager.findTool] returns the workspace build, not the
    configured override: it tries the workspace first. *)
Lemma override_not_first_in_ToolManager :
  configuration builtAndConfigured !! "veyra-fmtPath" = Some configuredFormatter /\
  isExecutableAvailable builtAndConfigured configuredFormatter = true /\
  ToolManager.isExecutableAvailable builtAndConfigured configuredFormatter = true /\
  ToolManager.searchPaths builtAndConfigured "veyra-fmt" =
    [workspaceFormatter; "/work/tools/target/debug/veyra-fmt"; configuredFormatter; "veyra-fmt"] /\
  ToolManager.findTool builtAndConfigured "veyra-fmt" = Some workspaceFormatter /\
  ToolManager.findTool builtAndConfigured "veyra-fmt" <> Some configuredFormatter.
Proof.
  split; [reflexivity|]. split; [reflexivity|]. split; [reflexivity|].
  split; [reflexivity|]. split; [reflexivity|]. discriminate.
Qed.

(** [C2, as amended] [findVeyraTool] evaluates its candidates in the
    order: the configured override (when set), the bare tool name, the
    name with .exe, then for each workspace folder in turn its build
    outputs (tools/target release, debug, then target release, debug)
    followed by the tools/target release and debug outputs of its three
    nearest ancestors, nearest first.  It returns the first candidate
    its probe accepts, so a configured override that the probe accepts is
    the result whatever else is valid.  [ToolManager.findTool] uses
    another order: the first workspace folder's tools/target release
    and debug outputs, then the configured override, then the bare name;
    it too returns the first candidate its own probe accepts, so a
    workspace build wins over a configured override there. *)
Theorem resolution_order env toolName :
  let exe := toolName +:+ ".exe" in
  let configured := configGet env (toolName +:+ "Path") in
  let execName := if String.eqb (platform env) "win32" then exe else toolName in
  possiblePaths env toolName =
    (if nonEmpty configured then [configured] else [])
    ++ [toolName; exe]
    ++ flat_map (fun w =>
         [join env [w; "tools"; "target"; "release"; exe];
          join env [w; "tools"; "target"; "debug"; exe];
          join env [w; "target"; "release"; exe];
          join env [w; "target"; "debug"; exe];
          join env [dirname env w; "tools"; "target"; "release"; exe];
          join env [dirname env w; "tools"; "target"; "debug"; exe];
          join env [dirname env (dirname env w); "tools"; "target"; "release"; exe];
          join env [dirname env (dirname env w); "tools"; "target"; "debug"; exe];
          join env [dirname env (dirname env (dirname env w)); "tools"; "target"; "release"; exe];
          join env [dirname env (dirname env (dirname env w)); "tools"; "target"; "debug"; exe]])
         (default [] (workspaceFolders env)) /\
  (forall p, findVeyraTool env toolName = Some p <->
     exists before after,
       possiblePaths env toolName = before ++ p :: after /\
       isExecutableAvailable env p = true /\
       Forall (fun q => isExecutableAvailable env q = false) before) /\
  (findVeyraTool env toolName = None <->
     Forall (fun q => isExecutableAvailable env q = false) (possiblePaths env toolName)) /\
  (nonEmpty configured = true -> isExecutableAvailable env configured = true ->
     findVeyraTool env toolName = Some configured) /\
  ToolManager.searchPaths env toolName =
    match workspaceFolders env with
    | Some (w :: _) => [join env [w; "tools"; "target"; "release"; execName];
                        join env [w; "tools"; "target"; "debug"; execName]]
    | _ => []
    end
    ++ (if nonEmpty configured then [configured] else [])
    ++ [toolName] /\
  (forall p, ToolManager.findTool env toolName = Some p <->
     exists before after,
       ToolManager.searchPaths env toolName = before ++ p :: after /\
       ToolManager.isExecutableAvailable env p = true /\
       Forall (fun q => ToolManager.isExecutableAvailable env q = false) before) /\
  (forall w others,
     workspaceFolders env = Some (w :: others) ->
     ToolManager.isExecutableAvailable env
       (join env [w; "tools"; "target"; "release"; execName]) = true ->
     ToolManager.findTool env toolName =
       Some (join env [w; "tools"; "target"; "release"; execName])).
Proof.
  intros exe configured execName.
  split; [apply possiblePaths_order|].
  split; [intros p; apply find_first|].
  split; [apply find_none|].
  split; [apply override_first|].
  split.
  - unfold ToolManager.searchPaths, configured, configGet. fold exe. fold execName.
    destruct (configuration env !! (toolName +:+ "Path")) as [c|]; simpl;
      [destruct (nonEmpty c)|]; reflexivity.
  - split; [intros p; apply find_first|].
    intros w others Hw Ha. unfold ToolManager.findTool, ToolManager.searchPaths.
    fold exe. fold execName. rewrite Hw. simpl. now rewrite Ha.
Qed.

Lemma resolution_order_witness :
  findVeyraTool builtAndConfigured "veyra-fmt" = Some configuredFormatter /\
  ToolManager.findTool builtAndConfigured "veyra-fmt" = Some workspaceFormatter.
Proof.
  pose proof (resolution_order builtAndConfigured "veyra-fmt") as H.
  cbv zeta in H. destruct H as [_ [_ [_ [H1 [_ [_ H2]]]]]].
  split.
  - apply H1; reflexivity.
  - apply (H2 "/work" []); reflexivity.
Defined.

End DiscoveryClaims.

(** ** Claims about validation scheduling *)
Module SchedulerClaims.
Import Parser Scheduler Examples.

(** *** The event loop *)

(** [Hin : t ∈ [x]]: replace [t] by [x]. *)
Ltac only_timer Hin :=
  cbn in Hin; apply list_elem_of_singleton in Hin; subst; cbn.

Lemma filter_nothing {A : Type} (P : A -> Prop) `{forall x, Decision (P x)} (l : list A) :
  (forall x, x ∈ l -> ~ P x) -> filter P l = [].
Proof.
  induction l as [|a l IH]; intros Hl; [reflexivity|].
  rewrite filter_cons_False by (apply Hl; left).
  apply IH. intros x Hx. apply Hl. now right.
Qed.

Lemma filter_everything {A : Type} (P : A -> Prop) `{forall x, Decision (P x)} (l : list A) :
  (forall x, x ∈ l -> P x) -> filter P l = l.
Proof.
  induction l as [|a l IH]; intros Hl; [reflexivity|].
  rewrite filter_cons_True by (apply Hl; left).
  f_equal. apply IH. intros x Hx. apply Hl. now right.
Qed.

(** While no timer is due nothing runs; only the clock moves. *)
Lemma elapse_idle now s :
  (forall t, t ∈ timers s -> now < due t) ->
  elapse now s =
  {| compilerPath := compilerPath s; diagnosticCollection := diagnosticCollection s;
     timeoutId := timeoutId s; timers := timers s; nextTimer := nextTimer s;
     running := running s; spawned := spawned s; clock := Z.max (clock s) now |}.
Proof.
  intros Hd. unfold elapse.
  rewrite (filter_nothing (fun t => due t <= now)) by (intros t Ht; specialize (Hd t Ht); lia).
  rewrite (filter_everything (fun t => now < due t)) by exact Hd.
  reflexivity.
Qed.

(** A change event on a Veyra document cancels the armed timer,
    whichever document it was armed for, and arms one for the changed
    document, due 500 ms later. *)
Lemma change_rearms doc s :
  isVeyra doc = true -> tracked s ->
  onDidChangeTextDocument doc s =
  {| compilerPath := compilerPath s; diagnosticCollection := diagnosticCollection s;
     timeoutId := Some (nextTimer s);
     timers := [mkTimer (nextTimer s) (clock s + 500) doc];
     nextTimer := S (nextTimer s);
     running := running s; spawned := spawned s; clock := clock s |}.
Proof.
  intros Hv Ht. unfold onDidChangeTextDocument. rewrite Hv.
  destruct (timeoutId s) as [id|] eqn:E.
  - unfold setTimeout, clearTimeout. simpl.
    rewrite (filter_nothing (fun t => timerId t <> id)); [reflexivity|].
    intros t Hin Hne. apply (proj2 Ht) in Hin. congruence.
  - unfold setTimeout.
    destruct (timers s) as [|t ts] eqn:Et; [reflexivity|].
    assert (Hin : t ∈ timers s) by (rewrite Et; left).
    apply (proj2 Ht) in Hin. congruence.
Qed.

(** When the only timer is due, its callback starts a process. *)
Lemma elapse_fires now s t :
  timers s = [t] -> due t <= now -> hasCompiler s = true ->
  elapse now s =
  {| compilerPath := compilerPath s; diagnosticCollection := diagnosticCollection s;
     timeoutId := timeoutId s; timers := []; nextTimer := nextTimer s;
     running := running s ++ [mkRun (spawned s) (target t)];
     spawned := S (spawned s); clock := Z.max (clock s) now |}.
Proof.
  intros Ht Hd Hc. unfold elapse. rewrite Ht.
  rewrite (filter_everything (fun t => due t <= now))
    by (intros x Hx; apply list_elem_of_singleton in Hx; now subst).
  rewrite (filter_nothing (fun t => now < due t))
    by (intros x Hx; apply list_elem_of_singleton in Hx; subst; lia).
  simpl. unfold validateDocument. rewrite Hc. reflexivity.
Qed.

Lemma tracked_single cp dc id due_ doc nt rn sp ck :
  tracked {| compilerPath := cp; diagnosticCollection := dc; timeoutId := Some id;
             timers := [mkTimer id due_ doc]; nextTimer := nt; running := rn;
             spawned := sp; clock := ck |}.
Proof.
  split; [simpl; lia|].
  intros t Hin. simpl in *. apply list_elem_of_singleton in Hin. now subst.
Qed.

Lemma fire_timeoutId ts : forall s, timeoutId (fire ts s) = timeoutId s.
Proof.
  induction ts as [|t ts IH]; intros s; [reflexivity|].
  simpl. rewrite IH. unfold validateDocument.
  destruct (negb (hasCompiler s)); reflexivity.
Qed.

Lemma tracked_step te s : tracked s -> tracked (step te s).
Proof.
  intros Ht.
  assert (He : tracked (elapse (fst te) s)).
  { split.
    - unfold elapse. simpl.
      pose proof (length_filter (fun t => fst te < due t) (timers s)) as Hle.
      destruct Ht as [Hone _]. lia.
    - intros t Hin. unfold elapse in Hin. simpl in Hin.
      apply list_elem_of_filter in Hin. destruct Hin as [_ Hin].
      apply (proj2 Ht) in Hin. unfold elapse. simpl. now rewrite fire_timeoutId. }
  unfold step. destruct (snd te) as [doc|doc|doc|doc|id r view]; simpl.
  - unfold onDidOpenTextDocument, validateDocument.
    destruct (isVeyra doc); [|exact He].
    destruct (negb (hasCompiler _)); exact He.
  - destruct (isVeyra doc) eqn:Hv.
    + rewrite (change_rearms doc _ Hv He). apply tracked_single.
    + unfold onDidChangeTextDocument. rewrite Hv. exact He.
  - unfold onDidSaveTextDocument, validateDocument.
    destruct (isVeyra doc); [|exact He].
    destruct (negb (hasCompiler _)); exact He.
  - unfold onDidCloseTextDocument. destruct (isVeyra doc); exact He.
  - unfold onSettled. destruct (List.find _ _); [|exact He].
    unfold validateDocument_resume. destruct (fulfilled r); [exact He|].
    destruct (parseCompilerErrors _ _); exact He.
Qed.

(** In every state the extension reaches, at most the timer of
    [timeoutId] is armed. *)
Lemma tracked_run trace : forall s, tracked s -> tracked (run trace s).
Proof.
  induction trace as [|te trace IH]; intros s Hs; [exact Hs|].
  simpl. apply IH. now apply tracked_step.
Qed.

Lemma tracked_initial compiler : tracked (initial compiler).
Proof. split; [simpl; lia|]. intros t Hin. simpl in Hin. inversion Hin. Qed.

Lemma tracked_setupDiagnostics textDocuments : forall s,
  tracked s -> tracked (setupDiagnostics textDocuments s).
Proof.
  induction textDocuments as [|doc docs IH]; intros s Hs; [exact Hs|].
  unfold setupDiagnostics. simpl. apply IH.
  destruct (isVeyra doc); [|exact Hs].
  unfold validateDocument. destruct (negb (hasCompiler s)); exact Hs.
Qed.

Lemma tracked_activated compiler textDocuments : tracked (activated compiler textDocuments).
Proof. apply tracked_setupDiagnostics, tracked_initial. Qed.

#[local] Arguments elapse : simpl never.
#[local] Arguments step : simpl never.

(** A change event delivered while no timer is due. *)
Lemma step_change now doc s :
  isVeyra doc = true -> tracked s ->
  (forall t, t ∈ timers s -> now < due t) -> clock s <= now ->
  step (now, DidChange doc) s =
  {| compilerPath := compilerPath s; diagnosticCollection := diagnosticCollection s;
     timeoutId := Some (nextTimer s);
     timers := [mkTimer (nextTimer s) (now + 500) doc];
     nextTimer := S (nextTimer s);
     running := running s; spawned := spawned s; clock := now |}.
Proof.
  intros Hv Ht Hd Hc. unfold step. cbn [fst snd dispatch].
  rewrite (elapse_idle now s Hd).
  rewrite change_rearms; [|exact Hv|exact Ht]. simpl.
  now replace (Z.max (clock s) now) with now by lia.
Qed.

(** [C7] A burst of three change events to the same Veyra document
    ([d1], [d2], [d3]: the document as each event carries it), each
    arriving less than 500 ms after the previous one, with a compiler
    resolved: each event replaces the armed timer by a new one due
    500 ms after it, nothing is started before the last timer is due, and
    once it is due exactly one process has been started, for that
    document, and no timer is left. *)
Theorem burst_single_invocation s d1 d2 d3 t1 t2 t3 T :
  isVeyra d1 = true -> isVeyra d2 = true -> isVeyra d3 = true ->
  uri d2 = uri d1 -> uri d3 = uri d1 ->
  hasCompiler s = true ->
  tracked s -> (forall t, t ∈ timers s -> t1 < due t) ->
  clock s <= t1 -> t1 <= t2 < t1 + 500 -> t2 <= t3 < t2 + 500 -> t3 + 500 <= T ->
  let burst := [(t1, DidChange d1); (t2, DidChange d2); (t3, DidChange d3)] in
  timers (run [(t1, DidChange d1)] s) = [mkTimer (nextTimer s) (t1 + 500) d1] /\
  timers (run [(t1, DidChange d1); (t2, DidChange d2)] s)
  = [mkTimer (S (nextTimer s)) (t2 + 500) d2] /\
  timers (run burst s) = [mkTimer (S (S (nextTimer s))) (t3 + 500) d3] /\
  (forall T', t3 <= T' < t3 + 500 -> spawned (elapse T' (run burst s)) = spawned s) /\
  spawned (elapse T (run burst s)) = S (spawned s) /\
  running (elapse T (run burst s)) = running s ++ [mkRun (spawned s) d3] /\
  timers (elapse T (run burst s)) = [].
Proof.
  intros Hv1 Hv2 Hv3 _ _ Hc Ht Hd Hck H12 H23 HT burst. unfold burst, run.
  cbn [fold_left].
  rewrite (step_change t1 d1 s Hv1 Ht Hd Hck).
  split; [reflexivity|].
  rewrite step_change; [|exact Hv2|apply tracked_single| |cbn; lia].
  2: { intros t Hin. only_timer Hin. lia. }
  cbn [nextTimer spawned running compilerPath diagnosticCollection timers].
  split; [reflexivity|].
  rewrite step_change; [|exact Hv3|apply tracked_single| |cbn; lia].
  2: { intros t Hin. only_timer Hin. lia. }
  cbn [nextTimer spawned running compilerPath diagnosticCollection timers].
  split; [reflexivity|].
  split.
  - intros T' HT'. rewrite elapse_idle; [reflexivity|].
    intros t Hin. only_timer Hin. lia.
  - rewrite (elapse_fires T _ (mkTimer (S (S (nextTimer s))) (t3 + 500) d3));
      [|reflexivity|cbn; lia|exact Hc].
    cbn. auto.
Qed.

Lemma burst_single_invocation_witness :
  spawned (elapse 1000 (run [(0, DidChange tenLines); (120, DidChange tenLines);
                             (300, DidChange tenLines)] ready)) = 1%nat /\
  spawned (elapse 799 (run [(0, DidChange tenLines); (120, DidChange tenLines);
                            (300, DidChange tenLines)] ready)) = 0%nat.
Proof.
  assert (H : forall t, t ∈ timers ready -> 0 < due t)
    by (intros t Hin; simpl in Hin; inversion Hin).
  pose proof (burst_single_invocation ready tenLines tenLines tenLines 0 120 300 1000
                eq_refl eq_refl eq_refl eq_refl eq_refl eq_refl
                (tracked_initial _) H ltac:(cbn; lia) ltac:(lia) ltac:(lia) ltac:(lia)) as B.
  cbv zeta in B.
  destruct B as [_ [_ [_ [B1 [B2 _]]]]].
  split; [exact B2|]. apply B1. lia.
Defined.

(** *** Settling of a validation run *)

Lemma fulfilled_exit r : fulfilled r = true <-> exit r = Discovery.Exited 0.
Proof.
  unfold fulfilled. destruct (exit r) as [[| |]| | |]; split; intros H;
    try discriminate; reflexivity.
Qed.

Lemma unfulfilled_exit r : fulfilled r = false <-> exit r <> Discovery.Exited 0.
Proof.
  rewrite <- fulfilled_exit. destruct (fulfilled r); split; intros H; congruence.
Qed.

(** The continuation of [validateDocument] changes the entry of its own
    document to what the run leaves, and no other entry. *)
Lemma resume_entry doc view r s :
  diagnosticCollection (validateDocument_resume doc view r s) !! uri doc
  = published r view (diagnosticCollection s !! uri doc).
Proof.
  unfold validateDocument_resume, published, errorText.
  destruct (fulfilled r); [apply lookup_delete_eq|].
  destruct (parseCompilerErrors _ view); [apply lookup_insert_eq|reflexivity].
Qed.

Lemma resume_elsewhere doc view r s u :
  uri doc <> u ->
  diagnosticCollection (validateDocument_resume doc view r s) !! u
  = diagnosticCollection s !! u.
Proof.
  intros Hu. unfold validateDocument_resume.
  destruct (fulfilled r); [now apply lookup_delete_ne|].
  destruct (parseCompilerErrors _ view); [now apply lookup_insert_ne|reflexivity].
Qed.

Lemma settled_collection id r view s p :
  List.find (fun q => Nat.eqb (runId q) id) (running s) = Some p ->
  diagnosticCollection (onSettled id r view s) !! uri (document p)
  = published r view (diagnosticCollection s !! uri (document p)).
Proof.
  intros Hp. unfold onSettled. rewrite Hp. cbn [diagnosticCollection].
  apply resume_entry.
Qed.

(** What a run leaves, case by case. *)
Lemma published_cases r view previous :
  (exit r = Discovery.Exited 0 -> published r view previous = None) /\
  (exit r <> Discovery.Exited 0 ->
   (forall ds, parseCompilerErrors (errorText r) view = Returns ds ->
               published r view previous = Some ds) /\
   (forall e, parseCompilerErrors (errorText r) view = Raises e ->
              published r view previous = previous)).
Proof.
  unfold published. split.
  - intros He. apply fulfilled_exit in He. now rewrite He.
  - intros He. apply unfulfilled_exit in He. rewrite He.
    split; [intros ds ->|intros e ->]; reflexivity.
Qed.

Lemma find_after_filter (a b : nat) (l : list Run) :
  a <> b ->
  List.find (fun q => Nat.eqb (runId q) a) (filter (fun q => runId q <> b) l) =
  List.find (fun q => Nat.eqb (runId q) a) l.
Proof.
  intros Hab. induction l as [|q l IH]; [reflexivity|].
  destruct (decide (runId q = b)) as [E|E].
  - rewrite filter_cons_False by tauto. simpl.
    destruct (Nat.eqb (runId q) a) eqn:Ea; [|exact IH].
    apply Nat.eqb_eq in Ea. congruence.
  - rewrite filter_cons_True by exact E. simpl.
    destruct (Nat.eqb (runId q) a); [reflexivity|exact IH].
Qed.

Lemma resume_running doc view r s :
  running (validateDocument_resume doc view r s) = running s.
Proof.
  unfold validateDocument_resume. destruct (fulfilled r); [reflexivity|].
  destruct (parseCompilerErrors _ _); reflexivity.
Qed.

(** [C3, as stated, fails] A compiler that exits with status 0 after
    printing the lexer report on stderr: the report is recognized, yet
    the continuation of [validateDocument] does not parse it and deletes
    the diagnostics the document had. *)
Lemma clean_exit_clears_report :
  exit cleanExitWithReport = Discovery.Exited 0 /\
  parseCompilerErrors (stderr cleanExitWithReport) tenLines = Returns [ampersand; ampersand] /\
  diagnosticCollection
    (run [(0, DidSave tenLines); (40, Settled 0%nat failureWithReport tenLines);
          (50, DidSave tenLines)] ready) !! uri tenLines
  = Some [ampersand; ampersand] /\
  diagnosticCollection
    (run [(0, DidSave tenLines); (40, Settled 0%nat failureWithReport tenLines);
          (50, DidSave tenLines); (90, Settled 1%nat cleanExitWithReport tenLines)] ready)
    !! uri tenLines
  = None /\
  ~ (forall doc view r s ds,
       exit r = Discovery.Exited 0 ->
       parseCompilerErrors (stderr r) view = Returns ds -> ds <> [] ->
       diagnosticCollection (validateDocument_resume doc view r s) !! uri doc = Some ds).
Proof.
  split; [reflexivity|]. split; [vm_compute; reflexivity|].
  split; [vm_compute; reflexivity|]. split; [vm_compute; reflexivity|].
  intros H.
  specialize (H tenLines tenLines cleanExitWithReport ready [ampersand; ampersand] eq_refl).
  assert (Hp : parseCompilerErrors (stderr cleanExitWithReport) tenLines
               = Returns [ampersand; ampersand]) by (vm_compute; reflexivity).
  specialize (H Hp ltac:(discriminate)).
  vm_compute in H. discriminate.
Qed.

(** [C3, as amended] Diagnostic production branches on the way the
    process ends.  When it exits with status 0 the diagnostics of the
    document are cleared, whatever it printed.  In every other case (a
    non-zero status, a signal, the timeout, a spawn failure) the text of
    stderr, or of stdout when stderr is empty, or the error message when
    both are empty, is parsed.  When the parser returns, its diagnostics
    replace the diagnostics of the document; when it throws, which it
    does exactly when a report recognized in the text has a blank
    message, the state is left as it was, the diagnostics of the document
    included. *)
Theorem exit_status_decides doc view r s :
  (exit r = Discovery.Exited 0 ->
     diagnosticCollection (validateDocument_resume doc view r s)
     = delete (uri doc) (diagnosticCollection s)) /\
  (exit r <> Discovery.Exited 0 ->
     (forall ds,
        parseCompilerErrors (errorText r) view = Returns ds ->
        diagnosticCollection (validateDocument_resume doc view r s)
        = <[uri doc := ds]> (diagnosticCollection s)) /\
     (forall e,
        parseCompilerErrors (errorText r) view = Raises e ->
        validateDocument_resume doc view r s = s) /\
     exists mss,
       matchesOf (errorText r) mss /\
       if existsb blankMessage (concat mss)
       then parseCompilerErrors (errorText r) view = Raises MessageNotSet
       else exists ds, parseCompilerErrors (errorText r) view = Returns ds).
Proof.
  split; intros He.
  - apply fulfilled_exit in He. unfold validateDocument_resume. now rewrite He.
  - apply unfulfilled_exit in He.
    split; [|split].
    + intros ds Hds. unfold validateDocument_resume. fold (errorText r).
      now rewrite He, Hds.
    + intros e Hds. unfold validateDocument_resume. fold (errorText r).
      now rewrite He, Hds.
    + destruct (ParserClaims.parse_structure (errorText r) view) as [mss [H1 _]].
      exists mss. split; [exact H1|].
      pose proof (ParserClaims.parse_outcome (errorText r) view mss H1) as Ho.
      destruct (existsb blankMessage (concat mss)); [exact Ho|].
      destruct Ho as [ds [E _]]. eauto.
Qed.

Lemma exit_status_decides_witness :
  diagnosticCollection (validateDocument_resume tenLines tenLines cleanExitWithReport ready)
  = delete (uri tenLines) (diagnosticCollection ready) /\
  diagnosticCollection (validateDocument_resume tenLines tenLines failureWithReport ready)
  = <[uri tenLines := [ampersand; ampersand]]> (diagnosticCollection ready) /\
  validateDocument_resume tenLines tenLines failureBlank
    (validateDocument_resume tenLines tenLines failureWithReport ready)
  = validateDocument_resume tenLines tenLines failureWithReport ready.
Proof.
  split; [|split].
  - apply (proj1 (exit_status_decides tenLines tenLines cleanExitWithReport ready)).
    reflexivity.
  - apply (proj1 (proj2 (exit_status_decides tenLines tenLines failureWithReport ready)
                          ltac:(discriminate))).
    vm_compute. reflexivity.
  - apply (proj1 (proj2 (proj2 (exit_status_decides tenLines tenLines failureBlank
                                   (validateDocument_resume tenLines tenLines
                                      failureWithReport ready))
                                ltac:(discriminate))) MessageNotSet).
    vm_compute. reflexivity.
Defined.

(** [C5, as stated, fails] Two runs for the same document, the second
    started after the first.  The second settles first and its
    diagnostic is published; when the first, stale run settles, its
    diagnostics overwrite it. *)
Lemma stale_run_overwrites :
  map runId (running (run [(0, DidSave tenLines); (10, DidSave tenLines)] ready)) = [0; 1]%nat /\
  diagnosticCollection
    (run [(0, DidSave tenLines); (10, DidSave tenLines);
          (20, Settled 1%nat failureFar tenLines)] ready) !! uri tenLines
  = Some [farDiagnostic] /\
  diagnosticCollection
    (run [(0, DidSave tenLines); (10, DidSave tenLines);
          (20, Settled 1%nat failureFar tenLines);
          (30, Settled 0%nat failureWithReport tenLines)] ready) !! uri tenLines
  = Some [ampersand; ampersand].
Proof. repeat split; vm_compute; reflexivity. Qed.

(** [C5, as amended] Runs carry no sequence number and no completion is
    discarded on account of its age: whenever a run in flight settles,
    what it leaves ([published]) becomes the entry of its document,
    whatever the order in which the runs were started.  So if run [b]
    settles and then run [a] of the same document, also when [a] was
    started before [b], the diagnostics are cleared when [a] exited with
    status 0 and are those parsed from [a]'s error text when [a] failed
    and the parser returned; only when the parser throws on [a]'s error
    text do the diagnostics that [b] left stay. *)
Theorem last_settled_wins s a b ra rb va vb pa pb :
  List.find (fun q => Nat.eqb (runId q) a) (running s) = Some pa ->
  List.find (fun q => Nat.eqb (runId q) b) (running s) = Some pb ->
  a <> b -> uri (document pa) = uri (document pb) ->
  let u := uri (document pb) in
  let afterB := onSettled b rb vb s in
  let afterA := onSettled a ra va afterB in
  diagnosticCollection afterB !! u = published rb vb (diagnosticCollection s !! u) /\
  diagnosticCollection afterA !! u = published ra va (diagnosticCollection afterB !! u) /\
  (exit ra = Discovery.Exited 0 -> diagnosticCollection afterA !! u = None) /\
  (exit ra <> Discovery.Exited 0 ->
   forall ds, parseCompilerErrors (errorText ra) va = Returns ds ->
              diagnosticCollection afterA !! u = Some ds) /\
  (exit ra <> Discovery.Exited 0 ->
   forall e, parseCompilerErrors (errorText ra) va = Raises e ->
             diagnosticCollection afterA !! u = diagnosticCollection afterB !! u).
Proof.
  intros Ha Hb Hab Hu u afterB afterA.
  assert (HB : diagnosticCollection afterB !! u
               = published rb vb (diagnosticCollection s !! u))
    by now apply settled_collection.
  assert (HA : diagnosticCollection afterA !! u
               = published ra va (diagnosticCollection afterB !! u)).
  { unfold u. rewrite <- Hu. apply settled_collection.
    unfold afterB, onSettled at 1. rewrite Hb. cbn [running].
    rewrite resume_running. now rewrite find_after_filter. }
  split; [exact HB|]. split; [exact HA|].
  destruct (published_cases ra va (diagnosticCollection afterB !! u)) as [P1 P2].
  split; [intros He; now rewrite HA, P1|].
  split; intros He; destruct (P2 He) as [P3 P4].
  - intros ds Hds. now rewrite HA, (P3 ds Hds).
  - intros e Hds. now rewrite HA, (P4 e Hds).
Qed.

Lemma last_settled_wins_witness :
  let s := run [(0, DidSave tenLines); (10, DidSave tenLines)] ready in
  diagnosticCollection
    (onSettled 0 failureWithReport tenLines (onSettled 1 failureFar tenLines s)) !! uri tenLines
  = Some [ampersand; ampersand] /\
  diagnosticCollection
    (onSettled 0 failureBlank tenLines (onSettled 1 failureFar tenLines s)) !! uri tenLines
  = diagnosticCollection (onSettled 1 failureFar tenLines s) !! uri tenLines.
Proof.
  split.
  - apply (proj1 (proj2 (proj2 (proj2
             (last_settled_wins
                (run [(0, DidSave tenLines); (10, DidSave tenLines)] ready)
                0%nat 1%nat failureWithReport failureFar tenLines tenLines
                (mkRun 0 tenLines) (mkRun 1 tenLines)
                eq_refl eq_refl ltac:(discriminate) eq_refl))))
           ltac:(discriminate)).
    vm_compute. reflexivity.
  - apply (proj2 (proj2 (proj2 (proj2
             (last_settled_wins
                (run [(0, DidSave tenLines); (10, DidSave tenLines)] ready)
                0%nat 1%nat failureBlank failureFar tenLines tenLines
                (mkRun 0 tenLines) (mkRun 1 tenLines)
                eq_refl eq_refl ltac:(discriminate) eq_refl))))
           ltac:(discriminate) MessageNotSet).
    vm_compute. reflexivity.
Defined.

(** [C6, as stated, fails] A change of one document is validated once
    the debounce has passed; but a change of another document within
    the window cancels that pending validation, and only the other
    document is validated. *)
Lemma change_elsewhere_cancels :
  uri tenLines <> uri tenBlankLines /\
  map document (running (elapse 1000 (run [(0, DidChange tenLines)] ready))) = [tenLines] /\
  map target (timers (run [(0, DidChange tenLines); (100, DidChange tenBlankLines)] ready))
  = [tenBlankLines] /\
  map document
    (running (elapse 1000 (run [(0, DidChange tenLines); (100, DidChange tenBlankLines)] ready)))
  = [tenBlankLines] /\
  timers (elapse 1000 (run [(0, DidChange tenLines); (100, DidChange tenBlankLines)] ready)) = [].
Proof. split; [discriminate|]. repeat split; vm_compute; reflexivity. Qed.

(** [C6, as amended] The pending debounced validation is one timer
    shared by all documents: in every state the extension reaches, any
    armed timer is the one of [timeoutId], and a change event on a
    Veyra document cancels it, whichever document it was armed for, and
    arms a timer for the changed document.  What is kept per document
    are the diagnostics: the settling of a run changes the entry of its
    own document only; and starting a validation leaves the runs in
    flight, of whatever document, in place. *)
Theorem debounce_timer_shared :
  (forall trace compiler textDocuments,
     tracked (run trace (activated compiler textDocuments))) /\
  (forall s doc, isVeyra doc = true -> tracked s ->
     timers (onDidChangeTextDocument doc s) = [mkTimer (nextTimer s) (clock s + 500) doc]) /\
  (forall s id r view p u,
     List.find (fun q => Nat.eqb (runId q) id) (running s) = Some p ->
     uri (document p) <> u ->
     diagnosticCollection (onSettled id r view s) !! u = diagnosticCollection s !! u) /\
  (forall s doc, hasCompiler s = true ->
     running (validateDocument doc s) = running s ++ [mkRun (spawned s) doc]).
Proof.
  split; [intros trace compiler textDocuments; apply tracked_run, tracked_activated|].
  split; [intros s doc Hv Ht; now rewrite change_rearms|].
  split.
  - intros s id r view p u Hp Hu. unfold onSettled. rewrite Hp. cbn [diagnosticCollection].
    now apply resume_elsewhere.
  - intros s doc Hc. unfold validateDocument. now rewrite Hc.
Qed.

Lemma debounce_timer_shared_witness :
  timers (onDidChangeTextDocument tenBlankLines (run [(0, DidChange tenLines)] ready))
  = [mkTimer 1 (0 + 500) tenBlankLines] /\
  running (validateDocument tenBlankLines (run [(0, DidSave tenLines)] ready))
  = [mkRun 0 tenLines; mkRun 1 tenBlankLines].
Proof.
  destruct debounce_timer_shared as [H1 [H2 [_ H4]]].
  split.
  - apply (H2 (run [(0, DidChange tenLines)] ready) tenBlankLines eq_refl).
    apply (H1 [(0, DidChange tenLines)] (Some "veyc") []).
  - apply (H4 (run [(0, DidSave tenLines)] ready) tenBlankLines eq_refl).
Defined.

End SchedulerClaims.

(** ** Further properties of the parser *)
Module ParserExtras.
Import JsString RegExp Parser ParserNotions RegExpFacts ParserFacts Examples.

(** *** findTokenEnd *)

Lemma advance_stop fuel cls line end0 :
  (end0 <? len line) && test cls (at_ line end0) = false ->
  advance fuel cls line end0 = Returns end0.
Proof. intros H. destruct fuel; simpl; rewrite H; reflexivity. Qed.

(** What the scanning loop has passed over when it returns. *)
Lemma advance_run cls line : forall fuel end0 e,
  advance fuel cls line end0 = Returns e ->
  end0 <= e /\
  (forall i, end0 <= i < e -> i < len line /\ test cls (at_ line i) = true) /\
  (e <? len line) && test cls (at_ line e) = false.
Proof.
  induction fuel as [|fuel IH]; intros end0 e H; simpl in H;
    destruct ((end0 <? len line) && test cls (at_ line end0)) eqn:E; try discriminate.
  - injection H as <-. split; [lia|]. split; [intros i Hi; lia|exact E].
  - destruct (IH _ _ H) as [H1 [H2 H3]].
    apply andb_true_iff in E. destruct E as [E1 E2]. apply Z.ltb_lt in E1.
    split; [lia|]. split; [|exact H3].
    intros i Hi. destruct (Z.eq_dec i end0) as [->|Hne]; [auto|].
    apply H2. lia.
  - injection H as <-. split; [lia|]. split; [intros i Hi; lia|exact E].
Qed.

Lemma at_inside line i : 0 <= i < len line -> exists c, at_ line i = Some c.
Proof.
  intros [H0 H1]. unfold at_, charAt.
  destruct (i <? 0) eqn:E; [apply Z.ltb_lt in E; lia|].
  unfold len in H1. assert (Hn : (Z.to_nat i < String.length line)%nat) by lia.
  clear - Hn. revert Hn. generalize (Z.to_nat i). clear i.
  induction line as [|c line IH]; intros n Hn; simpl in *; [lia|].
  destruct n; [eauto|]. apply IH. lia.
Qed.

(** The three classes of [findTokenEnd] exclude one another. *)
Lemma word_not_blank_nor_delimiter c :
  isWordChar c = true -> isSpace c = false /\ isDelimiter c = false.
Proof.
  destruct c as [[] [] [] [] [] [] [] []]; vm_compute; intros H;
    first [discriminate H | split; reflexivity].
Qed.

(** [X1] A token that is one character: when the character at [start]
    is a delimiter, or is neither white space nor a word character (an
    operator, a quote, ...), [findTokenEnd] returns [start + 1]. *)
Theorem findTokenEnd_single_character line start_ c :
  0 <= start_ < len line ->
  at_ line start_ = Some c ->
  isSpace c = false ->
  isDelimiter c = true \/ isWordChar c = false ->
  findTokenEnd line start_ = Returns (start_ + 1).
Proof.
  intros Hs Hc Hsp Hk. unfold findTokenEnd.
  rewrite advance_stop by (rewrite Hc; simpl; rewrite Hsp; apply andb_false_r).
  cbn [bind]. rewrite Hc. cbn [test].
  assert (Hlt : (start_ <? len line) = true) by (apply Z.ltb_lt; lia).
  rewrite Hlt. destruct (isDelimiter c) eqn:Ed; [reflexivity|]. cbn [andb].
  destruct Hk as [Hk|Hk]; [discriminate|].
  rewrite advance_stop by (rewrite Hc; simpl; rewrite Hk; apply andb_false_r).
  cbn [bind]. f_equal. lia.
Qed.

Lemma findTokenEnd_single_character_witness :
  findTokenEnd "a & b;" 2 = Returns 3 /\ findTokenEnd "f(x)" 1 = Returns 2.
Proof.
  split.
  - apply (findTokenEnd_single_character "a & b;" 2 "&"%char);
      [vm_compute; split; [discriminate|reflexivity] | reflexivity | reflexivity
      | right; reflexivity].
  - apply (findTokenEnd_single_character "f(x)" 1 "("%char);
      [vm_compute; split; [discriminate|reflexivity] | reflexivity | reflexivity
      | left; reflexivity].
Defined.

(** [X2] A word: when the character at [start] is a letter, a digit
    or an underscore, [findTokenEnd] returns the end of the maximal run of
    such characters that begins at [start]. *)
Theorem findTokenEnd_word line start_ :
  0 <= start_ < len line ->
  charIs isWordChar line start_ ->
  exists e,
    findTokenEnd line start_ = Returns e /\
    start_ < e <= len line /\
    (forall i, start_ <= i < e -> charIs isWordChar line i) /\
    (e = len line \/ charIs (fun c => negb (isWordChar c)) line e).
Proof.
  intros Hs [c [Hc Hw]].
  destruct (word_not_blank_nor_delimiter c Hw) as [Hsp Hd].
  unfold findTokenEnd.
  rewrite advance_stop by (rewrite Hc; simpl; rewrite Hsp; apply andb_false_r).
  cbn [bind]. rewrite Hc. cbn [test]. rewrite Hd, andb_false_r.
  destruct (advance_returns isWordChar line (Z.to_nat (len line - start_)) start_)
    as [e [He [Hb Hstop]]]; try lia.
  rewrite He. cbn [bind].
  destruct (advance_run _ _ _ _ _ He) as [_ [Hrun _]].
  assert (Hlt : start_ < e).
  { destruct (Z.eq_dec e start_) as [->|Hne]; [|lia].
    rewrite Hc in Hstop. simpl in Hstop. rewrite Hw in Hstop.
    apply andb_false_iff in Hstop. destruct Hstop as [H|H]; [|discriminate].
    apply Z.ltb_ge in H. lia. }
  exists e. replace (Z.max e (start_ + 1)) with e by lia.
  split; [reflexivity|]. split; [lia|]. split.
  - intros i Hi. destruct (Hrun i Hi) as [Hil Hit].
    destruct (at_inside line i) as [a Ha]; [lia|].
    exists a. split; [exact Ha|]. now rewrite Ha in Hit.
  - destruct (Z.eq_dec e (len line)) as [->|Hne]; [now left|right].
    destruct (at_inside line e) as [a Ha]; [lia|].
    exists a. split; [exact Ha|]. rewrite Ha in Hstop. simpl in Hstop.
    apply andb_false_iff in Hstop. destruct Hstop as [H|H].
    + apply Z.ltb_ge in H. lia.
    + now rewrite H.
Qed.

Lemma findTokenEnd_word_witness :
  exists e,
    findTokenEnd "print(total_1);" 6 = Returns e /\
    6 < e <= len "print(total_1);" /\
    (forall i, 6 <= i < e -> charIs isWordChar "print(total_1);" i) /\
    (e = len "print(total_1);" \/
     charIs (fun c => negb (isWordChar c)) "print(total_1);" e).
Proof.
  apply (findTokenEnd_word "print(total_1);" 6).
  - vm_compute. split; [discriminate|reflexivity].
  - exists "t"%char. split; reflexivity.
Defined.

(** [X3] Leading white space belongs to the range: when only white
    space follows [start] on the line, [findTokenEnd] returns the length
    of the line. *)
Theorem findTokenEnd_blank_tail line start_ :
  0 <= start_ < len line ->
  (forall i, start_ <= i < len line -> charIs isSpace line i) ->
  findTokenEnd line start_ = Returns (len line).
Proof.
  intros Hs Hblank. unfold findTokenEnd.
  destruct (advance_returns isSpace line (Z.to_nat (len line - start_)) start_)
    as [e [He [Hb Hstop]]]; try lia.
  assert (e = len line) as ->.
  { destruct (Z.eq_dec e (len line)) as [|Hne]; [assumption|].
    destruct (Hblank e) as [a [Ha Hsp]]; [lia|].
    rewrite Ha in Hstop. simpl in Hstop. rewrite Hsp in Hstop.
    apply andb_false_iff in Hstop. destruct Hstop as [H|H]; [|discriminate].
    apply Z.ltb_ge in H. lia. }
  rewrite He. cbn [bind]. rewrite Z.ltb_irrefl. cbn [andb].
  rewrite advance_stop by (rewrite Z.ltb_irrefl; reflexivity).
  cbn [bind]. f_equal. lia.
Qed.

Lemma findTokenEnd_blank_tail_witness : findTokenEnd "x =   " 3 = Returns 6.
Proof.
  apply (findTokenEnd_blank_tail "x =   " 3).
  - vm_compute. split; [discriminate|reflexivity].
  - intros i Hi. change (len "x =   ") with 6 in Hi.
    assert (Hc : i = 3 \/ i = 4 \/ i = 5) by lia.
    exists " "%char. destruct Hc as [->|[->| ->]]; split; reflexivity.
Defined.

(** *** A column past the end of the line *)

(** [X4] When the reported column, made 0-based, is at or past the end
    of the (clamped) line, the diagnostic covers that whole line, from
    column 0 to its length; on an empty line the range is empty. *)
Theorem column_past_end_whole_line document m d l c lineText :
  yields document m d ->
  parseIntGroup 1 m = Returns l ->
  parseIntGroup 2 m = Returns c ->
  lineAt document (validLine document (l - 1)) = Returns lineText ->
  len lineText <= c - 1 ->
  range d = mkRange (mkPosition (validLine document (l - 1)) 0)
                    (mkPosition (validLine document (l - 1)) (len lineText)).
Proof.
  intros Hy Hl Hc Hline Hpast.
  destruct (ParserClaims.yields_inv _ _ _ Hy) as [l' [c' [msg [Hl' [Hc' [_ Hd]]]]]].
  rewrite Hl in Hl'. injection Hl' as <-. rewrite Hc in Hc'. injection Hc' as <-.
  destruct (ParserClaims.diagnosticAt_inv _ _ _ _ _ Hd) as [sc [ec [-> [_ Hout]]]].
  pose proof (lineAt_valid document (l - 1)) as Hv. rewrite Hline in Hv.
  assert (Ht : nth (Z.to_nat (validLine document (l - 1))) (allLines document) EmptyString
               = lineText) by congruence.
  rewrite Ht in Hout.
  destruct Hout as [-> ->]; [unfold validColumn; pose proof (len_nonneg lineText); lia|].
  reflexivity.
Qed.

Lemma column_past_end_whole_line_witness :
  range farDiagnostic = mkRange (mkPosition 9 0) (mkPosition 9 1).
Proof.
  apply (column_past_end_whole_line tenLines
           {| index := 0; stop := 40;
              groups := [(3, "unexpected end"); (2, "7"); (1, "42")]%nat |}
           farDiagnostic 42 7 "}").
  - reflexivity.
  - reflexivity.
  - reflexivity.
  - reflexivity.
  - vm_compute. discriminate.
Defined.

(** *** Text without a digit *)

Lemma literal_suffix ic p : forall s s',
  literal ic p s = Some s' -> exists pre, s = pre +:+ s'.
Proof.
  induction p as [|a p IH]; intros s s' H; simpl in H.
  - injection H as <-. now exists EmptyString.
  - destruct s as [|b s]; [discriminate|].
    destruct (sameChar ic a b); [|discriminate].
    destruct (IH _ _ H) as [pre ->]. now exists (String b pre).
Qed.

Lemma spans_suffix cs : forall s s', In s' (spans cs s) -> exists pre, s = pre +:+ s'.
Proof.
  induction s as [|c s IH]; intros s' H; simpl in H.
  - destruct H as [<-|[]]. now exists EmptyString.
  - destruct H as [<-|H]; [now exists EmptyString|].
    destruct (inSet cs c); [|contradiction].
    destruct (IH _ H) as [pre ->]. now exists (String c pre).
Qed.

Lemma In_skipn {A : Type} (x : A) n l : In x (skipn n l) -> In x l.
Proof.
  revert l. induction n as [|n IH]; intros l H; [exact H|].
  destruct l; [exact H|]. right. now apply IH.
Qed.

Lemma append_cons (x : ascii) (a b : string) : String x a +:+ b = String x (a +:+ b).
Proof. reflexivity. Qed.

Lemma append_assoc_string (a b c : string) : (a +:+ b) +:+ c = a +:+ (b +:+ c).
Proof. induction a as [|x a IH]; [reflexivity|]. rewrite !append_cons. now rewrite IH. Qed.

Lemma append_empty_r (a : string) : a +:+ EmptyString = a.
Proof. induction a as [|x a IH]; [reflexivity|]. rewrite append_cons. now rewrite IH. Qed.

(** A match consumes a prefix of its input. *)
Lemma run_suffix ic r : forall s caps s' caps',
  In (s', caps') (run ic r s caps) -> exists pre, s = pre +:+ s'.
Proof.
  induction r as [p|a IHa b IHb|a IHa b IHb|least greedy cs|i a IHa|];
    intros s caps s' caps' H; simpl in H.
  - destruct (literal ic p s) as [s1|] eqn:E; [|contradiction].
    destruct H as [H|[]]. injection H as <- <-. eapply literal_suffix; eauto.
  - apply in_flat_map in H. destruct H as [[s1 caps1] [H1 H2]].
    destruct (IHa _ _ _ _ H1) as [p1 ->]. destruct (IHb _ _ _ _ H2) as [p2 ->].
    exists (p1 +:+ p2). now rewrite append_assoc_string.
  - apply in_app_iff in H. destruct H as [H|H]; eauto.
  - apply in_map_iff in H. destruct H as [s1 [H1 H2]]. injection H1 as <- <-.
    apply (spans_suffix cs). apply (In_skipn _ least).
    destruct greedy; [now apply in_rev in H2|assumption].
  - apply in_map_iff in H. destruct H as [[s1 caps1] [H1 H2]]. injection H1 as <- _.
    eauto.
  - destruct s; [|contradiction]. destruct H as [H|[]]. injection H as <- _.
    now exists EmptyString.
Qed.

Lemma hasDigit_app pre s : hasDigit s = true -> hasDigit (pre +:+ s) = true.
Proof.
  intros H. induction pre as [|c pre IH]; [exact H|].
  rewrite append_cons. simpl. rewrite IH. apply orb_true_r.
Qed.

Lemma drop_suffix : forall n s, exists pre, s = pre +:+ drop n s.
Proof.
  induction n as [|n IH]; intros s.
  - exists EmptyString. destruct s; reflexivity.
  - destruct s as [|c s]; [now exists EmptyString|].
    destruct (IH s) as [pre Hpre]. exists (String c pre).
    rewrite append_cons. simpl. now rewrite <- Hpre.
Qed.

(** A pattern that sets a numeric group matches only where a digit
    follows. *)
Lemma run_needs_digit ic i r : forall s caps s' caps',
  binds i r = true -> numeric i r = true ->
  In (s', caps') (run ic r s caps) -> hasDigit s = true.
Proof.
  induction r as [p|a IHa b IHb|a IHa b IHb|least greedy cs|j a IHa|];
    intros s caps s' caps' Hb Hn H; simpl in Hb, Hn; try discriminate.
  - apply andb_true_iff in Hn. destruct Hn as [Hna Hnb].
    simpl in H. apply in_flat_map in H. destruct H as [[s1 caps1] [H1 H2]].
    apply orb_true_iff in Hb. destruct Hb as [Hb|Hb].
    + apply (IHa _ _ _ _ Hb Hna H1).
    + destruct (run_suffix _ _ _ _ _ _ H1) as [pre ->].
      apply hasDigit_app. apply (IHb _ _ _ _ Hb Hnb H2).
  - apply andb_true_iff in Hn. destruct Hn as [Hna Hnb].
    apply andb_true_iff in Hb. destruct Hb as [Hba Hbb].
    simpl in H. apply in_app_iff in H.
    destruct H as [H|H]; [apply (IHa _ _ _ _ Hba Hna H)|apply (IHb _ _ _ _ Hbb Hnb H)].
  - simpl in H. apply in_map_iff in H. destruct H as [[s1 caps1] [_ H2]].
    destruct (Nat.eqb i j) eqn:E.
    + destruct a as [| | |[|least] greedy [] | |]; try discriminate.
      simpl in H2. apply in_map_iff in H2. destruct H2 as [s2 [_ H3]].
      assert (H4 : In s2 (skipn (S least) (spans Digit s)))
        by (destruct greedy; [now apply in_rev in H3|assumption]).
      destruct (spans_head _ _ _ _ H4) as [c [s0 [-> [Hd _]]]].
      simpl. simpl in Hd. now rewrite Hd.
    + simpl in Hb. apply (IHa _ _ _ _ Hb Hn H2).
Qed.

Lemma no_digit_no_match p input from :
  recognizer p = true -> hasDigit input = false ->
  successive (ignoreCase p) (syntax p) input from [].
Proof.
  intros Hp Hd. constructor.
  destruct (exec (mk (syntax p) (ignoreCase p) from) input) as [[m|] re'] eqn:E;
    [|reflexivity].
  destruct (exec_some _ _ _ _ E) as [_ [[_ [rest [others [Hr _]]]] _]]. simpl in Hr.
  first_success Hr Hin.
  destruct (recognizer_inv p Hp) as [_ [B1 [_ [_ [N1 _]]]]].
  pose proof (run_needs_digit _ 1 _ _ _ _ _ B1 N1 Hin) as Hdig.
  destruct (drop_suffix (index m) input) as [pre Hpre].
  rewrite Hpre in Hd. rewrite (hasDigit_app pre _ Hdig) in Hd. discriminate.
Qed.

(** [X5] Output without a single decimal digit is not an error report:
    the parser returns the empty list for it. *)
Theorem no_digit_no_diagnostics errorOutput document :
  hasDigit errorOutput = false ->
  parseCompilerErrors errorOutput document = Returns [].
Proof.
  intros Hd. unfold parseCompilerErrors.
  rewrite (forPatterns_eq document errorOutput patterns [[]; []; []; []] [] []
             recognizer_patterns); [reflexivity| |constructor].
  repeat (constructor; [apply no_digit_no_match; [reflexivity|exact Hd]|]).
  constructor.
Qed.

Lemma no_digit_no_diagnostics_witness :
  parseCompilerErrors "/bin/sh: veyc: command not found" tenLines = Returns [].
Proof. apply no_digit_no_diagnostics. reflexivity. Defined.

(** *** Messages *)

Lemma rev_string_append : forall s acc,
  rev_string s acc = rev_string s EmptyString +:+ acc.
Proof.
  induction s as [|c s IH]; intros acc; simpl; [reflexivity|].
  rewrite (IH (String c acc)), (IH (String c EmptyString)).
  now rewrite append_assoc_string.
Qed.

Lemma rev_string_app : forall a b acc,
  rev_string (a +:+ b) acc = rev_string b (rev_string a acc).
Proof.
  induction a as [|c a IH]; intros b acc; [reflexivity|].
  rewrite append_cons. simpl. apply IH.
Qed.

Lemma rev_string_involutive : forall s acc acc',
  rev_string (rev_string s acc) acc' = rev_string acc (s +:+ acc').
Proof.
  induction s as [|c s IH]; intros acc acc'; simpl; [reflexivity|].
  rewrite IH. reflexivity.
Qed.

Lemma rev_rev s : rev_string (rev_string s EmptyString) EmptyString = s.
Proof. rewrite rev_string_involutive. simpl. apply append_empty_r. Qed.

Lemma trimStart_not_blank s : startsBlank (trimStart s) = false.
Proof.
  induction s as [|c s IH]; simpl; [reflexivity|].
  destruct (isSpace c) eqn:E; [exact IH|]. simpl. exact E.
Qed.

Lemma trimStart_fixed s : startsBlank s = false -> trimStart s = s.
Proof. destruct s as [|c s]; simpl; [reflexivity|]. now intros ->. Qed.

(** [trimStart] removes a prefix. *)
Lemma trimStart_suffix s : exists blanks, s = blanks +:+ trimStart s.
Proof.
  induction s as [|c s [b IH]]; simpl; [now exists EmptyString|].
  destruct (isSpace c).
  - exists (String c b). rewrite append_cons. now rewrite <- IH.
  - now exists EmptyString.
Qed.

Lemma startsBlank_app x y :
  x <> EmptyString -> startsBlank (x +:+ y) = startsBlank x.
Proof. destruct x; [congruence|reflexivity]. Qed.

(** [trim] leaves no white space at either end, and trimming again
    changes nothing. *)
Lemma trim_trimmed s :
  startsBlank (trim s) = false /\ endsBlank (trim s) = false /\ trim (trim s) = trim s.
Proof.
  assert (Hend : forall t, endsBlank (trimEnd t) = false).
  { intros t. unfold endsBlank, trimEnd. rewrite rev_rev. apply trimStart_not_blank. }
  assert (Hstart : forall t, startsBlank t = false -> startsBlank (trimEnd t) = false).
  { intros t Ht. unfold trimEnd.
    destruct (trimStart_suffix (rev_string t EmptyString)) as [b Hb].
    set (x := trimStart (rev_string t EmptyString)) in *.
    assert (Et : t = rev_string x EmptyString +:+ rev_string b EmptyString).
    { rewrite <- (rev_rev t), Hb, rev_string_app. apply rev_string_append. }
    destruct (rev_string x EmptyString) as [|c r] eqn:Ex; [reflexivity|].
    rewrite Et in Ht. rewrite startsBlank_app in Ht by discriminate. exact Ht. }
  assert (H1 : startsBlank (trim s) = false)
    by (apply Hstart, trimStart_not_blank).
  assert (H2 : endsBlank (trim s) = false) by apply Hend.
  split; [exact H1|]. split; [exact H2|].
  unfold trim at 1. rewrite (trimStart_fixed _ H1).
  unfold trimEnd. unfold endsBlank in H2. rewrite (trimStart_fixed _ H2).
  apply rev_rev.
Qed.

(** [X6] Every message in what the parser returns is trimmed and not
    empty: it neither begins nor ends with white space, and trimming it
    again changes nothing. *)
Theorem messages_trimmed errorOutput document ds :
  parseCompilerErrors errorOutput document = Returns ds ->
  Forall (fun d => message d <> EmptyString /\
                   startsBlank (message d) = false /\ endsBlank (message d) = false /\
                   trim (message d) = message d) ds.
Proof.
  intros H. destruct (ParserClaims.parse_yields _ _ _ H) as [mss [_ [H3 _]]].
  apply (ParserClaims.Forall2_yields_Forall document _ _ _ H3).
  intros m d Hy.
  destruct (ParserClaims.yields_inv _ _ _ Hy) as [l [c [msg [_ [_ [Hm Hd]]]]]].
  destruct (ParserClaims.diagnosticAt_message _ _ _ _ _ Hd) as [Hne ->].
  split; [exact Hne|].
  unfold trimGroup in Hm. destruct (capture 3 (groups m)) as [t|]; [|discriminate].
  injection Hm as <-. apply trim_trimmed.
Qed.

Lemma messages_trimmed_witness :
  Forall (fun d => message d <> EmptyString /\
                   startsBlank (message d) = false /\ endsBlank (message d) = false /\
                   trim (message d) = message d) [ampersand; ampersand].
Proof.
  apply (messages_trimmed lexerMessage tenLines). vm_compute. reflexivity.
Defined.

(** *** Severity *)

Lemma startsWith_prefix p : forall s,
  startsWith p s = true <-> exists b, s = p +:+ b.
Proof.
  induction p as [|a p IH]; intros s; simpl.
  - split; [intros _; now exists s|reflexivity].
  - destruct s as [|c s].
    + split; [discriminate|]. intros [b Hb]. rewrite append_cons in Hb. discriminate.
    + rewrite andb_true_iff, IH. split.
      * intros [Hac [b ->]]. apply Ascii.eqb_eq in Hac. subst. now exists b.
      * intros [b Hb]. rewrite append_cons in Hb. injection Hb as -> ->.
        split; [apply Ascii.eqb_refl|now exists b].
Qed.

(** [includes] is the substring test. *)
Lemma includes_substring p : forall s,
  includes s p = true <-> exists a b, s = a +:+ p +:+ b.
Proof.
  induction s as [|c s IH].
  - simpl. rewrite orb_false_r, startsWith_prefix. split.
    + intros [b Hb]. now exists EmptyString, b.
    + intros [[|x a] [b Hb]]; [now exists b|]. rewrite append_cons in Hb. discriminate.
  - cbn [includes]. rewrite orb_true_iff, startsWith_prefix, IH. split.
    + intros [[b Hb]|[a [b Hb]]].
      * now exists EmptyString, b.
      * exists (String c a), b. rewrite append_cons. now rewrite Hb.
    + intros [[|x a] [b Hb]].
      * left. now exists b.
      * right. rewrite append_cons in Hb. injection Hb as -> ->. now exists a, b.
Qed.

Lemma map_string_app f a b : map_string f (a +:+ b) = map_string f a +:+ map_string f b.
Proof.
  induction a as [|c a IH]; [reflexivity|].
  rewrite append_cons. simpl. rewrite IH. now rewrite append_cons.
Qed.

Lemma map_string_split f : forall x y s,
  map_string f s = x +:+ y ->
  exists s1 s2, s = s1 +:+ s2 /\ map_string f s1 = x /\ map_string f s2 = y.
Proof.
  induction x as [|c x IH]; intros y s H.
  - exists EmptyString, s. auto.
  - destruct s as [|d s]; [discriminate|].
    rewrite append_cons in H. simpl in H. injection H as Hc H.
    destruct (IH _ _ H) as [s1 [s2 [-> [H1 H2]]]].
    exists (String d s1), s2. rewrite append_cons. simpl. now rewrite Hc, H1.
Qed.

(** The severity rule in terms of the message itself: a warning is a
    message with a part that reads "warning" once lower-cased. *)
Lemma severityOf_warning msg :
  severityOf msg = Warning <->
  exists a w b, msg = a +:+ w +:+ b /\ toLowerCase w = "warning".
Proof.
  unfold severityOf.
  destruct (includes (toLowerCase msg) "warning") eqn:E.
  - split; [intros _|reflexivity].
    apply includes_substring in E. destruct E as [a [b E]].
    unfold toLowerCase in E.
    destruct (map_string_split _ _ _ _ E) as [s1 [s2 [-> [_ H2]]]].
    destruct (map_string_split _ _ _ _ H2) as [w [s3 [-> [Hw _]]]].
    now exists s1, w, s3.
  - split; [discriminate|]. intros [a [w [b [-> Hw]]]].
    assert (H : includes (toLowerCase (a +:+ w +:+ b)) "warning" = true).
    { apply includes_substring. exists (toLowerCase a), (toLowerCase b).
      unfold toLowerCase in *. now rewrite !map_string_app, Hw. }
    congruence.
Qed.

(** [X7] The severity of every diagnostic in what the parser returns
    is decided by its message alone: Warning exactly when some part of
    the message reads "warning" in whatever letter case, Error
    otherwise; and the source of every diagnostic is "veyra". *)
Theorem severity_from_message errorOutput document ds :
  parseCompilerErrors errorOutput document = Returns ds ->
  Forall (fun d =>
            source d = "veyra" /\
            (severity d = Warning <->
             exists a w b, message d = a +:+ w +:+ b /\ toLowerCase w = "warning") /\
            (severity d = Error <->
             ~ exists a w b, message d = a +:+ w +:+ b /\ toLowerCase w = "warning")) ds.
Proof.
  intros H0. destruct (ParserClaims.parse_yields _ _ _ H0) as [mss [_ [H3 _]]].
  apply (ParserClaims.Forall2_yields_Forall document _ _ _ H3).
  intros m d Hy.
  destruct (ParserClaims.yields_inv _ _ _ Hy) as [l [c [msg [_ [_ [_ Hd]]]]]].
  destruct (ParserClaims.diagnosticAt_inv _ _ _ _ _ Hd) as [sc [ec [-> _]]]. simpl.
  split; [reflexivity|]. split; [apply severityOf_warning|].
  rewrite <- severityOf_warning. destruct (severityOf msg); split; intros H;
    try reflexivity; try discriminate; congruence.
Qed.

Lemma severity_from_message_witness :
  Forall (fun d =>
            source d = "veyra" /\
            (severity d = Warning <->
             exists a w b, message d = a +:+ w +:+ b /\ toLowerCase w = "warning") /\
            (severity d = Error <->
             ~ exists a w b, message d = a +:+ w +:+ b /\ toLowerCase w = "warning"))
         [ampersand; ampersand].
Proof.
  apply (severity_from_message lexerMessage tenLines). vm_compute. reflexivity.
Defined.

End ParserExtras.

(** ** Further properties of the scheduling *)
Module SchedulerExtras.
Import Parser Scheduler SchedulerNotions SchedulerClaims Examples.

#[local] Arguments elapse : simpl never.
#[local] Arguments step : simpl never.

(** *** Any number of change events *)

Lemma tracked_idle cp dc tid nt rn sp ck :
  tracked {| compilerPath := cp; diagnosticCollection := dc; timeoutId := tid;
             timers := []; nextTimer := nt; running := rn; spawned := sp; clock := ck |}.
Proof. split; [simpl; lia|]. intros t Hin. simpl in Hin. inversion Hin. Qed.

(** With one timer armed at [prev + 500]: what the change events that
    follow and the passing of time lead to. *)
Lemma pending_timer_run T : forall changes s prev tm,
  hasCompiler s = true ->
  timers s = [tm] -> timeoutId s = Some (timerId tm) ->
  due tm = prev + 500 -> clock s = prev ->
  Forall (fun td => isVeyra (snd td) = true) changes ->
  inOrder prev (map fst changes) ->
  Forall (fun t => t + 500 <= T) (prev :: map fst changes) ->
  spawned (elapse T (run (changeTrace changes) s))
  = (spawned s + groupsFrom prev (map fst changes))%nat /\
  timers (elapse T (run (changeTrace changes) s)) = [].
Proof.
  induction changes as [|[t d] changes IH]; intros s prev tm Hc Ht Hid Hdue Hck Hv Ho HT.
  - inversion HT; subst. unfold changeTrace, run. cbn [map fold_left].
    rewrite (elapse_fires T s tm Ht ltac:(lia) Hc). simpl. split; [lia|reflexivity].
  - inversion Hv as [|? ? Hvd Hvs]; subst. simpl in Hvd.
    simpl in Ho. destruct Ho as [Hle Ho]. inversion HT as [|? ? HTp HTs]; subst.
    simpl in HTs.
    change (run (changeTrace ((t, d) :: changes)) s)
      with (run (changeTrace changes) (step (t, DidChange d) s)).
    destruct (Z_lt_le_dec t (due tm)) as [Hlt|Hge].
    + (* the event arrives before the timer is due: the timer is replaced *)
      rewrite step_change; [|exact Hvd| | |lia].
      2: { split; [rewrite Ht; simpl; lia|].
           intros x Hx. rewrite Ht in Hx. apply list_elem_of_singleton in Hx. now subst. }
      2: { intros x Hx. rewrite Ht in Hx. apply list_elem_of_singleton in Hx. now subst. }
      match goal with |- context [run (changeTrace changes) ?x] =>
        destruct (IH x t (mkTimer (nextTimer s) (t + 500) d)
                    Hc eq_refl eq_refl eq_refl eq_refl Hvs Ho HTs) as [H1 H2]
      end.
      cbn [map fst groupsFrom]. cbn [spawned] in H1.
      destruct (due tm <=? t) eqn:E; [apply Z.leb_le in E; lia|].
      rewrite <- Hdue, E. split; [rewrite H1; lia|exact H2].
    + (* the timer is due first: its callback starts a process *)
      unfold step. cbn [fst snd dispatch].
      rewrite (elapse_fires t s tm Ht Hge Hc).
      rewrite change_rearms; [|exact Hvd|apply tracked_idle].
      cbn [nextTimer clock compilerPath diagnosticCollection running spawned].
      replace (Z.max (clock s) t) with t by lia.
      match goal with |- context [run (changeTrace changes) ?x] =>
        destruct (IH x t (mkTimer (nextTimer s) (t + 500) d)
                    Hc eq_refl eq_refl eq_refl eq_refl Hvs Ho HTs) as [H1 H2]
      end.
      cbn [map fst groupsFrom]. cbn [spawned] in H1.
      assert (E : (clock s + 500 <=? t) = true) by (apply Z.leb_le; lia).
      rewrite E. split; [rewrite H1; lia|exact H2].
Qed.

(** [X8] Debouncing, for any number of change events: with a compiler
    resolved, change events of Veyra documents delivered in time order
    start, once 500 ms have passed after the last of them, exactly one
    process per burst, a burst ending where the next event comes 500 ms
    or more after the previous one; and no timer is left. *)
Theorem debounce_one_per_burst s t0 d0 rest T :
  hasCompiler s = true -> tracked s ->
  (forall t, t ∈ timers s -> t0 < due t) -> clock s <= t0 ->
  Forall (fun td => isVeyra (snd td) = true) ((t0, d0) :: rest) ->
  inOrder t0 (map fst rest) ->
  Forall (fun t => t + 500 <= T) (t0 :: map fst rest) ->
  spawned (elapse T (run (changeTrace ((t0, d0) :: rest)) s))
  = (spawned s + bursts (t0 :: map fst rest))%nat /\
  timers (elapse T (run (changeTrace ((t0, d0) :: rest)) s)) = [].
Proof.
  intros Hc Ht Hd Hck Hv Ho HT. inversion Hv as [|? ? Hv0 Hvs]; subst. simpl in Hv0.
  change (run (changeTrace ((t0, d0) :: rest)) s)
    with (run (changeTrace rest) (step (t0, DidChange d0) s)).
  rewrite (step_change t0 d0 s Hv0 Ht Hd Hck).
  match goal with |- context [run (changeTrace rest) ?x] =>
    destruct (pending_timer_run T rest x t0 (mkTimer (nextTimer s) (t0 + 500) d0)
                Hc eq_refl eq_refl eq_refl eq_refl Hvs Ho HT) as [H1 H2]
  end.
  cbn [spawned] in H1. unfold bursts. split; [exact H1|exact H2].
Qed.

Lemma debounce_one_per_burst_witness :
  spawned (elapse 5000
             (run (changeTrace [(0, tenLines); (100, tenLines); (400, tenBlankLines);
                                (1000, tenLines); (1499, tenLines); (1998, tenLines)])
                  ready)) = 2%nat.
Proof.
  assert (Hd : forall t, t ∈ timers ready -> 0 < due t)
    by (intros t Hin; simpl in Hin; inversion Hin).
  assert (Hv : Forall (fun td : Z * TextDocument => isVeyra (snd td) = true)
                 [(0, tenLines); (100, tenLines); (400, tenBlankLines);
                  (1000, tenLines); (1499, tenLines); (1998, tenLines)])
    by (repeat constructor).
  assert (Ho : inOrder 0 [100; 400; 1000; 1499; 1998]) by (simpl; lia).
  assert (HT : Forall (fun t => t + 500 <= 5000) [0; 100; 400; 1000; 1499; 1998])
    by (repeat (constructor; [lia|]); constructor).
  exact (proj1 (debounce_one_per_burst ready 0 tenLines
                  [(100, tenLines); (400, tenBlankLines); (1000, tenLines);
                   (1499, tenLines); (1998, tenLines)] 5000
                  eq_refl (tracked_initial _) Hd ltac:(simpl; lia) Hv Ho HT)).
Defined.

(** *** The compiler path *)

Lemma validateDocument_compilerPath doc s :
  compilerPath (validateDocument doc s) = compilerPath s.
Proof. unfold validateDocument. destruct (negb (hasCompiler s)); reflexivity. Qed.

Lemma fire_compilerPath ts : forall s, compilerPath (fire ts s) = compilerPath s.
Proof.
  induction ts as [|t ts IH]; intros s; [reflexivity|].
  simpl. now rewrite IH, validateDocument_compilerPath.
Qed.

Lemma step_compilerPath te s : compilerPath (step te s) = compilerPath s.
Proof.
  assert (He : compilerPath (elapse (fst te) s) = compilerPath s)
    by (unfold elapse; simpl; apply fire_compilerPath).
  unfold step. destruct (snd te) as [doc|doc|doc|doc|id r view]; cbn [dispatch].
  - unfold onDidOpenTextDocument. destruct (isVeyra doc); [|exact He].
    now rewrite validateDocument_compilerPath.
  - unfold onDidChangeTextDocument. destruct (isVeyra doc); [|exact He].
    unfold setTimeout. simpl. destruct (timeoutId _); exact He.
  - unfold onDidSaveTextDocument. destruct (isVeyra doc); [|exact He].
    now rewrite validateDocument_compilerPath.
  - unfold onDidCloseTextDocument. destruct (isVeyra doc); exact He.
  - unfold onSettled. destruct (List.find _ _); [|exact He]. simpl.
    unfold validateDocument_resume. destruct (fulfilled r); [exact He|].
    destruct (parseCompilerErrors _ _); exact He.
Qed.

Lemma validateDocument_no_compiler doc s :
  hasCompiler s = false -> spawned (validateDocument doc s) = spawned s.
Proof. intros H. unfold validateDocument. now rewrite H. Qed.

Lemma hasCompiler_path s s' : compilerPath s' = compilerPath s -> hasCompiler s' = hasCompiler s.
Proof. unfold hasCompiler. now intros ->. Qed.

Lemma fire_no_compiler ts : forall s,
  hasCompiler s = false -> spawned (fire ts s) = spawned s.
Proof.
  induction ts as [|t ts IH]; intros s Hs; [reflexivity|].
  simpl. rewrite IH.
  - now apply validateDocument_no_compiler.
  - rewrite (hasCompiler_path s); [exact Hs|apply validateDocument_compilerPath].
Qed.

Lemma step_no_compiler te s :
  hasCompiler s = false -> spawned (step te s) = spawned s.
Proof.
  intros Hs.
  assert (He : spawned (elapse (fst te) s) = spawned s)
    by (unfold elapse; simpl; now apply fire_no_compiler).
  assert (Hc : hasCompiler (elapse (fst te) s) = false).
  { rewrite (hasCompiler_path s); [exact Hs|].
    unfold elapse; simpl; apply fire_compilerPath. }
  unfold step. destruct (snd te) as [doc|doc|doc|doc|id r view]; cbn [dispatch].
  - unfold onDidOpenTextDocument. destruct (isVeyra doc); [|exact He].
    now rewrite validateDocument_no_compiler.
  - unfold onDidChangeTextDocument. destruct (isVeyra doc); [|exact He].
    unfold setTimeout. simpl. destruct (timeoutId _); exact He.
  - unfold onDidSaveTextDocument. destruct (isVeyra doc); [|exact He].
    now rewrite validateDocument_no_compiler.
  - unfold onDidCloseTextDocument. destruct (isVeyra doc); exact He.
  - unfold onSettled. destruct (List.find _ _); [|exact He]. simpl.
    unfold validateDocument_resume. destruct (fulfilled r); [exact He|].
    destruct (parseCompilerErrors _ _); exact He.
Qed.

(** [X9] The compiler path is the one found at activation: no event,
    timer or settling process changes it.  So when no compiler was found
    then, no sequence of events ever starts a process. *)
Theorem compiler_fixed_at_activation trace : forall s,
  compilerPath (run trace s) = compilerPath s /\
  (hasCompiler s = false -> spawned (run trace s) = spawned s).
Proof.
  induction trace as [|te trace IH]; intros s; [split; reflexivity|].
  change (run (te :: trace) s) with (run trace (step te s)).
  destruct (IH (step te s)) as [H1 H2]. split.
  - now rewrite H1, step_compilerPath.
  - intros Hs. rewrite H2, step_no_compiler; [reflexivity|exact Hs|].
    rewrite (hasCompiler_path s); [exact Hs|apply step_compilerPath].
Qed.

Lemma compiler_fixed_at_activation_witness :
  spawned (run [(0, DidOpen tenLines); (10, DidChange tenLines); (700, DidSave tenLines)]
               (initial None)) = 0%nat.
Proof.
  apply (proj2 (compiler_fixed_at_activation
                  [(0, DidOpen tenLines); (10, DidChange tenLines); (700, DidSave tenLines)]
                  (initial None))).
  reflexivity.
Defined.

(** *** Closing a document *)

(** [X10] Closing a Veyra document deletes its diagnostics and
    nothing else: the armed timer and the processes in flight stay.  So
    when a process of the closed document settles afterwards, what it
    leaves becomes the entry of the closed document: when the process
    failed and the parser returns diagnostics for its error text, they
    are published for the closed document; after a clean exit, or when
    the parser throws, the entry stays deleted. *)
Theorem close_cancels_nothing doc s id r view p :
  isVeyra doc = true ->
  List.find (fun q => Nat.eqb (runId q) id) (running s) = Some p ->
  uri (document p) = uri doc ->
  let closed := onDidCloseTextDocument doc s in
  diagnosticCollection closed !! uri doc = None /\
  timers closed = timers s /\
  timeoutId closed = timeoutId s /\
  running closed = running s /\
  diagnosticCollection (onSettled id r view closed) !! uri doc = published r view None /\
  (exit r <> Discovery.Exited 0 ->
   forall ds, parseCompilerErrors (errorText r) view = Returns ds ->
              diagnosticCollection (onSettled id r view closed) !! uri doc = Some ds) /\
  (exit r <> Discovery.Exited 0 ->
   forall e, parseCompilerErrors (errorText r) view = Raises e ->
             diagnosticCollection (onSettled id r view closed) !! uri doc = None).
Proof.
  intros Hv Hp Hu closed. unfold closed, onDidCloseTextDocument. rewrite Hv.
  split; [apply lookup_delete_eq|]. repeat (split; [reflexivity|]).
  assert (H : diagnosticCollection
                (onSettled id r view (setDiagnostics (delete (uri doc)) s)) !! uri doc
              = published r view None).
  { pose proof (settled_collection id r view (setDiagnostics (delete (uri doc)) s) p Hp)
      as H'.
    rewrite Hu in H'. rewrite H'.
    cbn [setDiagnostics diagnosticCollection]. now rewrite lookup_delete_eq. }
  split; [exact H|].
  destruct (published_cases r view None) as [_ P2].
  split; intros He; destruct (P2 He) as [P3 P4].
  - intros ds Hds. now rewrite H, (P3 ds Hds).
  - intros e Hds. now rewrite H, (P4 e Hds).
Qed.

Lemma close_cancels_nothing_witness :
  diagnosticCollection
    (run [(0, DidSave tenLines); (10, DidClose tenLines);
          (40, Settled 0%nat failureWithReport tenLines)] ready) !! uri tenLines
  = Some [ampersand; ampersand] /\
  diagnosticCollection
    (run [(0, DidSave tenLines); (10, DidClose tenLines);
          (40, Settled 0%nat failureBlank tenLines)] ready) !! uri tenLines
  = None.
Proof.
  split.
  - apply (proj1 (proj2 (proj2 (proj2 (proj2 (proj2
             (close_cancels_nothing tenLines (run [(0, DidSave tenLines)] ready)
                0%nat failureWithReport tenLines (mkRun 0 tenLines)
                eq_refl eq_refl eq_refl))))))
           ltac:(discriminate)).
    vm_compute. reflexivity.
  - apply (proj2 (proj2 (proj2 (proj2 (proj2 (proj2
             (close_cancels_nothing tenLines (run [(0, DidSave tenLines)] ready)
                0%nat failureBlank tenLines (mkRun 0 tenLines)
                eq_refl eq_refl eq_refl))))))
           ltac:(discriminate) MessageNotSet).
    vm_compute. reflexivity.
Defined.

(** *** Open and save *)

Lemma elapse_no_timers now s :
  timers s = [] ->
  elapse now s =
  {| compilerPath := compilerPath s; diagnosticCollection := diagnosticCollection s;
     timeoutId := timeoutId s; timers := []; nextTimer := nextTimer s;
     running := running s; spawned := spawned s; clock := Z.max (clock s) now |}.
Proof.
  intros Ht. rewrite elapse_idle; [now rewrite Ht|].
  intros t Hin. rewrite Ht in Hin. inversion Hin.
Qed.

Lemma step_validates t e s :
  hasCompiler s = true -> timers s = [] -> validatesAtOnce e = true ->
  exists doc,
    step (t, e) s =
    {| compilerPath := compilerPath s; diagnosticCollection := diagnosticCollection s;
       timeoutId := timeoutId s; timers := []; nextTimer := nextTimer s;
       running := running s ++ [mkRun (spawned s) doc];
       spawned := S (spawned s); clock := Z.max (clock s) t |}.
Proof.
  intros Hc Ht He. unfold step. cbn [fst snd]. rewrite (elapse_no_timers t s Ht).
  assert (Hc' : forall cl,
             hasCompiler {| compilerPath := compilerPath s;
                            diagnosticCollection := diagnosticCollection s;
                            timeoutId := timeoutId s; timers := [];
                            nextTimer := nextTimer s; running := running s;
                            spawned := spawned s; clock := cl |} = true)
    by (intros cl; exact Hc).
  destruct e as [doc|doc|doc|doc|? ? ?]; try discriminate; exists doc;
    cbn [dispatch]; cbn [validatesAtOnce] in He.
  - unfold onDidOpenTextDocument, validateDocument. rewrite He, Hc'. reflexivity.
  - unfold onDidSaveTextDocument, validateDocument. rewrite He, Hc'. reflexivity.
Qed.

(** [X11] Open and save events are neither debounced nor held back
    while a process runs: with a compiler resolved and no timer armed,
    every open or save of a Veyra document starts a process at once, so
    after [n] such events [n] more processes are in flight together. *)
Theorem open_and_save_validate_at_once trace : forall s,
  hasCompiler s = true -> timers s = [] ->
  Forall (fun te => validatesAtOnce (snd te) = true) trace ->
  spawned (run trace s) = (spawned s + List.length trace)%nat /\
  List.length (running (run trace s)) = (List.length (running s) + List.length trace)%nat /\
  timers (run trace s) = [].
Proof.
  induction trace as [|[t e] trace IH]; intros s Hc Ht Hall.
  - simpl. repeat split; try lia. exact Ht.
  - inversion Hall as [|? ? He Hrest]; subst. cbn [snd] in He.
    change (run ((t, e) :: trace) s) with (run trace (step (t, e) s)).
    destruct (step_validates t e s Hc Ht He) as [doc ->].
    match goal with |- context [run trace ?x] =>
      destruct (IH x Hc eq_refl Hrest) as [H1 [H2 H3]]
    end.
    cbn [spawned running] in H1, H2. rewrite length_app in H2. cbn [List.length] in H2.
    cbn [List.length]. split; [lia|]. split; [lia|exact H3].
Qed.

Lemma open_and_save_validate_at_once_witness :
  List.length (running (run [(0, DidOpen tenLines); (5, DidSave tenLines);
                             (9, DidSave tenLines)] ready)) = 3%nat.
Proof.
  apply (proj1 (proj2 (open_and_save_validate_at_once
                         [(0, DidOpen tenLines); (5, DidSave tenLines); (9, DidSave tenLines)]
                         ready eq_refl eq_refl ltac:(repeat constructor)))).
Defined.

End SchedulerExtras.

(** ** Further properties of tool discovery and the commands *)
Module CommandsExtras.
Import JsString Parser Discovery Commands CommandNotions DiscoveryClaims.
Import Examples CommandExamples.

(** *** A configured override the probe rejects *)

Lemma find_app {A : Type} (f : A -> bool) (l1 l2 : list A) :
  List.find f (l1 ++ l2) =
  match List.find f l1 with
  | Some x => Some x
  | None => List.find f l2
  end.
Proof.
  induction l1 as [|a l1 IH]; simpl; [reflexivity|]. now destruct (f a).
Qed.

Lemma find_accepts {A : Type} (f : A -> bool) (l : list A) (x : A) :
  List.find f l = Some x -> f x = true.
Proof.
  intros H. apply find_first in H. destruct H as [? [? [_ [H _]]]]. exact H.
Qed.

Lemma configGet_deleted env key :
  configGet (withConfiguration (delete key (configuration env)) env) key = EmptyString.
Proof.
  unfold configGet. simpl. now rewrite lookup_delete_eq.
Qed.

(** [X12] A path configured for a tool that the probe rejects is passed
    over: [findVeyraTool] returns what it returns on the same machine
    with that setting removed. *)
Theorem rejected_override_falls_back env toolName :
  isExecutableAvailable env (configGet env (toolName +:+ "Path")) = false ->
  findVeyraTool env toolName =
  findVeyraTool
    (withConfiguration (delete (toolName +:+ "Path") (configuration env)) env) toolName.
Proof.
  intros Hr. unfold findVeyraTool. rewrite !possiblePaths_order.
  rewrite configGet_deleted. simpl nonEmpty. cbv iota.
  destruct (nonEmpty (configGet env (toolName +:+ "Path"))).
  - rewrite find_app. simpl. rewrite Hr. reflexivity.
  - reflexivity.
Qed.

Lemma rejected_override_falls_back_witness :
  findVeyraTool staleFormatter "veyra-fmt" =
  findVeyraTool
    (withConfiguration (delete "veyra-fmtPath" (configuration staleFormatter)) staleFormatter)
    "veyra-fmt".
Proof.
  apply (rejected_override_falls_back staleFormatter "veyra-fmt"). reflexivity.
Defined.

(** *** The prompt for a missing tool *)

Lemma withTool_checked {A : Type} env toolName selection (missing : A) k :
  withTool (fst (checkToolAvailability env toolName selection)) missing k =
  withTool (findVeyraTool env toolName) missing k.
Proof.
  unfold checkToolAvailability, withTool, truthy.
  destruct (findVeyraTool env toolName) as [t|]; [destruct (nonEmpty t) eqn:E|];
    destruct selection; simpl; rewrite ?E; reflexivity.
Qed.

Lemma withTool_sent tool k lines :
  withTool tool ToolMissing (fun t => Sent (k t)) = Sent lines <->
  exists t, tool = Some t /\ nonEmpty t = true /\ lines = k t.
Proof.
  unfold withTool. destruct tool as [t|]; [destruct (nonEmpty t) eqn:E|]; split.
  - intros H. exists t. inversion H. auto.
  - intros [t' [H1 [_ H2]]]. inversion H1. now subst.
  - discriminate.
  - intros [t' [H1 [H2 _]]]. inversion H1. congruence.
  - discriminate.
  - intros [t' [H1 _]]. discriminate.
Qed.

(** [X13] Whatever the user answers to the warning of
    [checkToolAvailability], a tool comes back exactly when
    [findVeyraTool] found one, and then it is that tool and no editor
    command was executed.  So after [Continue Anyway], as after the two
    other answers, the caller has no tool to continue with; a command is
    executed only when no tool was found and the answer was [Build Tools]
    or [Configure Path]. *)
Theorem prompt_answer_yields_no_tool env toolName selection :
  truthy (fst (checkToolAvailability env toolName selection))
  = truthy (findVeyraTool env toolName) /\
  (truthy (findVeyraTool env toolName) = true ->
   checkToolAvailability env toolName selection = (findVeyraTool env toolName, [])) /\
  (snd (checkToolAvailability env toolName selection) <> [] ->
   truthy (findVeyraTool env toolName) = false /\
   (selection = BuildTools \/ selection = ConfigurePath)).
Proof.
  unfold checkToolAvailability.
  destruct (truthy (findVeyraTool env toolName)) eqn:E; simpl.
  - split; [exact E|]. split; [reflexivity|]. intros H. now contradiction H.
  - split; [destruct selection; simpl; auto|]. split; [discriminate|].
    destruct selection; simpl; intros H; auto; now contradiction H.
Qed.

Lemma prompt_answer_yields_no_tool_witness :
  checkToolAvailability staleFormatter "veyra-fmt" ContinueAnyway = (Some "veyra-fmt", []) /\
  truthy (fst (checkToolAvailability helpExitsOne "veyra-lint" ContinueAnyway)) = false.
Proof.
  split.
  - rewrite (proj1 (proj2 (prompt_answer_yields_no_tool staleFormatter "veyra-fmt"
                              ContinueAnyway))); reflexivity.
  - rewrite (proj1 (prompt_answer_yields_no_tool helpExitsOne "veyra-lint" ContinueAnyway)).
    reflexivity.
Defined.

(** *** What the commands send to the terminal *)

Lemma veyra_language document :
  negb (String.eqb (languageId document) "veyra") = false <-> languageId document = "veyra".
Proof.
  rewrite negb_false_iff. apply String.eqb_eq.
Qed.

(** [X14] The format, lint and build commands send a command line to
    the terminal exactly when [findVeyraTool] found the tool, and the line
    then starts with that tool, quoted; a tool found has passed the
    probe.  The answer to the warning for a missing tool has no influence
    on what is sent. *)
Theorem tool_commands_send_found_tool env activeEditor selection lines :
  (formatCommand env activeEditor selection = Sent lines <->
   exists document fmtTool,
     activeEditor = Some document /\ languageId document = "veyra" /\
     findVeyraTool env "veyra-fmt" = Some fmtTool /\ nonEmpty fmtTool = true /\
     isExecutableAvailable env fmtTool = true /\
     lines = [quoted fmtTool +:+ " --write " +:+ quoted (uri document)]) /\
  (lintCommand env activeEditor selection = Sent lines <->
   exists document lintTool,
     activeEditor = Some document /\ languageId document = "veyra" /\
     findVeyraTool env "veyra-lint" = Some lintTool /\ nonEmpty lintTool = true /\
     isExecutableAvailable env lintTool = true /\
     lines = [quoted lintTool +:+ " --warnings " +:+ quoted (uri document)]) /\
  (buildCommand env selection = Sent lines <->
   exists workspaceFolder others pkgTool,
     workspaceFolders env = Some (workspaceFolder :: others) /\
     findVeyraTool env "veyra-pkg" = Some pkgTool /\ nonEmpty pkgTool = true /\
     isExecutableAvailable env pkgTool = true /\
     lines = ["cd " +:+ quoted workspaceFolder; quoted pkgTool +:+ " build"]).
Proof.
  split; [|split].
  - unfold formatCommand. destruct activeEditor as [document|].
    + destruct (negb (String.eqb (languageId document) "veyra")) eqn:L.
      * split; [discriminate|]. intros [d [t [H1 [H2 _]]]]. inversion H1; subst.
        apply veyra_language in H2. congruence.
      * rewrite withTool_checked, withTool_sent. apply veyra_language in L. split.
        -- intros [t [H1 [H2 H3]]]. exists document, t.
           repeat split; auto. exact (find_accepts _ _ _ H1).
        -- intros [d [t [H1 [_ [H3 [H4 [_ H6]]]]]]]. inversion H1; subst. exists t. auto.
    + split; [discriminate|]. intros [d [t [H1 _]]]. discriminate.
  - unfold lintCommand. destruct activeEditor as [document|].
    + destruct (negb (String.eqb (languageId document) "veyra")) eqn:L.
      * split; [discriminate|]. intros [d [t [H1 [H2 _]]]]. inversion H1; subst.
        apply veyra_language in H2. congruence.
      * rewrite withTool_checked, withTool_sent. apply veyra_language in L. split.
        -- intros [t [H1 [H2 H3]]]. exists document, t.
           repeat split; auto. exact (find_accepts _ _ _ H1).
        -- intros [d [t [H1 [_ [H3 [H4 [_ H6]]]]]]]. inversion H1; subst. exists t. auto.
    + split; [discriminate|]. intros [d [t [H1 _]]]. discriminate.
  - unfold buildCommand. destruct (workspaceFolders env) as [[|w others]|].
    + split; [discriminate|]. intros [? [? [? [H _]]]]. discriminate.
    + rewrite withTool_checked, withTool_sent. split.
      * intros [t [H1 [H2 H3]]]. exists w, others, t.
        repeat split; auto. exact (find_accepts _ _ _ H1).
      * intros [w' [o' [t [H1 [H2 [H3 [_ H5]]]]]]]. inversion H1; subst. exists t. auto.
    + split; [discriminate|]. intros [? [? [? [H _]]]]. discriminate.
Qed.

(** *** The compiler of the run command and the language server *)

Lemma usable_some env candidate p :
  usable env candidate = Some p <->
  candidate = Some p /\ nonEmpty p = true /\ isExecutableAvailable env p = true.
Proof.
  unfold usable. destruct candidate as [q|].
  - destruct (nonEmpty q) eqn:N; destruct (isExecutableAvailable env q) eqn:A; simpl.
    + split.
      * intros H. inversion H; subst. auto.
      * intros [H _]. exact H.
    + split; [discriminate|]. intros [H1 [_ H3]]. inversion H1; subst. congruence.
    + split; [discriminate|]. intros [H1 [H2 _]]. inversion H1; subst. congruence.
    + split; [discriminate|]. intros [H1 [H2 _]]. inversion H1; subst. congruence.
  - split; [discriminate|]. intros [H _]. discriminate.
Qed.

Lemma orFind_some configuredPath found p :
  orFind configuredPath found = Some p <->
  if nonEmpty configuredPath then p = configuredPath else found = Some p.
Proof.
  unfold orFind. destruct (nonEmpty configuredPath); [|reflexivity].
  split; [now inversion 1|now intros ->].
Qed.

(** [X15] The run command sends a command line exactly when the
    active document is a Veyra document and the compiler it chose passes
    the probe.  The compiler it chose is the configured path whenever one
    is configured, and only otherwise the one [findVeyraCompiler] finds. *)
Theorem run_compiler_choice env activeEditor lines :
  runCommand env activeEditor = Sent lines <->
  exists document compiler,
    activeEditor = Some document /\ languageId document = "veyra" /\
    (if nonEmpty (configGet env "compilerPath")
     then compiler = configGet env "compilerPath"
     else findVeyraCompiler env = Some compiler) /\
    nonEmpty compiler = true /\ isExecutableAvailable env compiler = true /\
    lines = [quoted compiler +:+ " " +:+ quoted (uri document)].
Proof.
  unfold runCommand. destruct activeEditor as [document|].
  - destruct (negb (String.eqb (languageId document) "veyra")) eqn:L.
    + split; [discriminate|]. intros [d [t [H1 [H2 _]]]]. inversion H1; subst.
      apply veyra_language in H2. congruence.
    + apply veyra_language in L.
      destruct (usable env (orFind (configGet env "compilerPath") (findVeyraCompiler env)))
        as [c|] eqn:U.
      * apply usable_some in U. destruct U as [U1 [U2 U3]]. apply orFind_some in U1. split.
        -- intros H. inversion H. exists document, c. repeat split; auto.
        -- intros [d [c' [H1 [_ [H3 [H4 [H5 H6]]]]]]]. inversion H1; subst.
           assert (c' = c) as ->; [|reflexivity].
           destruct (nonEmpty (configGet env "compilerPath")); congruence.
      * split; [discriminate|].
        intros [d [c' [H1 [_ [H3 [H4 [H5 H6]]]]]]]. exfalso.
        assert (usable env (orFind (configGet env "compilerPath") (findVeyraCompiler env))
                = Some c') as U'.
        { apply usable_some. split; [|split; assumption]. now apply orFind_some. }
        congruence.
  - split; [discriminate|]. intros [d [t [H1 _]]]. discriminate.
Qed.

(** [X16] Unlike the path configured for a tool, a configured
    compiler or language-server path that the probe rejects is not
    replaced by a discovered one: the run command then sends nothing and
    no language server is started, whatever discovery would find. *)
Theorem rejected_setting_not_replaced env :
  (nonEmpty (configGet env "compilerPath") = true ->
   isExecutableAvailable env (configGet env "compilerPath") = false ->
   forall activeEditor lines, runCommand env activeEditor <> Sent lines) /\
  (nonEmpty (configGet env "languageServerPath") = true ->
   isExecutableAvailable env (configGet env "languageServerPath") = false ->
   startLanguageServer env = None).
Proof.
  split.
  - intros Hn Hr activeEditor lines H. unfold runCommand, orFind in H. rewrite Hn in H.
    unfold usable in H. rewrite Hn, Hr in H. simpl in H.
    destruct activeEditor as [document|]; [|discriminate].
    destruct (negb (String.eqb (languageId document) "veyra")); discriminate.
  - intros Hn Hr. unfold startLanguageServer, orFind, usable. now rewrite Hn, Hn, Hr.
Qed.

Lemma rejected_setting_not_replaced_witness :
  findVeyraCompiler staleSettings = Some "veyc" /\
  (forall lines, runCommand staleSettings (Some tenLines) <> Sent lines) /\
  findVeyraLanguageServer staleSettings = Some "veyra-lsp" /\
  startLanguageServer staleSettings = None.
Proof.
  split; [reflexivity|]. split; [|split; [reflexivity|]].
  - exact (proj1 (rejected_setting_not_replaced staleSettings) eq_refl eq_refl
                 (Some tenLines)).
  - exact (proj2 (rejected_setting_not_replaced staleSettings) eq_refl eq_refl).
Defined.

(** *** The name of a new project *)

Lemma code_inj c d : code c = code d -> c = d.
Proof.
  unfold code. intros H. rewrite <- (ascii_nat_embedding c), <- (ascii_nat_embedding d).
  now rewrite H.
Qed.

Lemma between_spec lo hi c : between lo hi c = true <-> (lo <= code c <= hi)%nat.
Proof.
  unfold between. rewrite andb_true_iff, !Nat.leb_le. reflexivity.
Qed.

Lemma isNameChar_spec c :
  isNameChar c = true <-> alphanumeric c \/ c = "_"%char \/ c = "-"%char.
Proof.
  unfold isNameChar, alphanumeric. rewrite !orb_true_iff, !between_spec, !Nat.eqb_eq.
  split.
  - intros [[[[H|H]|H]|H]|H]; auto.
    + right. left. now apply code_inj.
    + right. right. now apply code_inj.
  - intros [[H|[H|H]]|[->| ->]]; auto.
Qed.

Lemma allNameChars_spec value :
  allNameChars value = true <->
  Forall (fun c => alphanumeric c \/ c = "_"%char \/ c = "-"%char) (characters value).
Proof.
  induction value as [|c value IH]; simpl.
  - split; auto.
  - rewrite andb_true_iff, IH, isNameChar_spec. split.
    + intros [H1 H2]. now constructor.
    + intros H. inversion H. auto.
Qed.

(** [X17] The input box of the new-project command accepts a name
    exactly when it is not empty and made of English letters, decimal
    digits, underscores and hyphens; the empty name alone gets the first
    message.  An accepted name therefore holds no blank, no double quote
    and no path separator, so that it stays one word of the command line
    it is put into unquoted. *)
Theorem project_name_accepted value :
  (validateInput value = None <->
   value <> EmptyString /\
   Forall (fun c => alphanumeric c \/ c = "_"%char \/ c = "-"%char) (characters value)) /\
  (validateInput value = Some NameEmpty <-> value = EmptyString) /\
  (validateInput value = None ->
   Forall (fun c => isSpace c = false /\ c <> RegExp.doubleQuote /\
                    c <> "/"%char /\ c <> "\"%char) (characters value)).
Proof.
  assert (validateInput value = None <->
          value <> EmptyString /\
          Forall (fun c => alphanumeric c \/ c = "_"%char \/ c = "-"%char) (characters value))
    as Hacc.
  { unfold validateInput. rewrite <- allNameChars_spec.
    destruct value as [|c value]; simpl.
    - split; [discriminate|]. intros [H _]. now contradiction H.
    - destruct (isNameChar c && allNameChars value); simpl; split; try discriminate; auto.
      intros [_ H]. discriminate. }
  split; [exact Hacc|]. split.
  - unfold validateInput. destruct value as [|c value]; simpl.
    + split; reflexivity.
    + destruct (isNameChar c && allNameChars value); simpl; split; discriminate.
  - intros H. apply Hacc in H. destruct H as [_ H].
    eapply List.Forall_impl; [|exact H]. clear. intros c Hc. simpl in Hc.
    unfold alphanumeric in Hc. unfold isSpace, between.
    assert (code c <> 32 /\ code c <> 160 /\ code c <> 34 /\ code c <> 47 /\ code c <> 92
            /\ ~ (9 <= code c <= 13))%nat as Hn.
    { destruct Hc as [[H|[H|H]]|[->| ->]]; [lia|lia|lia| |];
        [change (code "_"%char) with 95%nat|change (code "-"%char) with 45%nat]; lia. }
    destruct Hn as [H1 [H2 [H3 [H4 [H5 H6]]]]].
    split; [|split; [|split]].
    + rewrite !orb_false_iff, andb_false_iff, !Nat.leb_gt, !Nat.eqb_neq. lia.
    + intros ->. now apply H3.
    + intros ->. now apply H4.
    + intros ->. now apply H5.
Qed.

End CommandsExtras.

(** ** Further properties of the report on the tools *)
Module ToolStatusExtras.
Import JsString Discovery ToolStatus CommandNotions DiscoveryClaims.
Import Examples CommandExamples.

Lemma findTool_bare env toolName :
  bareName env toolName -> exists p, ToolManager.findTool env toolName = Some p.
Proof.
  intros [Ha Hs]. destruct (ToolManager.findTool env toolName) as [p|] eqn:E; [now exists p|].
  exfalso. unfold ToolManager.findTool in E. apply find_none in E.
  rewrite List.Forall_forall in E.
  assert (ToolManager.isExecutableAvailable env toolName = false) as Hf.
  { apply E. unfold ToolManager.searchPaths. rewrite !in_app_iff. right. right. now left. }
  assert (ToolManager.isExecutableAvailable env toolName = true) as Ht.
  { apply toolManager_probe_true. left. now split. }
  congruence.
Qed.

Lemma info_found env name executableName description :
  bareName env executableName ->
  found (let toolPath := ToolManager.findTool env executableName in
         {| name := name; executableName := executableName; description := description;
            found := match toolPath with Some _ => true | None => false end;
            path := match toolPath with
                    | Some p => if nonEmpty p then Some p else None
                    | None => None
                    end |}) = true.
Proof.
  intros H. destruct (findTool_bare env executableName H) as [p E]. simpl. now rewrite E.
Qed.

Lemma none_missing env :
  bareName env "veyra-fmt" -> bareName env "veyra-lint" -> bareName env "veyra-pkg" ->
  missingTools (getAllToolsInfo env) = [].
Proof.
  intros H1 H2 H3. unfold missingTools, getAllToolsInfo, tools.
  cbn [map List.filter].
  rewrite (info_found env _ _ _ H1), (info_found env _ _ _ H2), (info_found env _ _ _ H3).
  reflexivity.
Qed.

(** [X18] Where the three tool names are bare names (not absolute and
    without a path separator, as on every platform), [ToolManager.findTool]
    always returns a path, because its probe accepts the bare name it
    tries last without testing it.  So [getAllToolsInfo] reports every
    tool as found and [checkToolsAvailability] answers true and writes
    nothing, whatever is installed. *)
Theorem tools_always_reported_found env :
  bareName env "veyra-fmt" -> bareName env "veyra-lint" -> bareName env "veyra-pkg" ->
  Forall (fun tool => found tool = true) (getAllToolsInfo env) /\
  map executableName (getAllToolsInfo env) = ["veyra-fmt"; "veyra-lint"; "veyra-pkg"] /\
  checkToolsAvailability env = (true, []).
Proof.
  intros H1 H2 H3. split; [|split].
  - unfold getAllToolsInfo, tools. cbn [map].
    repeat constructor; apply info_found; assumption.
  - reflexivity.
  - unfold checkToolsAvailability. now rewrite none_missing.
Qed.

Lemma tools_always_reported_found_witness :
  checkToolsAvailability nothingBuilt = (true, []).
Proof.
  apply (tools_always_reported_found nothingBuilt); split; reflexivity.
Defined.

Lemma execAsync_cases exit :
  (execAsync exit = Returns tt /\ exit = Exited 0) \/
  ((exists e, execAsync exit = Raises e) /\ exit <> Exited 0).
Proof.
  destruct exit as [[| |]| | |]; simpl; [now left|..];
    right; (split; [eauto|discriminate]).
Qed.

(** [X19] For the same reason the verification at the end of
    [ToolManager.buildTools] cannot fail: the function never reports
    tools as still missing, and it returns true exactly when a workspace
    folder with a tools directory is open and both cargo processes exit
    with status 0, whether or not the build produced the tools. *)
Theorem build_verification_cannot_fail env cargoVersion cargoBuild built :
  bareName built "veyra-fmt" -> bareName built "veyra-lint" -> bareName built "veyra-pkg" ->
  (forall missing, buildTools env cargoVersion cargoBuild built <> StillMissing missing) /\
  (returned (buildTools env cargoVersion cargoBuild built) = true <->
   (exists workspaceFolder others,
      workspaceFolders env = Some (workspaceFolder :: others) /\
      existsSync env (join env [workspaceFolder; "tools"]) = true) /\
   cargoVersion = Exited 0 /\ cargoBuild = Exited 0).
Proof.
  intros H1 H2 H3. unfold buildTools. rewrite (none_missing built H1 H2 H3).
  cbn [List.length Nat.eqb].
  destruct (workspaceFolders env) as [[|w others]|].
  - split; [discriminate|]. split; [discriminate|]. intros [[? [? [H _]]] _]. discriminate.
  - destruct (existsSync env (join env [w; "tools"])) eqn:Ex; cbn [negb].
    + destruct (execAsync_cases cargoVersion) as [[-> ->]|[[e ->] Hv]].
      * destruct (execAsync_cases cargoBuild) as [[-> ->]|[[e ->] Hb]]; simpl.
        -- split; [discriminate|]. split; [|reflexivity]. intros _. split; [|now split].
           exists w, others. now split.
        -- split; [discriminate|]. split; [discriminate|]. intros [_ [_ H]]. congruence.
      * simpl. split; [discriminate|]. split; [discriminate|]. intros [_ [H _]]. congruence.
    + split; [discriminate|]. split; [discriminate|].
      intros [[w' [o' [Hw He]]] _]. inversion Hw; subst. congruence.
  - split; [discriminate|]. split; [discriminate|]. intros [[? [? [H _]]] _]. discriminate.
Qed.

Lemma build_verification_cannot_fail_witness :
  ToolManager.isExecutableAvailable nothingBuilt "/work/tools/target/release/veyra-fmt" = false /\
  returned (buildTools nothingBuilt (Exited 0) (Exited 0) nothingBuilt) = true.
Proof.
  split; [reflexivity|].
  apply (proj2 (build_verification_cannot_fail nothingBuilt (Exited 0) (Exited 0) nothingBuilt
                  ltac:(split; reflexivity) ltac:(split; reflexivity)
                  ltac:(split; reflexivity))).
  split; [|split; reflexivity]. exists "/work", []. split; reflexivity.
Defined.

End ToolStatusExtras.

(** ** Further properties of the status bar *)
Module StatusBarExtras.
Import JsString Parser StatusBar CommandNotions.
Import Examples CommandExamples.

Lemma counted (f : Severity -> bool) (d : Severity) (l : list Severity) :
  (forall x, f x = true <-> x = d) ->
  (0 <? List.length (List.filter f l))%nat = true <-> In d l.
Proof.
  intros Hf. rewrite Nat.ltb_lt. induction l as [|x l IH]; simpl.
  - split; [lia|tauto].
  - destruct (f x) eqn:E; simpl.
    + apply Hf in E. subst. split; [auto|lia].
    + rewrite IH. split; [auto|]. intros [->|H]; [|exact H].
      assert (f d = true) by now apply Hf. congruence.
Qed.

Lemma isError_spec x : isError x = true <-> x = SeverityError.
Proof. destruct x; simpl; split; congruence. Qed.

Lemma isWarning_spec x : isWarning x = true <-> x = SeverityWarning.
Proof. destruct x; simpl; split; congruence. Qed.

Lemma some_diagnostic (d : Severity) (l : list Severity) :
  In d l -> (0 <? List.length l)%nat = true.
Proof. destruct l; simpl; [tauto|reflexivity]. Qed.

Section WithBasename.
Variable basename : string -> string.

(** [X20] After [updateStatusBar] the problems item is shown exactly
    when the document is a Veyra document with at least one error or
    warning among its diagnostics; what was shown before plays no part,
    and diagnostics that are all informations or hints hide the item. *)
Theorem problems_item_shown document diagnostics bar :
  errorShown (updateStatusBar basename document diagnostics bar) = true <->
  (exists d, document = Some d /\ languageId d = "veyra") /\
  (In SeverityError diagnostics \/ In SeverityWarning diagnostics).
Proof.
  unfold updateStatusBar. destruct document as [d|]; simpl.
  2: { split; [discriminate|]. intros [[d [H _]] _]. discriminate. }
  destruct (String.eqb (languageId d) "veyra") eqn:L; simpl.
  2: { split; [discriminate|]. intros [[d' [H1 H2]] _]. inversion H1; subst.
       apply String.eqb_eq in H2. congruence. }
  apply String.eqb_eq in L.
  destruct (0 <? List.length (List.filter isError diagnostics))%nat eqn:E.
  - apply (counted isError SeverityError) in E; [|exact isError_spec].
    rewrite (some_diagnostic _ _ E). simpl. split; [|reflexivity].
    intros _. split; [now exists d|now left].
  - assert (~ In SeverityError diagnostics) as Hne.
    { intros H. apply (counted isError SeverityError) in H; [|exact isError_spec].
      congruence. }
    destruct (0 <? List.length (List.filter isWarning diagnostics))%nat eqn:W.
    + apply (counted isWarning SeverityWarning) in W; [|exact isWarning_spec].
      rewrite (some_diagnostic _ _ W). simpl. split; [|reflexivity].
      intros _. split; [now exists d|now right].
    + assert (~ In SeverityWarning diagnostics) as Hnw.
      { intros H. apply (counted isWarning SeverityWarning) in H; [|exact isWarning_spec].
        congruence. }
      destruct (0 <? List.length diagnostics)%nat; simpl;
        (split; [discriminate|]); intros [_ [H|H]]; tauto.
Qed.

Lemma background_after document diagnostics bar :
  errorBackground (updateStatusBar basename document diagnostics bar) = WarningBackground <->
  errorBackground bar = WarningBackground \/ warningsOnly (document, diagnostics).
Proof.
  unfold updateStatusBar, warningsOnly. destruct document as [d|]; simpl.
  2: { split; [auto|]. intros [H|[[d [H _]] _]]; [exact H|discriminate]. }
  destruct (String.eqb (languageId d) "veyra") eqn:L; simpl.
  2: { split; [auto|]. intros [H|[[d' [H1 H2]] _]]; [exact H|]. inversion H1; subst.
       apply String.eqb_eq in H2. congruence. }
  apply String.eqb_eq in L.
  destruct (0 <? List.length (List.filter isError diagnostics))%nat eqn:E.
  - apply (counted isError SeverityError) in E; [|exact isError_spec].
    rewrite (some_diagnostic _ _ E). simpl. split; [auto|]. intros [H|[_ [_ H]]]; tauto.
  - assert (~ In SeverityError diagnostics) as Hne.
    { intros H. apply (counted isError SeverityError) in H; [|exact isError_spec].
      congruence. }
    destruct (0 <? List.length (List.filter isWarning diagnostics))%nat eqn:W.
    + apply (counted isWarning SeverityWarning) in W; [|exact isWarning_spec].
      rewrite (some_diagnostic _ _ W). simpl. split; [|reflexivity].
      intros _. right. split; [now exists d|now split].
    + assert (~ In SeverityWarning diagnostics) as Hnw.
      { intros H. apply (counted isWarning SeverityWarning) in H; [|exact isWarning_spec].
        congruence. }
      destruct (0 <? List.length diagnostics)%nat; simpl;
        (split; [auto|]); intros [H|[_ [H _]]]; tauto.
Qed.

Lemma background_after_updates calls : forall bar,
  errorBackground (updates basename calls bar) = WarningBackground <->
  errorBackground bar = WarningBackground \/ Exists warningsOnly calls.
Proof.
  induction calls as [|[document diagnostics] calls IH]; intros bar.
  - simpl. rewrite Exists_nil. tauto.
  - change (updates basename ((document, diagnostics) :: calls) bar)
      with (updates basename calls (updateStatusBar basename document diagnostics bar)).
    rewrite IH, background_after, Exists_cons. tauto.
Qed.

(** [X21] The problems item is created with the error background, and
    the only assignment afterwards gives it the warning background, when
    a Veyra document has warnings and no error.  So after
    [initializeStatusBar] and any number of updates the item has the
    warning background exactly when one of these calls was such a call:
    once it has shown warnings alone it never gets the error background
    back, also when it shows errors. *)
Theorem warning_background_stays activeEditor diagnostics calls :
  errorBackground (updates basename calls (initializeStatusBar basename activeEditor diagnostics))
  = WarningBackground <->
  Exists warningsOnly ((activeEditor, diagnostics) :: calls).
Proof.
  rewrite background_after_updates, Exists_cons.
  assert (errorBackground (initializeStatusBar basename activeEditor diagnostics)
          = WarningBackground <-> warningsOnly (activeEditor, diagnostics)) as H; [|tauto].
  unfold initializeStatusBar. destruct activeEditor as [d|].
  - destruct (String.eqb (languageId d) "veyra") eqn:L.
    + rewrite background_after. simpl. split; [|auto]. intros [H|H]; [discriminate|exact H].
    + simpl. split; [discriminate|]. intros [[d' [H1 H2]] _]. inversion H1; subst.
      apply String.eqb_eq in H2. congruence.
  - simpl. split; [discriminate|]. intros [[d' [H1 _]] _]. discriminate.
Qed.

End WithBasename.

End StatusBarExtras.

(** ** Further properties of activation *)
Module ActivationExtras.
Import Parser Discovery Commands Scheduler.
Import Examples CommandExamples.

Lemma setupDiagnostics_compilerPath textDocuments : forall s,
  compilerPath (setupDiagnostics textDocuments s) = compilerPath s.
Proof.
  unfold setupDiagnostics.
  induction textDocuments as [|doc textDocuments IH]; intros s; [reflexivity|].
  cbn [fold_left]. rewrite IH. destruct (isVeyra doc); [|reflexivity].
  apply SchedulerExtras.validateDocument_compilerPath.
Qed.

Lemma run_compilerPath trace : forall s, compilerPath (run trace s) = compilerPath s.
Proof.
  induction trace as [|te trace IH]; intros s; [reflexivity|].
  change (run (te :: trace) s) with (run trace (step te s)).
  now rewrite IH, SchedulerExtras.step_compilerPath.
Qed.

(** [X22] The compiler that validation runs is the one
    [findVeyraCompiler] found at activation, and [findVeyraCompiler]
    does not read the settings: whatever they hold, after activation and
    any sequence of events the compiler path is the one found with no
    settings at all.  The run command, on the same machine, runs the
    configured compiler when the settings name one that passes the
    probe. *)
Theorem diagnostics_ignore_compiler_setting env settings textDocuments trace document :
  let configured := withConfiguration settings env in
  compilerPath (run trace (activated (findVeyraCompiler configured) textDocuments))
  = findVeyraCompiler (withConfiguration ∅ env) /\
  (languageId document = "veyra" ->
   nonEmpty (configGet configured "compilerPath") = true ->
   isExecutableAvailable configured (configGet configured "compilerPath") = true ->
   runCommand configured (Some document)
   = Sent [quoted (configGet configured "compilerPath") +:+ " " +:+ quoted (uri document)]).
Proof.
  intros configured. split.
  - unfold activated. rewrite run_compilerPath, setupDiagnostics_compilerPath. reflexivity.
  - intros Hl Hn Hp. unfold runCommand, orFind, usable.
    rewrite Hl. simpl negb. cbv iota. now rewrite Hn, Hn, Hp.
Qed.

Lemma diagnostics_ignore_compiler_setting_witness :
  compilerPath (run [(0, DidOpen tenLines); (10, DidChange tenLines)]
                    (activated (findVeyraCompiler twoCompilers) [tenLines]))
  = Some "veyc" /\
  runCommand twoCompilers (Some tenLines)
  = Sent [quoted "/opt/veyra/bin/veyc" +:+ " " +:+ quoted "/work/main.vey"].
Proof.
  pose proof (diagnostics_ignore_compiler_setting twoCompilers (configuration twoCompilers)
                [tenLines] [(0, DidOpen tenLines); (10, DidChange tenLines)] tenLines) as H.
  cbv zeta in H. destruct H as [H1 H2]. split.
  - exact H1.
  - apply H2; reflexivity.
Defined.

End ActivationExtras.
